(** * minimize_html.py: analysis and reduction of static HTML documents

    A shallow embedding of [src/minimize_html.py] and the properties of it
    that the specification states.

    Python values are modelled as follows.
    - [str] is a sequence of Unicode code points ([list N]); [len] counts
      code points and [_len_bytes] counts the bytes of the UTF-8 encoding.
    - The BeautifulSoup tree is a rose tree of nodes.  Every node carries
      the identity of the Python object it stands for ([uid]); the lists
      that [find_all] returns are lists of such identities, and the
      in-place mutations ([decompose], [extract], [insert_before],
      [del el.attrs[a]]) act on the one shared tree.
    - An exception is the [None] of an option monad.
    - The HTML parser (BeautifulSoup with lxml), the serialiser ([str(soup)])
      and the minifier ([htmlmin.minify]) are libraries outside the
      repository; the functions that call them take them as parameters. *)

From Stdlib Require Import String Ascii.
From Stdlib Require Import List ZArith NArith Lia Bool QArith Qround.
From Stdlib Require DecimalPos DecimalZ SpecFloat.
Import ListNotations.
#[local] Close Scope Q_scope.

(** ** Python strings *)

Module PyStr.

Definition str := list N.

(** A literal of the source, given in ASCII. *)
Definition lit (s : string) : str :=
  map N_of_ascii (list_ascii_of_string s).

Definition len (s : str) : Z := Z.of_nat (length s).

Fixpoint eqb (a b : str) : bool :=
  match a, b with
  | [], [] => true
  | x :: a', y :: b' => N.eqb x y && eqb a' b'
  | _, _ => false
  end.

(** [s.startswith(p)] *)
Fixpoint startswith (p s : str) : bool :=
  match p, s with
  | [], _ => true
  | x :: p', y :: s' => N.eqb x y && startswith p' s'
  | _ :: _, [] => false
  end.

(** [p in s] *)
Fixpoint contains (p s : str) : bool :=
  startswith p s ||
  match s with
  | [] => false
  | _ :: s' => contains p s'
  end.

(** [str.lower()].  Only three kinds of code point lower-case to something
    that holds an ASCII character: the ASCII capitals, the Kelvin sign
    (U+212A, to [k]) and the dotted capital I (U+0130, to [i] followed by
    U+0307).  Every other code point lower-cases to code points outside
    ASCII, and since the program only ever compares lower-cased text with
    ASCII literals, those are kept as they are. *)
Definition lower_char (c : N) : list N :=
  if (65 <=? c)%N && (c <=? 90)%N then [(c + 32)%N]
  else if (c =? 8490)%N then [107%N]
  else if (c =? 304)%N then [105%N; 775%N]
  else [c].

Definition lower (s : str) : str := flat_map lower_char s.

(** [str.isspace()] on one code point. *)
Definition isspace (c : N) : bool :=
  ((9 <=? c) && (c <=? 13) || (28 <=? c) && (c <=? 32) ||
   (c =? 133) || (c =? 160) || (c =? 5760) ||
   (8192 <=? c) && (c <=? 8202) || (c =? 8232) || (c =? 8233) ||
   (c =? 8239) || (c =? 8287) || (c =? 12288))%N.

Fixpoint lstrip (s : str) : str :=
  match s with
  | c :: s' => if isspace c then lstrip s' else s
  | [] => []
  end.

Definition rstrip (s : str) : str := rev (lstrip (rev s)).

(** [s.strip()] *)
Definition strip (s : str) : str := rstrip (lstrip s).

(** [sep.join(l)] *)
Fixpoint join (sep : str) (l : list str) : str :=
  match l with
  | [] => []
  | [x] => x
  | x :: rest => x ++ sep ++ join sep rest
  end.

(** The maximal runs of non-blank characters: [re.findall(r"\S+", s)],
    which is how BeautifulSoup turns the value of a multi-valued attribute
    ([class], [rel]) into a list. *)
Fixpoint tokens_go (cur : str) (s : str) : list str :=
  match s with
  | [] => match cur with [] => [] | _ => [rev cur] end
  | c :: s' =>
    if isspace c
    then match cur with [] => tokens_go [] s' | _ => rev cur :: tokens_go [] s' end
    else tokens_go (c :: cur) s'
  end.

Definition tokens (s : str) : list str := tokens_go [] s.

(** [s.replace(old, new)]: the occurrences of [old], left to right and not
    overlapping. [skip] counts the characters of a replaced occurrence still
    to be passed over. *)
Fixpoint replace_go (old new : str) (skip : nat) (s : str) : str :=
  match s with
  | [] => []
  | c :: s' =>
    match skip with
    | S k => replace_go old new k s'
    | O =>
      if startswith old s
      then new ++ replace_go old new (length old - 1) s'
      else c :: replace_go old new 0 s'
    end
  end.

Definition replace (old new s : str) : str :=
  match old with
  | [] => new ++ flat_map (fun c => c :: new) s
  | _ => replace_go old new 0 s
  end.

(** Bytes that one code point takes in UTF-8; the surrogates cannot be
    encoded and [errors='ignore'] leaves them out. *)
Definition utf8_width (c : N) : Z :=
  if (c <? 128)%N then 1
  else if (c <? 2048)%N then 2
  else if (55296 <=? c)%N && (c <=? 57343)%N then 0
  else if (c <? 65536)%N then 3
  else 4.

End PyStr.
Import PyStr.

(** [_len_bytes(s)]: [len(s.encode('utf-8', errors='ignore'))]. *)
Definition _len_bytes (s : str) : Z :=
  fold_right (fun c acc => (utf8_width c + acc)%Z) 0%Z s.

(** ** The document tree *)

(** A node of the BeautifulSoup tree.  [uid] is the identity of the Python
    object.  A tag keeps its attributes in source order, each with its raw
    value; BeautifulSoup presents the multi-valued ones ([class] on every
    tag, [rel] on [link]) as the list of their blank-separated tokens, which
    [get_list] computes.  [Doctype] stands for the string nodes that are
    neither text nor comments. *)
#[local] Unset Elimination Schemes.
Inductive node : Type :=
| Tag (u : nat) (name : str) (attrs : list (str * str)) (contents : list node)
| NavigableString (u : nat) (s : str)
| Comment (u : nat) (s : str)
| Doctype (u : nat) (s : str).
#[local] Set Elimination Schemes.

(** The tree under the BeautifulSoup object, and the identity the next
    object to be created gets. *)
Record dom : Type := Dom { tree : list node; next_uid : nat }.

(** Induction over a forest: the contents of a tag come before the siblings
    that follow it. *)
Definition is_tag (n : node) : bool :=
  match n with Tag _ _ _ _ => true | _ => false end.

Section ForestInduction.

Variable Q : list node -> Prop.
Hypothesis Hnil : Q [].
Hypothesis Htag : forall u nm a c l, Q c -> Q l -> Q (Tag u nm a c :: l).
Hypothesis Hleaf : forall n l, is_tag n = false -> Q l -> Q (n :: l).

Fixpoint forest_ind_cons (n : node) : forall l, Q l -> Q (n :: l) :=
  match n with
  | Tag u nm a c =>
    fun l Hl =>
      Htag u nm a c l
        ((fix go (c' : list node) : Q c' :=
            match c' with
            | [] => Hnil
            | x :: r => forest_ind_cons x r (go r)
            end) c) Hl
  | NavigableString u s => fun l Hl => Hleaf (NavigableString u s) l eq_refl Hl
  | Comment u s => fun l Hl => Hleaf (Comment u s) l eq_refl Hl
  | Doctype u s => fun l Hl => Hleaf (Doctype u s) l eq_refl Hl
  end.

Definition forest_ind : forall l, Q l :=
  fix go (l : list node) : Q l :=
    match l with
    | [] => Hnil
    | x :: r => forest_ind_cons x r (go r)
    end.

End ForestInduction.

Definition uid (n : node) : nat :=
  match n with
  | Tag u _ _ _ | NavigableString u _ | Comment u _ | Doctype u _ => u
  end.

Definition contents (n : node) : list node :=
  match n with
  | Tag _ _ _ c => c
  | _ => []
  end.

Definition is_comment (n : node) : bool :=
  match n with Comment _ _ => true | _ => false end.

(** The node and everything below it, in document order. *)
Fixpoint self_and_descendants (n : node) : list node :=
  n :: match n with
       | Tag _ _ _ c => flat_map self_and_descendants c
       | _ => []
       end.

(** [soup.descendants] *)
Definition descendants (t : list node) : list node :=
  flat_map self_and_descendants t.

(** [find_all] with a filter: the matching objects in document order. *)
Definition find_all (p : node -> bool) (t : list node) : list nat :=
  map uid (filter p (descendants t)).

(** [find_all(name)] and [find_all([name, ...])] *)
Definition named (names : list str) (n : node) : bool :=
  match n with
  | Tag _ nm _ _ => existsb (eqb nm) names
  | _ => false
  end.

(** The object behind a reference, if it is still in the tree. *)
Definition find_node (i : nat) (t : list node) : option node :=
  find (fun n => Nat.eqb (uid n) i) (descendants t).

Fixpoint assoc (k : str) (a : list (str * str)) : option str :=
  match a with
  | [] => None
  | (k', v) :: a' => if eqb k' k then Some v else assoc k a'
  end.

(** [el.get(k)] *)
Definition get (n : node) (k : str) : option str :=
  match n with
  | Tag _ _ a _ => assoc k a
  | _ => None
  end.

(** [el.has_attr(k)] *)
Definition has_attr (n : node) (k : str) : bool :=
  match get n k with Some _ => true | None => false end.

(** [el.get(k) or ''] *)
Definition get_or_empty (n : node) (k : str) : str :=
  match get n k with
  | Some (c :: v) => c :: v
  | _ => []
  end.

(** [el.get(k, [])] for a multi-valued attribute. *)
Definition get_list (n : node) (k : str) : list str :=
  match get n k with
  | Some v => tokens v
  | None => []
  end.

(** [tag.decompose()]: the object and all below it leave the tree. *)
Fixpoint prune (i : nat) (n : node) : list node :=
  if Nat.eqb (uid n) i then []
  else match n with
       | Tag u nm a c => [Tag u nm a (flat_map (prune i) c)]
       | _ => [n]
       end.

Definition decompose (i : nat) (t : list node) : list node :=
  flat_map (prune i) t.

(** [x.extract()] detaches like [decompose]; the two differ in what becomes
    of the detached object, which this program never looks at again. *)
Definition extract (i : nat) (t : list node) : list node :=
  decompose i t.

(** [el.insert_before(new)] *)
Fixpoint graft (i : nat) (new : node) (n : node) : list node :=
  (if Nat.eqb (uid n) i then [new] else []) ++
  [match n with
   | Tag u nm a c => Tag u nm a (flat_map (graft i new) c)
   | _ => n
   end].

Definition insert_before (i : nat) (new : node) (t : list node) : list node :=
  flat_map (graft i new) t.

(** Assignment to [el.attrs] of the object [i]. *)
Fixpoint set_attrs (i : nat) (f : list (str * str) -> list (str * str))
  (n : node) : node :=
  match n with
  | Tag u nm a c =>
    Tag u nm (if Nat.eqb u i then f a else a) (map (set_attrs i f) c)
  | _ => n
  end.

(** The strings [get_text] joins: text nodes only, comments and doctypes
    left out; with [strip] each is trimmed and the empty ones are skipped. *)
Definition text_of (strip_ : bool) (n : node) : list str :=
  match n with
  | NavigableString _ s =>
    if strip_
    then match strip s with [] => [] | s' => [s'] end
    else [s]
  | _ => []
  end.

(** [get_text(sep, strip=...)] of the nodes [t] and what is below them. *)
Definition get_text (sep : str) (strip_ : bool) (t : list node) : str :=
  join sep (flat_map (text_of strip_) (descendants t)).

(** [el.find_next_sibling(name)]: the siblings that follow the object [i]. *)
Fixpoint siblings_after (i : nat) (l : list node) : option (list node) :=
  match l with
  | [] => None
  | n :: rest => if Nat.eqb (uid n) i then Some rest else siblings_after i rest
  end.

Definition first_some {A B : Type} (f : A -> option B) : list A -> option B :=
  fix go (l : list A) : option B :=
    match l with
    | [] => None
    | a :: rest => match f a with Some b => Some b | None => go rest end
    end.

Fixpoint next_siblings_below (i : nat) (n : node) : option (list node) :=
  match n with
  | Tag _ _ _ c =>
    match siblings_after i c with
    | Some s => Some s
    | None => first_some (next_siblings_below i) c
    end
  | _ => None
  end.

Definition next_siblings (i : nat) (t : list node) : option (list node) :=
  match siblings_after i t with
  | Some s => Some s
  | None => first_some (next_siblings_below i) t
  end.

Definition find_next_sibling (i : nat) (name : str) (t : list node)
  : option node :=
  match next_siblings i t with
  | Some s => find (named [name]) s
  | None => None
  end.

(** [el.select_one('.' + cls)]: the first tag below [el] that has the
    class. *)
Definition has_class (cls : str) (n : node) : bool :=
  is_tag n && existsb (eqb cls) (get_list n (lit "class")).

Definition select_one (cls : str) (el : node) : option node :=
  find (has_class cls) (descendants (contents el)).

(** ** Loops over the result of [find_all] *)

(** A small error monad: [None] is a raised exception. *)
Definition bind {A B : Type} (m : option A) (k : A -> option B) : option B :=
  match m with
  | Some a => k a
  | None => None
  end.

Notation "x <- m ;; k" := (bind m (fun x => k))
  (at level 61, m at next level, right associativity).

(** [for i in ids: s = body(s, i)], stopping at the first exception. *)
Fixpoint for_each {S : Type} (body : S -> nat -> option S) (ids : list nat)
  (s : S) : option S :=
  match ids with
  | [] => Some s
  | i :: rest => s' <- body s i ;; for_each body rest s'
  end.

(** [for x in ids: x.decompose()] *)
Definition decompose_all (ids : list nat) (t : list node) : list node :=
  fold_left (fun t' i => decompose i t') ids t.

(** ** The aggressive strip transform *)

Definition bullet : N := 8226.

Definition CHECKBOX_ON : str := lit "[x] ".
Definition CHECKBOX_OFF : str := lit "[ ] ".
Definition RADIO_ON : str := [40; bullet; 41; 32]%N.
Definition RADIO_OFF : str := lit "( ) ".

(** Body of the loop over [soup.find_all('link')].  A link that left the
    tree with an enclosing link has lost its attribute dictionary, and
    [link.get] raises. *)
Definition drop_link (t : list node) (i : nat) : option (list node) :=
  link <- find_node i t ;;
  let rel := lower (join (lit " ") (get_list link (lit "rel"))) in
  if contains (lit "stylesheet") rel || contains (lit "preload") rel
     || contains (lit "preconnect") rel
  then Some (decompose i t)
  else Some t.

(** [[a for a in el.attrs.keys() if a.lower().startswith('on')]] *)
Definition attrs_to_remove (a : list (str * str)) : list str :=
  filter (fun k => startswith (lit "on") (lower k)) (map fst a).

(** [del el.attrs[k]] *)
Definition del_attr (k : str) (a : list (str * str)) : list (str * str) :=
  filter (fun kv => negb (eqb (fst kv) k)) a.

Definition strip_handlers (a : list (str * str)) : list (str * str) :=
  fold_left (fun a' k => del_attr k a') (attrs_to_remove a) a.

Definition strip_all_handlers (ids : list nat) (t : list node) : list node :=
  fold_left (fun t' i => map (set_attrs i strip_handlers) t') ids t.

(** The [checked] of the loop over the native inputs, as the source computes
    it: [inp.has_attr('checked') and (inp['checked'] in [True, 'true',
    'checked', '', None] or inp['checked'] == inp.get('checked'))].  An
    attribute value is a string, so it equals neither [True] nor [None]. *)
Definition option_eqb (a b : option str) : bool :=
  match a, b with
  | Some x, Some y => eqb x y
  | None, None => true
  | _, _ => false
  end.

Definition native_checked (inp : node) : bool :=
  has_attr inp (lit "checked") &&
  match get inp (lit "checked") with
  | Some v =>
    existsb (eqb v) [lit "true"; lit "checked"; lit ""]
    || option_eqb (Some v) (get inp (lit "checked"))
  | None => false
  end.

Definition native_marker (t : str) (checked : bool) : str :=
  if eqb t (lit "checkbox")
  then (if checked then CHECKBOX_ON else CHECKBOX_OFF)
  else (if checked then RADIO_ON else RADIO_OFF).

(** [(inp.get('type') or '').lower()] *)
Definition input_type (inp : node) : str :=
  lower (get_or_empty inp (lit "type")).

Definition is_choice (t : str) : bool :=
  eqb t (lit "checkbox") || eqb t (lit "radio").

(** Body of the loop over [soup.find_all('input')].  As for links, an input
    that is no longer in the tree makes [inp.get] raise. *)
Definition flatten_input (d : dom) (i : nat) : option dom :=
  inp <- find_node i (tree d) ;;
  let t := input_type inp in
  if is_choice t
  then
    let marker := native_marker t (native_checked inp) in
    Some (Dom (decompose i
                 (insert_before i (NavigableString (next_uid d) marker)
                    (tree d)))
              (S (next_uid d)))
  else Some d.

(** [is_checked_marker(marker_span)], with the tree it looks around in. *)
Definition is_checked_marker (t : list node) (marker_span : node)
  : bool * str :=
  let style := lower (get_or_empty marker_span (lit "style")) in
  let is_radio :=
    contains (lit "border-radius: 100%") style
    || contains (lit "border-radius:100%") style
    || contains (lit "width: 32px") style in
  let classes := lower (join (lit " ") (get_list marker_span (lit "class"))) in
  if contains (lit "result-state") classes
  then (true, if is_radio then RADIO_ON else CHECKBOX_ON)
  else
    let inner :=
      first_some (fun sel => select_one sel marker_span)
        [lit "fa"; lit "uu-coursekit-result-state-background";
         lit "uu-coursekit-wrong-state-background"] in
    match inner with
    | Some inner' =>
      let inner_style := lower (get_or_empty inner' (lit "style")) in
      let checked := negb (contains (lit "visibility: hidden") inner_style) in
      (checked, if is_radio then RADIO_ON else CHECKBOX_ON)
    | None =>
      match find_next_sibling (uid marker_span) (lit "div") t with
      | Some sibling_text =>
        let sib_style := lower (get_or_empty sibling_text (lit "style")) in
        if contains (lit "opacity: 0.6") sib_style
           || contains (lit "opacity:.6") sib_style
        then (false, if is_radio then RADIO_OFF else CHECKBOX_OFF)
        else (false, if is_radio then RADIO_OFF else CHECKBOX_OFF)
      | None => (false, if is_radio then RADIO_OFF else CHECKBOX_OFF)
      end
    end.

(** [base_marker if checked else (base_marker.replace('x', ' ') if '[' in
    base_marker else base_marker.replace(bullet, ' '))] *)
Definition marker_text (checked : bool) (base_marker : str) : str :=
  if checked then base_marker
  else if contains (lit "[") base_marker
       then replace (lit "x") (lit " ") base_marker
       else replace [bullet] (lit " ") base_marker.

(** Body of the loop over [soup.find_all('span')].  A span that left the
    tree with an enclosing marker has no attributes left: its class string
    is empty and the loop passes over it. *)
Definition flatten_marker (d : dom) (i : nat) : dom :=
  match find_node i (tree d) with
  | None => d
  | Some marker =>
    let cls := lower (join (lit " ") (get_list marker (lit "class"))) in
    if negb (contains (lit "uu-coursekit") cls) then d
    else
      match find_next_sibling i (lit "div") (tree d) with
      | None => d
      | Some text_div =>
        match get_text [] true (contents text_div) with
        | [] => d
        | _ =>
          let '(checked, base_marker) := is_checked_marker (tree d) marker in
          Dom (decompose i
                 (insert_before (uid text_div)
                    (NavigableString (next_uid d)
                       (marker_text checked base_marker))
                    (tree d)))
              (S (next_uid d))
        end
      end
  end.

(** [for marker in soup.find_all('span'): ...] *)
Definition flatten_markers (d : dom) : dom :=
  fold_left flatten_marker (find_all (named [lit "span"]) (tree d)) d.

(** The checkbox and radio flattening of [strip_nontext]. *)
Definition flatten (d : dom) : option dom :=
  d1 <- for_each flatten_input (find_all (named [lit "input"]) (tree d)) d ;;
  Some (flatten_markers d1).

(** The tree that [strip_nontext] serialises, from the parsed one. *)
Definition strip_tree (keep_images flatten_inputs : bool) (d : dom)
  : option dom :=
  let t1 := decompose_all
              (find_all (named [lit "script"; lit "style"]) (tree d))
              (tree d) in
  t2 <- for_each drop_link (find_all (named [lit "link"]) t1) t1 ;;
  let t3 := decompose_all
              (find_all (named [lit "iframe"; lit "embed"; lit "object"]) t2)
              t2 in
  let t4 := strip_all_handlers (find_all is_tag t3) t3 in
  let t5 := if keep_images then t4
            else decompose_all (find_all (named [lit "img"]) t4) t4 in
  let t6 := fold_left (fun t' i => extract i t') (find_all is_comment t5) t5 in
  if flatten_inputs then flatten (Dom t6 (next_uid d))
  else Some (Dom t6 (next_uid d)).

(** [minify_only] and [strip_nontext].  [minify] is [htmlmin.minify] with the
    five options both call sites pass, [BeautifulSoup] the parser with the
    lxml tree builder and [to_str] the serialiser behind [str(soup)]. *)
Section Transforms.

Variable minify : str -> str.
Variable BeautifulSoup : str -> dom.
Variable to_str : list node -> str.

Definition minify_only (html : str) : str := minify html.

Definition strip_nontext (html : str) (keep_images flatten_inputs : bool)
  : option str :=
  d <- strip_tree keep_images flatten_inputs (BeautifulSoup html) ;;
  Some (minify_only (to_str (tree d))).

End Transforms.


(** ** The marker classification *)

(** The shape test of [is_checked_marker]: radio when the lower-cased
    inline style holds one of its three texts; checkbox otherwise. *)
Definition spec_is_radio (marker : node) : bool :=
  let style := lower (get_or_empty marker (lit "style")) in
  contains (lit "border-radius: 100%") style
  || contains (lit "border-radius:100%") style
  || contains (lit "width: 32px") style.

(** *** The claimed classification

    The state of a marker as the specification words it: checked when
    [result-state] is one of the classes of the marker; otherwise, with an
    inner indicator, checked unless the indicator is hidden; otherwise
    unchecked, with or without a faded sibling div.  The inner indicator is
    the first element below the marker that has the class of a font icon,
    or else the class [result-state-background], or else the class
    [wrong-state-background]. *)
Definition claim_has_class (cls : str) (n : node) : bool :=
  is_tag n && existsb (eqb cls) (get_list n (lit "class")).

Definition claim_inner_indicator (marker : node) : option node :=
  first_some
    (fun cls => find (claim_has_class cls) (descendants (contents marker)))
    [lit "fa"; lit "result-state-background"; lit "wrong-state-background"].

Definition claim_is_checked (t : list node) (marker : node) : bool :=
  if existsb (eqb (lit "result-state")) (get_list marker (lit "class"))
  then true
  else
    match claim_inner_indicator marker with
    | Some inner =>
      negb (contains (lit "visibility: hidden")
              (get_or_empty inner (lit "style")))
    | None => false
    end.

(** [<span class='uu-coursekit-result-state'><i class='fa'
    style='visibility: hidden'></i></span><div>Answer</div>]: no class of
    the span is [result-state], and its icon is hidden. *)
Definition result_state_dom : dom :=
  Dom [Tag 0 (lit "html") []
         [Tag 1 (lit "body") []
            [Tag 2 (lit "span") [(lit "class", lit "uu-coursekit-result-state")]
               [Tag 3 (lit "i")
                  [(lit "class", lit "fa");
                   (lit "style", lit "visibility: hidden")] []];
             Tag 4 (lit "div") [] [NavigableString 5 (lit "Answer")]]]]
      6.

(** *** What the classification tests

    The text [p] occurs in the text [s]. *)
Definition occurs (p s : str) : Prop :=
  exists before after, s = before ++ p ++ after.

(** [x] is the first element of [l] with the property [P]. *)
Definition first_such {A : Type} (P : A -> Prop) (l : list A) (x : A) : Prop :=
  exists before after,
    l = before ++ x :: after /\ P x /\ forall y, In y before -> ~ P y.

(** An element that has [cls] among the classes of its class attribute. *)
Definition of_class (cls : str) (n : node) : Prop :=
  is_tag n = true /\ In cls (get_list n (lit "class")).

(** The first element below the marker, in document order, of a class. *)
Definition first_of_class (cls : str) (marker inner : node) : Prop :=
  first_such (of_class cls) (descendants (contents marker)) inner.

Definition none_of_class (cls : str) (marker : node) : Prop :=
  forall n, In n (descendants (contents marker)) -> ~ of_class cls n.

(** The inner indicator of a marker: the first element of class [fa]
    below it; without one, the first of class
    [uu-coursekit-result-state-background]; without one of these, the
    first of class [uu-coursekit-wrong-state-background]. *)
Definition inner_indicator (marker inner : node) : Prop :=
  first_of_class (lit "fa") marker inner
  \/ (none_of_class (lit "fa") marker
      /\ first_of_class (lit "uu-coursekit-result-state-background")
           marker inner)
  \/ (none_of_class (lit "fa") marker
      /\ none_of_class (lit "uu-coursekit-result-state-background") marker
      /\ first_of_class (lit "uu-coursekit-wrong-state-background")
           marker inner).

Definition no_inner_indicator (marker : node) : Prop :=
  none_of_class (lit "fa") marker
  /\ none_of_class (lit "uu-coursekit-result-state-background") marker
  /\ none_of_class (lit "uu-coursekit-wrong-state-background") marker.

(** The marker texts of the two shapes. *)
Definition is_radio_text (m : str) : bool := eqb m RADIO_ON || eqb m RADIO_OFF.

Definition is_checkbox_text (m : str) : bool :=
  eqb m CHECKBOX_ON || eqb m CHECKBOX_OFF.

(** ** The analyzer *)

Record SizeReport : Type := {
  file_size : Z;
  minified_size : Z;
  text_chars : Z;
  comments_bytes : Z;
  scripts_bytes : Z;
  styles_bytes : Z;
  inline_style_attr_bytes : Z;
  data_uri_bytes : Z;
  images_count : Z;
  scripts_count : Z;
  styles_count : Z
}.

(** The objects [find_all] returns, for the loops that only read them. *)
Definition select (p : node -> bool) (t : list node) : list node :=
  filter p (descendants t).

(** The string of a string node. *)
Definition string_of (n : node) : str :=
  match n with
  | Tag _ _ _ _ => []
  | NavigableString _ s | Comment _ s | Doctype _ s => s
  end.

(** [el.get(a) or el.get(b)] *)
Definition get_or (n : node) (a b : str) : option str :=
  match get n a with
  | Some (c :: v) => Some (c :: v)
  | _ => get n b
  end.

(** *** [base64.b64decode(s, validate=False)]

    The decoder of [binascii.a2b_base64] when it is not strict, over the
    characters the data URI pattern lets through.  [quad_pos] is the place
    in the current group of four, [leftchar] the bits not yet written and
    [pads] the padding characters seen in a row.  Padding that completes a
    group ends the decoding; a group left open at the end of the input is
    the error [binascii.Error]. *)
Definition b64_value (c : N) : option N :=
  if (65 <=? c)%N && (c <=? 90)%N then Some (c - 65)%N
  else if (97 <=? c)%N && (c <=? 122)%N then Some (c - 71)%N
  else if (48 <=? c)%N && (c <=? 57)%N then Some (c + 4)%N
  else if (c =? 43)%N then Some 62%N
  else if (c =? 47)%N then Some 63%N
  else None.

Definition BASE64_PAD : N := 61.

Fixpoint a2b_base64 (quad_pos : nat) (leftchar : N) (pads : nat)
  (s : str) : option (list N) :=
  match s with
  | [] => match quad_pos with O => Some [] | _ => None end
  | c :: s' =>
    if (c =? BASE64_PAD)%N
    then
      if (2 <=? quad_pos)%nat
      then
        if (4 <=? quad_pos + S pads)%nat then Some []
        else a2b_base64 quad_pos leftchar (S pads) s'
      else a2b_base64 quad_pos leftchar pads s'
    else
      match b64_value c with
      | None => a2b_base64 quad_pos leftchar pads s'
      | Some this_ch =>
        match quad_pos with
        | 0 => a2b_base64 1 this_ch 0 s'
        | 1 =>
          out <- a2b_base64 2 (N.land this_ch 15) 0 s' ;;
          Some (N.lor (N.shiftl leftchar 2) (N.shiftr this_ch 4) :: out)
        | 2 =>
          out <- a2b_base64 3 (N.land this_ch 3) 0 s' ;;
          Some (N.lor (N.shiftl leftchar 4) (N.shiftr this_ch 2) :: out)
        | _ =>
          out <- a2b_base64 0 0 0 s' ;;
          Some (N.lor (N.shiftl leftchar 6) this_ch :: out)
        end
      end
  end.

Definition b64decode (s : str) : option (list N) := a2b_base64 0 0 0 s.

(** *** [data_uri_pattern.finditer(s)]

    The pattern is [data:[^;]+;base64,([A-Za-z0-9+/=]+)].  Both repetitions
    are greedy, and what has to follow the first one is the very character
    it leaves out, so a match at a position takes the longest run each time
    and backtracking finds nothing else. *)
Definition is_b64_char (c : N) : bool :=
  ((65 <=? c) && (c <=? 90) || (97 <=? c) && (c <=? 122)
   || (48 <=? c) && (c <=? 57) || (c =? 43) || (c =? 47) || (c =? 61))%N.

Fixpoint take_while (p : N -> bool) (s : str) : str :=
  match s with
  | c :: s' => if p c then c :: take_while p s' else []
  | [] => []
  end.

(** The match that starts at the head of [s]: group 1 and the length of the
    whole match. *)
Definition match_data_uri (s : str) : option (str * nat) :=
  if startswith (lit "data:") s
  then
    let mime := take_while (fun c => negb (c =? 59)%N) (skipn 5 s) in
    match mime with
    | [] => None
    | _ =>
      let s2 := skipn (5 + length mime) s in
      if startswith (lit ";base64,") s2
      then
        let b64 := take_while is_b64_char (skipn 8 s2) in
        match b64 with
        | [] => None
        | _ => Some (b64, 5 + length mime + 8 + length b64)
        end
      else None
    end
  else None.

(** Group 1 of the matches, left to right; [skip] counts the characters of
    the last match still to be passed over. *)
Fixpoint finditer_go (skip : nat) (s : str) : list str :=
  match s with
  | [] => []
  | _ :: s' =>
    match skip with
    | S k => finditer_go k s'
    | O =>
      match match_data_uri s with
      | Some (b64, n) => b64 :: finditer_go (n - 1) s'
      | None => finditer_go 0 s'
      end
    end
  end.

Definition finditer (s : str) : list str := finditer_go 0 s.

(** What one match adds to [data_uri_bytes]: the length of the decoded
    payload, or [int(len(b64) * 0.75)] when the decoder raises.  The factor
    is the fraction 3/4, which binary floating point holds exactly, and
    [int] rounds towards zero. *)
Definition payload_bytes (b64 : str) : Z :=
  match b64decode b64 with
  | Some bytes => len bytes
  | None => Qfloor (Qmult (inject_Z (len b64)) (Qmake 3 4))
  end.

(** [count_data_uri(s)], on the counter it updates. *)
Definition count_data_uri (s : str) (data_uri_bytes : Z) : Z :=
  match s with
  | [] => data_uri_bytes
  | _ => fold_left (fun acc b64 => (acc + payload_bytes b64)%Z) (finditer s)
           data_uri_bytes
  end.

(** The two counters of the data URI block. *)
Record counters : Type := Counters { c_data_uri_bytes : Z; c_images_count : Z }.

(** Body of the loop over [find_all(['img', 'source'])]. *)
Definition count_image (c : counters) (img : node) : counters :=
  match get_or img (lit "src") (lit "srcset") with
  | Some (x :: src) =>
    if startswith (lit "data:") (x :: src)
    then Counters (count_data_uri (x :: src) (c_data_uri_bytes c))
                  (c_images_count c + 1)
    else c
  | _ => c
  end.

(** Body of the loop over [find_all(True)] that scans the styles. *)
Definition count_style (c : counters) (el : node) : counters :=
  match get el (lit "style") with
  | Some (x :: style_attr) =>
    Counters (count_data_uri (x :: style_attr) (c_data_uri_bytes c))
             (c_images_count c)
  | _ => c
  end.

Definition count_data_uris (t : list node) : counters :=
  fold_left count_style (select is_tag t)
    (fold_left count_image (select (named [lit "img"; lit "source"]) t)
       (Counters 0 0)).

(** The text of a script or style element: [s.get_text() or '']. *)
Definition element_text (n : node) : str := get_text [] false (contents n).

(** Body of the loop over the scripts. *)
Definition count_script (scripts_bytes : Z) (s : node) : Z :=
  let b := (scripts_bytes + _len_bytes (element_text s))%Z in
  match get s (lit "src") with
  | Some src => (b + _len_bytes src)%Z
  | None => b
  end.

Definition sum_Z (l : list Z) : Z := fold_right Z.add 0%Z l.

Definition len_list {A : Type} (l : list A) : Z := Z.of_nat (length l).

Section Analyzer.

Variable minify : str -> str.
Variable BeautifulSoup : str -> dom.

Definition analyze_html (html : str) : SizeReport :=
  let soup := tree (BeautifulSoup html) in
  let soup := fold_left (fun t i => extract i t)
                (find_all (named [lit "script"; lit "style"]) soup) soup in
  let text_chars := len (get_text (lit " ") true soup) in
  let soup_full := tree (BeautifulSoup html) in
  let comments := select is_comment soup_full in
  let comments_bytes := sum_Z (map (fun c => _len_bytes (string_of c)) comments) in
  let scripts := select (named [lit "script"]) soup_full in
  let scripts_bytes := fold_left count_script scripts 0%Z in
  let styles := select (named [lit "style"]) soup_full in
  let styles_bytes := sum_Z (map (fun st => _len_bytes (element_text st)) styles) in
  let inline_style_attr_bytes :=
    fold_left (fun acc el =>
                 match get el (lit "style") with
                 | Some v => (acc + _len_bytes v)%Z
                 | None => acc
                 end)
      (select is_tag soup_full) 0%Z in
  let c := count_data_uris soup_full in
  let minified_html := minify html in
  {| file_size := _len_bytes html;
     minified_size := _len_bytes minified_html;
     text_chars := text_chars;
     comments_bytes := comments_bytes;
     scripts_bytes := scripts_bytes;
     styles_bytes := styles_bytes;
     inline_style_attr_bytes := inline_style_attr_bytes;
     data_uri_bytes := c_data_uri_bytes c;
     images_count := c_images_count c;
     scripts_count := len_list scripts;
     styles_count := len_list styles |}.

End Analyzer.

(** ** The data URI counters, as sums *)

(** The bytes that the matches in one attribute value stand for. *)
Definition uri_bytes (s : str) : Z := sum_Z (map payload_bytes (finditer s)).

(** [img.get('src') or img.get('srcset')], with the empty string for
    [None]. *)
Definition resolved_src (img : node) : str :=
  match get_or img (lit "src") (lit "srcset") with
  | Some v => v
  | None => []
  end.

Definition is_data_image (img : node) : bool :=
  startswith (lit "data:") (resolved_src img).

Definition images (t : list node) : list node :=
  select (named [lit "img"; lit "source"]) t.

Definition style_uri_bytes (t : list node) : Z :=
  sum_Z (map (fun el => uri_bytes (get_or_empty el (lit "style")))
           (select is_tag t)).

(** The sum the specification words: every data URI found in the [src] or
    [srcset] of an [img] or [source], and in the [style] of any element. *)
Definition claimed_data_uri_bytes (t : list node) : Z :=
  (sum_Z (map (fun img => uri_bytes (resolved_src img)) (images t))
   + style_uri_bytes t)%Z.

(** The sum the analyzer computes: of the images, only those whose source
    starts with [data:] are scanned. *)
Definition scanned_data_uri_bytes (t : list node) : Z :=
  (sum_Z (map (fun img => uri_bytes (resolved_src img))
            (filter is_data_image (images t)))
   + style_uri_bytes t)%Z.

Definition data_images_count (t : list node) : Z :=
  len_list (filter is_data_image (images t)).

(** *** Sample documents of the analyzer *)

Definition dq : str := [34%N].

(** The example of the specification and its tree. *)
Definition example_html : str :=
  lit "<html><body><!--c--><p style=" ++ dq ++ lit "color:red" ++ dq
  ++ lit ">Hi</p></body></html>".

Definition example_dom : dom :=
  Dom [Tag 0 (lit "html") []
         [Tag 1 (lit "body") []
            [Comment 2 (lit "c");
             Tag 3 (lit "p") [(lit "style", lit "color:red")]
               [NavigableString 4 (lit "Hi")]]]]
      5.

(** An image whose address holds a data URI without starting with one. *)
Definition linked_image_html : str :=
  lit "<img src='x.png#data:image/png;base64,QUJD'>".

Definition linked_image_dom : dom :=
  Dom [Tag 0 (lit "html") []
         [Tag 1 (lit "body") []
            [Tag 2 (lit "img")
               [(lit "src", lit "x.png#data:image/png;base64,QUJD")] []]]]
      3.

(** ** Files and the command line *)

(** *** The text layer of [open]

    The bytes of a file are numbers below 256.  [utf8_decode] is the UTF-8
    decoder of Python: a well-formed sequence gives its code point, and an
    ill-formed one is an error that covers the bytes read up to the
    offending one, or all that is left when the input ends inside a
    sequence.  With [strict] the error is raised ([errors='strict']);
    without, the bytes it covers are dropped ([errors='ignore']). *)
Definition is_continuation (b : N) : bool := ((128 <=? b) && (b <=? 191))%N.

(** The second byte the lead byte of a three-byte or four-byte sequence
    admits: no overlong form, no surrogate, nothing above U+10FFFF. *)
Definition second_of_three (b0 b1 : N) : bool :=
  (if b0 =? 224 then (160 <=? b1) && (b1 <=? 191)
   else if b0 =? 237 then (128 <=? b1) && (b1 <=? 159)
   else is_continuation b1)%N.

Definition second_of_four (b0 b1 : N) : bool :=
  (if b0 =? 240 then (144 <=? b1) && (b1 <=? 191)
   else if b0 =? 244 then (128 <=? b1) && (b1 <=? 143)
   else is_continuation b1)%N.

Definition on_error (strict : bool) (rest : option str) : option str :=
  if strict then None else rest.

Definition emit (c : N) (rest : option str) : option str :=
  match rest with
  | Some s => Some (c :: s)
  | None => None
  end.

Fixpoint utf8_decode (strict : bool) (bs : list N) : option str :=
  match bs with
  | [] => Some []
  | b0 :: r0 =>
    if (b0 <? 128)%N then emit b0 (utf8_decode strict r0)
    else if (b0 <? 194)%N then on_error strict (utf8_decode strict r0)
    else if (b0 <? 224)%N then
      match r0 with
      | [] => on_error strict (Some [])
      | b1 :: r1 =>
        if is_continuation b1
        then emit ((b0 - 192) * 64 + (b1 - 128))%N (utf8_decode strict r1)
        else on_error strict (utf8_decode strict r0)
      end
    else if (b0 <? 240)%N then
      match r0 with
      | [] => on_error strict (Some [])
      | b1 :: r1 =>
        if second_of_three b0 b1
        then
          match r1 with
          | [] => on_error strict (Some [])
          | b2 :: r2 =>
            if is_continuation b2
            then emit ((b0 - 224) * 4096 + (b1 - 128) * 64 + (b2 - 128))%N
                   (utf8_decode strict r2)
            else on_error strict (utf8_decode strict r1)
          end
        else on_error strict (utf8_decode strict r0)
      end
    else if (b0 <? 245)%N then
      match r0 with
      | [] => on_error strict (Some [])
      | b1 :: r1 =>
        if second_of_four b0 b1
        then
          match r1 with
          | [] => on_error strict (Some [])
          | b2 :: r2 =>
            if is_continuation b2
            then
              match r2 with
              | [] => on_error strict (Some [])
              | b3 :: r3 =>
                if is_continuation b3
                then emit ((b0 - 240) * 262144 + (b1 - 128) * 4096
                           + (b2 - 128) * 64 + (b3 - 128))%N
                       (utf8_decode strict r3)
                else on_error strict (utf8_decode strict r2)
              end
            else on_error strict (utf8_decode strict r1)
          end
        else on_error strict (utf8_decode strict r0)
      end
    else on_error strict (utf8_decode strict r0)
  end.

(** [bytes.decode('utf-8', errors='ignore')] *)
Definition decode_ignore (bs : list N) : str :=
  match utf8_decode false bs with
  | Some s => s
  | None => []
  end.

(** The newline translation of a file opened for reading in text mode:
    [\r\n] and a lone [\r] become [\n]. *)
Fixpoint universal_newlines (s : str) : str :=
  match s with
  | [] => []
  | c :: s' =>
    if (c =? 13)%N
    then 10%N :: match s' with
                 | [] => []
                 | c' :: s'' =>
                   if (c' =? 10)%N then universal_newlines s''
                   else universal_newlines s'
                 end
    else c :: universal_newlines s'
  end.

(** [open(path, 'r', encoding='utf-8', errors='ignore').read()] *)
Definition read_text (bs : list N) : str :=
  universal_newlines (decode_ignore bs).

(** [s.encode('utf-8')], which raises on a surrogate.  A file opened for
    writing in text mode writes these bytes; the line separator is taken to
    be [\n], as on POSIX. *)
Definition encode_char (c : N) : option (list N) :=
  if (c <? 128)%N then Some [c]
  else if (c <? 2048)%N then Some [192 + c / 64; 128 + c mod 64]%N
  else if (55296 <=? c)%N && (c <=? 57343)%N then None
  else if (c <? 65536)%N
       then Some [224 + c / 4096; 128 + (c / 64) mod 64; 128 + c mod 64]%N
  else Some [240 + c / 262144; 128 + (c / 4096) mod 64;
             128 + (c / 64) mod 64; 128 + c mod 64]%N.

Fixpoint utf8_encode (s : str) : option (list N) :=
  match s with
  | [] => Some []
  | c :: s' =>
    b <- encode_char c ;;
    rest <- utf8_encode s' ;;
    Some (b ++ rest)
  end.

(** *** The file system *)

Definition filesystem : Type := list (str * list N).

Fixpoint read_file (fs : filesystem) (path : str) : option (list N) :=
  match fs with
  | [] => None
  | (p, bs) :: fs' => if eqb p path then Some bs else read_file fs' path
  end.

Definition write_file (fs : filesystem) (path : str) (bs : list N)
  : filesystem :=
  (path, bs) :: fs.

(** [os.path.splitext(path)[0]]: the path without the extension of its
    last component, where dots that lead the component do not start an
    extension. *)
Definition splitext_base (path : str) : str :=
  let name := take_while (fun c => negb (c =? 47)%N) (rev path) in
  let ext := take_while (fun c => negb (c =? 46)%N) name in
  if Nat.ltb (length ext) (length name)
     && existsb (fun c => negb (c =? 46)%N) (skipn (S (length ext)) name)
  then firstn (length path - S (length ext)) path
  else path.

(** [_default_output_path(path, suffix)] *)
Definition _default_output_path (path suffix : str) : str :=
  splitext_base path ++ suffix.

(** *** Numbers

    [pct] is the [int] 0 for an empty file and a [float] otherwise.  A
    [float] is an IEEE 754 double: 53 bits of precision, exponents up to
    1024. *)
Inductive number : Type :=
| Int (n : Z)
| Float (x : SpecFloat.spec_float).

(** An [int] as a binary number, not yet rounded. *)
Definition int_as_binary (n : Z) : SpecFloat.spec_float :=
  match n with
  | Z0 => SpecFloat.S754_zero false
  | Zpos p => SpecFloat.S754_finite false p 0
  | Zneg p => SpecFloat.S754_finite true p 0
  end.

(** [a / b] on two [int]s: the quotient rounded once, to the nearest
    double.  [None] is the [ZeroDivisionError] of a zero divisor and the
    [OverflowError] of a quotient too large for a double. *)
Definition truediv (a b : Z) : option SpecFloat.spec_float :=
  if (b =? 0)%Z then None
  else match SpecFloat.SFdiv 53 1024 (int_as_binary a) (int_as_binary b) with
       | SpecFloat.S754_infinity _ => None
       | q => Some q
       end.

(** [x * 100] on a [float]. *)
Definition times_100 (x : SpecFloat.spec_float) : SpecFloat.spec_float :=
  SpecFloat.SFmul 53 1024 x (SpecFloat.binary_normalize 53 1024 100 0 false).

Section CommandLine.

Variable minify : str -> str.
Variable BeautifulSoup : str -> dom.
Variable to_str : list node -> str.

(** [process_file]: the report, the input path, the output path if one was
    written, and the file system it leaves. *)
Definition process_file (fs : filesystem) (path mode : str)
  (output : option str) (keep_images flatten_inputs : bool)
  : option (SizeReport * str * option str * filesystem) :=
  bs <- read_file fs path ;;
  let html := read_text bs in
  let report := analyze_html minify BeautifulSoup html in
  if eqb mode (lit "analyze") then Some (report, path, None, fs)
  else
    out_html <-
      (if eqb mode (lit "minify") then Some (minify_only minify html)
       else if eqb mode (lit "aggressive")
            then strip_nontext minify BeautifulSoup to_str html keep_images
                   flatten_inputs
            else None) ;;
    let out_path :=
      match output with
      | Some (c :: o) => c :: o
      | _ => _default_output_path path (lit "." ++ mode ++ lit ".html")
      end in
    out_bytes <- utf8_encode out_html ;;
    Some (report, path, Some out_path, write_file fs out_path out_bytes).

(** The numbers of the [=== Output ===] block. *)
Record output_block : Type := {
  wrote : str;
  new_size : Z;
  savings : Z;
  pct : number
}.

(** [main], from the parsed arguments on: the report, and the output block
    when a file was written.  [None] is an exit with an error. *)
Definition main (fs : filesystem) (input mode : str) (output : option str)
  (keep_images flatten_inputs : bool)
  : option (SizeReport * option output_block) :=
  _ <- read_file fs input ;;
  r <- process_file fs input mode output keep_images flatten_inputs ;;
  let '(report, in_path, out_path, fs') := r in
  match out_path with
  | None => Some (report, None)
  | Some p =>
    written <- read_file fs' p ;;
    let orig := file_size report in
    let new_size := len written in
    let savings := (orig - new_size)%Z in
    pct <- (if (orig =? 0)%Z then Some (Int 0)
            else q <- truediv savings orig ;; Some (Float (times_100 q))) ;;
    Some (report, Some {| wrote := p; new_size := new_size;
                          savings := savings; pct := pct |})
  end.

End CommandLine.

(** What the lenient decoder returns for the bytes [bs]: it never fails,
    its text encodes to no more bytes than it read, to fewer when the
    strict decoder raises, and to as many when the strict decoder
    succeeds, in which case the two agree. *)
Definition decoded (bs : list N) (s : str) : Prop :=
  utf8_decode false bs = Some s
  /\ (_len_bytes s <= len bs)%Z
  /\ (utf8_decode true bs = None -> (_len_bytes s < len bs)%Z)
  /\ (forall s', utf8_decode true bs = Some s' ->
                 s' = s /\ _len_bytes s = len bs).

(** ** What the specification says of the stripped tree *)

Definition attrs (n : node) : list (str * str) :=
  match n with
  | Tag _ _ a _ => a
  | _ => []
  end.

(** The part of a node that its own contents do not change. *)
Definition shell (n : node) : node :=
  match n with
  | Tag u nm a _ => Tag u nm a []
  | _ => n
  end.

Definition uids (t : list node) : list nat := map uid (descendants t).

(** The tree with the object [i] replaced, where it stands, by [new]. *)
Fixpoint replace_node (i : nat) (new : node) (n : node) : node :=
  if Nat.eqb (uid n) i then new
  else match n with
       | Tag u nm a c => Tag u nm a (map (replace_node i new) c)
       | _ => n
       end.

(** How many objects of the tree have the identity [x]. *)
Definition cnt (x : nat) (t : list node) : nat :=
  count_occ Nat.eq_dec (uids t) x.

(** Every tag of [t'] is a tag of [t], with the same name and attributes. *)
Definition refines (t' t : list node) : Prop :=
  forall m, In m (descendants t') ->
  is_tag m = false \/ exists m0, In m0 (descendants t) /\ shell m = shell m0.

(** The void elements whose attributes the loops read. *)
Definition void (n : node) : bool := named [lit "link"; lit "input"] n.

(** The objects of [ids] are void elements of the tree. *)
Definition attached_voids (ids : list nat) (t : list node) : Prop :=
  forall i, In i ids ->
  exists n, In n (descendants t) /\ uid n = i /\ void n = true.

Definition STRIPPED_TAGS : list str :=
  [lit "script"; lit "style"; lit "iframe"; lit "embed"; lit "object"].

(** An attribute name that starts with [on], whatever the case. *)
Definition starts_with_on (k : str) : bool :=
  match k with
  | c1 :: c2 :: _ =>
    (N.eqb c1 111 || N.eqb c1 79) && (N.eqb c2 110 || N.eqb c2 78)
  | _ => false
  end.

Definition handler_free (a : list (str * str)) : bool :=
  forallb (fun kv => negb (starts_with_on (fst kv))) a.

Definition clean_node (n : node) : bool :=
  negb (named STRIPPED_TAGS n) && handler_free (attrs n).

Definition clean (t : list node) : Prop :=
  Forall (fun n => clean_node n = true) (descendants t).

(** What every parsed tree satisfies: the objects are distinct, the
    identities still to be given out are unused, and the void elements
    [link] and [input] have no contents. *)
Record well_formed (d : dom) : Prop := WellFormed {
  wf_nodup : NoDup (uids (tree d));
  wf_fresh : forall i, In i (uids (tree d)) -> i < next_uid d;
  wf_void : forall n, In n (descendants (tree d)) ->
            void n = true -> contents n = []
}.

(** [well_formed], computed. *)
Fixpoint nodupb (l : list nat) : bool :=
  match l with
  | [] => true
  | x :: l' => negb (existsb (Nat.eqb x) l') && nodupb l'
  end.

Definition well_formedb (d : dom) : bool :=
  nodupb (uids (tree d))
  && forallb (fun i => Nat.ltb i (next_uid d)) (uids (tree d))
  && forallb (fun n => negb (void n)
                       || match contents n with [] => true | _ => false end)
       (descendants (tree d)).

(** ** Sample documents *)

(** [<body onload='x()'><script>alert(1)</script><input type='checkbox'
    checked><p>Hi</p></body>] and the tree the parser builds of it. *)
Definition sample_html : str :=
  lit "<body onload='x()'><script>alert(1)</script><input type='checkbox' checked><p>Hi</p></body>".

Definition sample_dom : dom :=
  Dom [Tag 0 (lit "html") []
         [Tag 1 (lit "body") [(lit "onload", lit "x()")]
            [Tag 2 (lit "script") [] [NavigableString 3 (lit "alert(1)")];
             Tag 4 (lit "input")
               [(lit "type", lit "checkbox"); (lit "checked", lit "")] [];
             Tag 5 (lit "p") [] [NavigableString 6 (lit "Hi")]]]]
      7.

(** ** The marker spans, as the specification words them *)

(** A candidate: the class list holds the vendor prefix. *)
Definition is_candidate (span : node) : bool :=
  contains (lit "uu-coursekit")
    (lower (join (lit " ") (get_list span (lit "class")))).

(** The answer text of a marker: its first following sibling [div], when
    that has text left after trimming. *)
Definition text_div (i : nat) (t : list node) : option node :=
  match find_next_sibling i (lit "div") t with
  | Some div =>
    match get_text [] true (contents div) with
    | [] => None
    | _ => Some div
    end
  | None => None
  end.

(** The lists of siblings of a tree: the top level and the contents of
    every node. *)
Definition sibling_lists (t : list node) : list (list node) :=
  t :: map contents (descendants t).

(** A marker span that encloses a candidate span without a sibling [div]:
    [<span class='uu-coursekit-a'><span class='uu-coursekit-b'></span>
    </span><div>t</div>]. *)
Definition nested_markers_dom : dom :=
  Dom [Tag 0 (lit "html") []
         [Tag 1 (lit "body") []
            [Tag 2 (lit "span") [(lit "class", lit "uu-coursekit-a")]
               [Tag 3 (lit "span") [(lit "class", lit "uu-coursekit-b")] []];
             Tag 4 (lit "div") [] [NavigableString 5 (lit "t")]]]]
      6.

(** [n'] is what is left of the node [n]: the same object with its name
    and attributes, holding no object older than [k] that [n] did not
    hold. *)
Definition left_of (k : nat) (n' n : node) : Prop :=
  shell n' = shell n /\ forall x, x < k -> cnt x [n'] <= cnt x [n].

(** The node [n] is a span of the tree [t] with the vendor prefix in its
    class list, or lies in one. *)
Definition in_candidate_span (t : list node) (n : node) : Prop :=
  exists span,
    In span (descendants t) /\ named [lit "span"] span = true
    /\ is_candidate span = true /\ In n (descendants [span]).

(** What holds between the parsed tree [d0] and the tree [dk] that some
    iterations of the loop over the spans have made of it. *)
Record marker_loop_inv (d0 dk : dom) : Prop := MarkerLoopInv {
  inv_wf : well_formed dk;
  inv_next : next_uid d0 <= next_uid dk;
  inv_old : forall m, In m (descendants (tree dk)) -> uid m < next_uid d0 ->
            exists m0, In m0 (descendants (tree d0))
                       /\ left_of (next_uid d0) m m0;
  inv_kept : forall n, In n (descendants (tree d0)) ->
             (exists n', In n' (descendants (tree dk)) /\ shell n' = shell n)
             \/ in_candidate_span (tree d0) n
}.

(** ** What the strip keeps and what it adds *)

(** A name the handler loop removes: [a.lower().startswith('on')]. *)
Definition is_handler (k : str) : bool := startswith (lit "on") (lower k).

(** The attributes without the handlers, in their order. *)
Definition without_handlers (a : list (str * str)) : list (str * str) :=
  filter (fun kv => negb (is_handler (fst kv))) a.

(** The tree with the handlers taken off every tag. *)
Fixpoint strip_node (n : node) : node :=
  match n with
  | Tag u nm a c => Tag u nm (without_handlers a) (map strip_node c)
  | _ => n
  end.

(** The handlers taken off the tags whose identity satisfies [p]. *)
Fixpoint strip_where (p : nat -> bool) (n : node) : node :=
  match n with
  | Tag u nm a c =>
    Tag u nm (if p u then without_handlers a else a) (map (strip_where p) c)
  | _ => n
  end.

(** What the strip leaves of a node it keeps: a tag without its handlers
    and contents, a string node as it is. *)
Definition residue (n : node) : node :=
  match n with
  | Tag u nm a _ => Tag u nm (without_handlers a) []
  | _ => n
  end.

Definition MARKERS : list str :=
  [CHECKBOX_ON; CHECKBOX_OFF; RADIO_ON; RADIO_OFF].

(** A text node that holds one of the four marker texts. *)
Definition is_marker_node (n : node) : bool :=
  match n with
  | NavigableString _ s => existsb (eqb s) MARKERS
  | _ => false
  end.

(** Every node of [t'] is new, as [fresh] allows, or a node of [t] with,
    at most, other contents. *)
Definition keeps (fresh : node -> bool) (t' t : list node) : Prop :=
  forall m, In m (descendants t') ->
  fresh m = true \/ exists m0, In m0 (descendants t) /\ shell m = shell m0.

(** Every node of [t'] is new, as [fresh] allows, or what the strip leaves
    of a node of [t]: a string node of [t] itself, or a tag of [t] with its
    name and exactly its attributes that are no handlers. *)
Definition derives (fresh : node -> bool) (t' t : list node) : Prop :=
  forall m, In m (descendants t') ->
  fresh m = true \/ exists m0, In m0 (descendants t) /\ shell m = residue m0.

Definition nothing_new (n : node) : bool := false.

(** The condition of the link loop: the [rel] of the link names a
    stylesheet, a preload or a preconnect. *)
Definition has_stripped_rel (link : node) : bool :=
  let rel := lower (join (lit " ") (get_list link (lit "rel"))) in
  contains (lit "stylesheet") rel || contains (lit "preload") rel
  || contains (lit "preconnect") rel.

Definition is_stripped_link (n : node) : bool :=
  named [lit "link"] n && has_stripped_rel n.

(** A page with a stylesheet link, a plain link, a handler, a comment and
    an image. *)
Definition styled_dom : dom :=
  Dom [Doctype 0 (lit "html");
       Tag 1 (lit "html") []
         [Tag 2 (lit "head") []
            [Tag 3 (lit "link")
               [(lit "rel", lit "StyleSheet"); (lit "href", lit "a.css")] [];
             Tag 4 (lit "link")
               [(lit "rel", lit "icon"); (lit "href", lit "a.ico")] []];
          Tag 5 (lit "body") [(lit "onLoad", lit "x()"); (lit "id", lit "b")]
            [Comment 6 (lit "note");
             Tag 7 (lit "img") [(lit "src", lit "a.png")] [];
             Tag 8 (lit "input") [(lit "type", lit "radio")] [];
             NavigableString 9 (lit "Hi")]]]
      10.

(** ** The strip as one pass *)

(** The nodes the strip removes with all they hold, when the inputs are not
    flattened. *)
Definition removed (keep_images : bool) (n : node) : bool :=
  named [lit "script"; lit "style"] n
  || is_stripped_link n
  || named [lit "iframe"; lit "embed"; lit "object"] n
  || (negb keep_images && named [lit "img"] n)
  || is_comment n.

(** The tree without the nodes that satisfy [P], the handlers taken off the
    tags that stay. *)
Fixpoint strip_by (P : node -> bool) (n : node) : list node :=
  if P n then []
  else [match n with
        | Tag u nm a c => Tag u nm (without_handlers a) (flat_map (strip_by P) c)
        | _ => n
        end].

Definition strip_spec (keep_images : bool) (t : list node) : list node :=
  flat_map (strip_by (removed keep_images)) t.

(** The tree without the nodes that satisfy [P]. *)
Fixpoint prune_by (P : node -> bool) (n : node) : list node :=
  if P n then []
  else [match n with
        | Tag u nm a c => Tag u nm a (flat_map (prune_by P) c)
        | _ => n
        end].

(** The tree without the objects whose identity satisfies [p]. *)
Fixpoint prune_set (p : nat -> bool) (n : node) : list node :=
  if p (uid n) then []
  else [match n with
        | Tag u nm a c => Tag u nm a (flat_map (prune_set p) c)
        | _ => n
        end].

(** A property of a tag that its contents do not change. *)
Definition shallow (P : node -> bool) : Prop :=
  forall u nm a c c', P (Tag u nm a c) = P (Tag u nm a c').

(** A property of a tag that neither its contents nor its handlers
    change. *)
Definition handler_blind (P : node -> bool) : Prop :=
  forall u nm a c c', P (Tag u nm (without_handlers a) c) = P (Tag u nm a c').

(** The links of the list that the link loop removes from the tree [t]. *)
Definition stripped_ids (t : list node) (ids : list nat) : list nat :=
  filter (fun i => match find_node i t with
                   | Some link => has_stripped_rel link
                   | None => false
                   end) ids.

(** The bytes the base64 decoder has written when it stands at a given
    place in a group of four. *)
Definition written (quad_pos : nat) : Z :=
  match quad_pos with
  | 0 | 1 => 0
  | 2 => 1
  | _ => 2
  end.

(** The number of dots of a string. *)
Definition dots (s : str) : nat := length (filter (fun c => (c =? 46)%N) s).

(** An input that the flattening replaces. *)
Definition is_choice_input (n : node) : bool :=
  named [lit "input"] n && is_choice (input_type n).

(** ** The console report *)

(** The decimal digits of a number, most significant first. *)
Fixpoint uint_chars (d : Decimal.uint) : str :=
  match d with
  | Decimal.Nil => []
  | Decimal.D0 r => 48%N :: uint_chars r
  | Decimal.D1 r => 49%N :: uint_chars r
  | Decimal.D2 r => 50%N :: uint_chars r
  | Decimal.D3 r => 51%N :: uint_chars r
  | Decimal.D4 r => 52%N :: uint_chars r
  | Decimal.D5 r => 53%N :: uint_chars r
  | Decimal.D6 r => 54%N :: uint_chars r
  | Decimal.D7 r => 55%N :: uint_chars r
  | Decimal.D8 r => 56%N :: uint_chars r
  | Decimal.D9 r => 57%N :: uint_chars r
  end.

(** [f"{n}"] for an [int]. *)
Definition format_int (n : Z) : str :=
  match Z.to_int n with
  | Decimal.Pos d => uint_chars d
  | Decimal.Neg d => 45%N :: uint_chars d
  end.

(** A comma after every third digit that has a digit after it; the digits
    are given least significant first. *)
Fixpoint commas (l : str) : str :=
  match l with
  | a :: b :: c :: rest =>
    match rest with
    | [] => [a; b; c]
    | _ :: _ => a :: b :: c :: 44%N :: commas rest
    end
  | _ => l
  end.

Definition group_thousands (digits : str) : str := rev (commas (rev digits)).

(** [f"{n:,}"] for an [int]: the sign is not grouped. *)
Definition format_thousands (n : Z) : str :=
  match Z.to_int n with
  | Decimal.Pos d => group_thousands (uint_chars d)
  | Decimal.Neg d => 45%N :: group_thousands (uint_chars d)
  end.

(** The [lines] of [SizeReport.to_pretty]. *)
Definition to_pretty_lines (self : SizeReport) : list str :=
  [ lit "File size: " ++ format_thousands (file_size self) ++ lit " B";
    lit "Minified (no removals) size: "
      ++ format_thousands (minified_size self) ++ lit " B";
    lit "Visible text characters (approx): "
      ++ format_thousands (text_chars self);
    lit "Comments total bytes: " ++ format_thousands (comments_bytes self);
    lit "<script> content bytes: " ++ format_thousands (scripts_bytes self)
      ++ lit " (count: " ++ format_int (scripts_count self) ++ lit ")";
    lit "<style> content bytes: " ++ format_thousands (styles_bytes self)
      ++ lit " (count: " ++ format_int (styles_count self) ++ lit ")";
    lit "Inline style attribute bytes: "
      ++ format_thousands (inline_style_attr_bytes self);
    lit "Inline data: URI bytes (img/src, css): "
      ++ format_thousands (data_uri_bytes self)
      ++ lit " (images: " ++ format_int (images_count self) ++ lit ")" ].

(** [SizeReport.to_pretty]: the lines, joined by line feeds. *)
Definition to_pretty (self : SizeReport) : str :=
  join [10%N] (to_pretty_lines self).

(** [s.split(sep)] for a separator of one character. *)
Fixpoint split_on (sep : N) (s : str) : list str :=
  match s with
  | [] => [[]]
  | c :: r =>
    if (c =? sep)%N then [] :: split_on sep r
    else match split_on sep r with
         | [] => [[c]]
         | w :: ws => (c :: w) :: ws
         end
  end.

(** A string without a line feed. *)
Definition one_line (s : str) : bool := forallb (fun c => negb (c =? 10)%N) s.

(** The sign that [format] prints. *)
Definition sign (n : Z) : str := if (n <? 0)%Z then lit "-" else [].

(** The reader of decimal digits, the inverse of [uint_chars]. *)
Fixpoint chars_uint (s : str) : option Decimal.uint :=
  match s with
  | [] => Some Decimal.Nil
  | c :: r =>
    d <- chars_uint r ;;
    if (c =? 48)%N then Some (Decimal.D0 d)
    else if (c =? 49)%N then Some (Decimal.D1 d)
    else if (c =? 50)%N then Some (Decimal.D2 d)
    else if (c =? 51)%N then Some (Decimal.D3 d)
    else if (c =? 52)%N then Some (Decimal.D4 d)
    else if (c =? 53)%N then Some (Decimal.D5 d)
    else if (c =? 54)%N then Some (Decimal.D6 d)
    else if (c =? 55)%N then Some (Decimal.D7 d)
    else if (c =? 56)%N then Some (Decimal.D8 d)
    else if (c =? 57)%N then Some (Decimal.D9 d)
    else None
  end.

(** [int(s)] for a string of an optional minus sign and decimal digits;
    [None] is the [ValueError]. *)
Definition read_int (s : str) : option Z :=
  match s with
  | [] => None
  | c :: r =>
    if (c =? 45)%N then
      match r with
      | [] => None
      | _ :: _ => d <- chars_uint r ;; Some (Z.of_int (Decimal.Neg d))
      end
    else d <- chars_uint s ;; Some (Z.of_int (Decimal.Pos d))
  end.

Definition is_digit (c : N) : bool := ((48 <=? c) && (c <=? 57))%N.

(** * Properties *)

(** ** Strings *)

Lemma eqb_refl (a : str) : eqb a a = true.
Proof.
  induction a as [|x a IH]; simpl; [reflexivity|].
  now rewrite N.eqb_refl, IH.
Qed.

Lemma eqb_eq (a b : str) : eqb a b = true <-> a = b.
Proof.
  split.
  - revert b; induction a as [|x a IH]; destruct b as [|y b]; simpl;
      try discriminate; [reflexivity|].
    intros H. apply andb_true_iff in H as [H1 H2].
    apply N.eqb_eq in H1. now rewrite H1, (IH b H2).
  - intros ->. apply eqb_refl.
Qed.

Lemma starts_with_on_lower (k : str) :
  starts_with_on k = true -> startswith (lit "on") (lower k) = true.
Proof.
  destruct k as [|c1 [|c2 k]]; simpl; try discriminate.
  intros H. apply andb_true_iff in H as [H1 H2].
  apply orb_true_iff in H1, H2.
  destruct H1 as [H1|H1], H2 as [H2|H2];
    apply N.eqb_eq in H1, H2; subst; reflexivity.
Qed.

(** ** The tree and its three mutations *)

Lemma descendants_app (l1 l2 : list node) :
  descendants (l1 ++ l2) = descendants l1 ++ descendants l2.
Proof. apply flat_map_app. Qed.

Lemma descendants_tag u nm a c l :
  descendants (Tag u nm a c :: l)
  = Tag u nm a c :: descendants c ++ descendants l.
Proof. reflexivity. Qed.

Lemma uids_tag u nm a c l :
  uids (Tag u nm a c :: l) = u :: uids c ++ uids l.
Proof. unfold uids. rewrite descendants_tag. simpl. now rewrite map_app. Qed.

Lemma uids_app (l1 l2 : list node) : uids (l1 ++ l2) = uids l1 ++ uids l2.
Proof. unfold uids. now rewrite descendants_app, map_app. Qed.

Lemma decompose_tag i u nm a c l :
  decompose i (Tag u nm a c :: l)
  = (if Nat.eqb u i then [] else [Tag u nm a (decompose i c)])
    ++ decompose i l.
Proof. reflexivity. Qed.

Lemma insert_before_tag i new u nm a c l :
  insert_before i new (Tag u nm a c :: l)
  = (if Nat.eqb u i then [new] else [])
    ++ Tag u nm a (insert_before i new c) :: insert_before i new l.
Proof.
  unfold insert_before. simpl. now rewrite <- app_assoc.
Qed.

Lemma descendants_leaf n l :
  is_tag n = false -> descendants (n :: l) = n :: descendants l.
Proof. destruct n; [discriminate|reflexivity..]. Qed.

Lemma uids_leaf n l : is_tag n = false -> uids (n :: l) = uid n :: uids l.
Proof. intros H. unfold uids. now rewrite descendants_leaf. Qed.

Lemma contents_leaf n : is_tag n = false -> contents n = [].
Proof. destruct n; [discriminate|reflexivity..]. Qed.

Lemma decompose_leaf i n l :
  is_tag n = false ->
  decompose i (n :: l) = (if Nat.eqb (uid n) i then [] else [n]) ++ decompose i l.
Proof. destruct n; [discriminate|reflexivity..]. Qed.

Lemma insert_before_leaf i new n l :
  is_tag n = false ->
  insert_before i new (n :: l)
  = (if Nat.eqb (uid n) i then [new] else []) ++ n :: insert_before i new l.
Proof.
  destruct n; [discriminate|..]; intros _; unfold insert_before; simpl;
    now rewrite <- app_assoc.
Qed.

Ltac forest_induction t :=
  induction t as [|u nm a c l IHc IHl|n l Hn IHl] using forest_ind.

Ltac case_uid u i :=
  let E := fresh "E" in
  destruct (Nat.eqb u i) eqn:E;
  [apply Nat.eqb_eq in E | apply Nat.eqb_neq in E].

(** Every node of the pruned tree is a node of the tree, pruned. *)
Lemma in_decompose (i : nat) (t : list node) (m : node) :
  In m (descendants (decompose i t)) ->
  uid m <> i /\
  exists m0, In m0 (descendants t) /\ shell m = shell m0
             /\ contents m = decompose i (contents m0).
Proof.
  forest_induction t; intros H.
  - contradiction.
  - rewrite decompose_tag in H. rewrite descendants_tag.
    case_uid u i; cbn [app] in H.
    + destruct (IHl H) as [Hu (m0 & H0 & Hs)]. split; [exact Hu|].
      exists m0. split; [|exact Hs]. right. apply in_or_app. now right.
    + rewrite descendants_tag in H. destruct H as [H|H].
      * subst m. split; [exact E|]. exists (Tag u nm a c). simpl. auto.
      * apply in_app_or in H as [H|H].
        -- destruct (IHc H) as [Hu (m0 & H0 & Hs)]. split; [exact Hu|].
           exists m0. split; [|exact Hs]. right. apply in_or_app. now left.
        -- destruct (IHl H) as [Hu (m0 & H0 & Hs)]. split; [exact Hu|].
           exists m0. split; [|exact Hs]. right. apply in_or_app. now right.
  - rewrite decompose_leaf in H by exact Hn. rewrite descendants_leaf by exact Hn.
    case_uid (uid n) i; cbn [app] in H.
    + destruct (IHl H) as [Hu (m0 & H0 & Hs)]. split; [exact Hu|].
      exists m0. split; [now right|exact Hs].
    + rewrite descendants_leaf in H by exact Hn. destruct H as [H|H].
      * subst m. split; [exact E|]. exists n.
        rewrite (contents_leaf _ Hn). simpl; auto.
      * destruct (IHl H) as [Hu (m0 & H0 & Hs)]. split; [exact Hu|].
        exists m0. split; [now right|exact Hs].
Qed.

(** Every node of the tree after an insertion is the new node or a node of
    the tree, with the insertion done below it. *)
Lemma in_insert_before (i : nat) (new : node) (t : list node) (m : node) :
  is_tag new = false ->
  In m (descendants (insert_before i new t)) ->
  m = new \/
  exists m0, In m0 (descendants t) /\ shell m = shell m0
             /\ contents m = insert_before i new (contents m0).
Proof.
  intros Hnew. forest_induction t; intros H.
  - contradiction.
  - rewrite insert_before_tag, descendants_app in H.
    rewrite descendants_tag in *.
    apply in_app_or in H as [H|H].
    + left. destruct (Nat.eqb u i); [|contradiction].
      rewrite descendants_leaf in H by exact Hnew.
      destruct H as [H|[]]. now symmetry.
    + destruct H as [H|H].
      * right. exists (Tag u nm a c). subst m. simpl. auto.
      * apply in_app_or in H as [H|H].
        -- destruct (IHc H) as [Hm|(m0 & H0 & Hs)]; [now left|right].
           exists m0. split; [|exact Hs]. right. apply in_or_app. now left.
        -- destruct (IHl H) as [Hm|(m0 & H0 & Hs)]; [now left|right].
           exists m0. split; [|exact Hs]. right. apply in_or_app. now right.
  - rewrite insert_before_leaf, descendants_app in H by exact Hn.
    rewrite descendants_leaf in * by exact Hn.
    apply in_app_or in H as [H|H].
    + left. destruct (Nat.eqb (uid n) i); [|contradiction].
      rewrite descendants_leaf in H by exact Hnew.
      destruct H as [H|[]]. now symmetry.
    + destruct H as [H|H].
      * right. exists n. subst m. rewrite (contents_leaf _ Hn). simpl. auto.
      * destruct (IHl H) as [Hm|(m0 & H0 & Hs)]; [now left|right].
        exists m0. split; [now right|exact Hs].
Qed.

Lemma descendants_set_attrs i f (t : list node) :
  descendants (map (set_attrs i f) t) = map (set_attrs i f) (descendants t).
Proof.
  forest_induction t.
  - reflexivity.
  - cbn [map set_attrs]. fold (map (set_attrs i f)).
    rewrite !descendants_tag. cbn [map set_attrs].
    now rewrite !map_app, IHc, IHl.
  - cbn [map]. rewrite !descendants_leaf; [|exact Hn|now destruct n].
    cbn [map]. now rewrite IHl.
Qed.

Lemma uid_set_attrs i f n : uid (set_attrs i f n) = uid n.
Proof. now destruct n. Qed.

Lemma uids_set_attrs i f t : uids (map (set_attrs i f) t) = uids t.
Proof.
  unfold uids. rewrite descendants_set_attrs, map_map.
  apply map_ext. intros n. apply uid_set_attrs.
Qed.

(** *** Counting the objects with a given identity *)

Lemma cnt_nil x : cnt x [] = 0.
Proof. reflexivity. Qed.

Lemma cnt_app x l1 l2 : cnt x (l1 ++ l2) = cnt x l1 + cnt x l2.
Proof. unfold cnt. now rewrite uids_app, count_occ_app. Qed.

Lemma cnt_tag x u nm a c l :
  cnt x (Tag u nm a c :: l)
  = (if Nat.eqb u x then 1 else 0) + cnt x c + cnt x l.
Proof.
  unfold cnt. rewrite uids_tag. cbn [count_occ].
  rewrite count_occ_app.
  destruct (Nat.eq_dec u x) as [->|Hne].
  - now rewrite Nat.eqb_refl.
  - apply Nat.eqb_neq in Hne. now rewrite Hne.
Qed.

Lemma cnt_leaf x n l :
  is_tag n = false ->
  cnt x (n :: l) = (if Nat.eqb (uid n) x then 1 else 0) + cnt x l.
Proof.
  intros Hn. unfold cnt. rewrite uids_leaf by exact Hn. cbn [count_occ].
  destruct (Nat.eq_dec (uid n) x) as [->|Hne].
  - now rewrite Nat.eqb_refl.
  - apply Nat.eqb_neq in Hne. now rewrite Hne.
Qed.

Lemma cnt_pos x t : 0 < cnt x t <-> In x (uids t).
Proof. unfold cnt. symmetry. apply count_occ_In. Qed.

Lemma cnt_zero x t : cnt x t = 0 <-> ~ In x (uids t).
Proof. unfold cnt. symmetry. apply count_occ_not_In. Qed.

Lemma nodup_cnt t : NoDup (uids t) <-> forall x, cnt x t <= 1.
Proof. apply NoDup_count_occ. Qed.

Lemma cnt_decompose_le x i t : cnt x (decompose i t) <= cnt x t.
Proof.
  forest_induction t.
  - apply Nat.le_refl.
  - rewrite decompose_tag, cnt_app, cnt_tag.
    destruct (Nat.eqb u i).
    + rewrite cnt_nil. lia.
    + rewrite cnt_tag, cnt_nil. lia.
  - rewrite decompose_leaf, cnt_app, cnt_leaf by exact Hn.
    destruct (Nat.eqb (uid n) i).
    + rewrite cnt_nil. lia.
    + rewrite cnt_leaf, cnt_nil by exact Hn. lia.
Qed.

Lemma cnt_decompose_self i t : cnt i (decompose i t) = 0.
Proof.
  apply cnt_zero. intros H. unfold uids in H.
  apply in_map_iff in H as (m & Hm & H).
  apply in_decompose in H as [H _]. contradiction.
Qed.

(** When the object is a leaf, only the object itself leaves the tree. *)
Lemma cnt_decompose_leaf x i t :
  (forall m, In m (descendants t) -> uid m = i -> contents m = []) ->
  x <> i -> cnt x (decompose i t) = cnt x t.
Proof.
  intros Hleaf Hx. revert Hleaf. forest_induction t; intros Hleaf.
  - reflexivity.
  - rewrite decompose_tag, cnt_app, cnt_tag.
    rewrite descendants_tag in Hleaf.
    assert (Hl : cnt x (decompose i l) = cnt x l).
    { apply IHl. intros m Hm. apply Hleaf. right. apply in_or_app. now right. }
    case_uid u i.
    + assert (Hc : c = []) by (apply (Hleaf (Tag u nm a c)); [now left|exact E]).
      subst c u. apply Nat.neq_sym, Nat.eqb_neq in Hx. rewrite Hx, !cnt_nil. lia.
    + rewrite cnt_tag, cnt_nil, IHc, Hl; [lia|].
      intros m Hm. apply Hleaf. right. apply in_or_app. now left.
  - rewrite decompose_leaf, cnt_app, cnt_leaf by exact Hn.
    rewrite descendants_leaf in Hleaf by exact Hn.
    assert (Hl : cnt x (decompose i l) = cnt x l).
    { apply IHl. intros m Hm. apply Hleaf. now right. }
    case_uid (uid n) i.
    + rewrite E. apply Nat.neq_sym, Nat.eqb_neq in Hx. rewrite Hx, cnt_nil. lia.
    + rewrite cnt_leaf, cnt_nil, Hl by exact Hn. lia.
Qed.

Lemma cnt_insert_before x i new t :
  is_tag new = false ->
  cnt x (insert_before i new t)
  = cnt x t + (if Nat.eqb (uid new) x then cnt i t else 0).
Proof.
  intros Hnew. forest_induction t.
  - destruct (Nat.eqb (uid new) x); reflexivity.
  - rewrite insert_before_tag, cnt_app, !cnt_tag, IHc, IHl.
    destruct (Nat.eqb u i); [rewrite cnt_leaf by exact Hnew|];
      rewrite ?cnt_nil; destruct (Nat.eqb (uid new) x); lia.
  - rewrite insert_before_leaf, cnt_app, !cnt_leaf, IHl by exact Hn.
    destruct (Nat.eqb (uid n) i); [rewrite cnt_leaf by exact Hnew|];
      rewrite ?cnt_nil; destruct (Nat.eqb (uid new) x); lia.
Qed.

(** *** Well-formedness is kept *)

Lemma named_shell names m m0 :
  shell m = shell m0 -> named names m = named names m0.
Proof. destruct m, m0; simpl; intros H; now inversion H. Qed.

Lemma uid_shell m m0 : shell m = shell m0 -> uid m = uid m0.
Proof. destruct m, m0; simpl; intros H; now inversion H. Qed.

Lemma attrs_shell m m0 : shell m = shell m0 -> attrs m = attrs m0.
Proof. destruct m, m0; simpl; intros H; now inversion H. Qed.

Lemma is_tag_shell m m0 : shell m = shell m0 -> is_tag m = is_tag m0.
Proof. destruct m, m0; simpl; intros H; now inversion H. Qed.

Lemma in_uids m t : In m (descendants t) -> In (uid m) (uids t).
Proof. apply in_map. Qed.

Lemma wf_decompose i t k :
  well_formed (Dom t k) -> well_formed (Dom (decompose i t) k).
Proof.
  intros [Hd Hf Hv]; simpl in *. constructor; simpl.
  - apply nodup_cnt. intros x.
    apply Nat.le_trans with (cnt x t); [apply cnt_decompose_le|].
    now apply nodup_cnt.
  - intros x Hx. apply Hf, cnt_pos. apply cnt_pos in Hx.
    pose proof (cnt_decompose_le x i t). lia.
  - intros m Hm Hname.
    apply in_decompose in Hm as [_ (m0 & H0 & Hs & Hc)].
    rewrite Hc, (Hv m0 H0); [reflexivity|].
    unfold void in *. now rewrite <- (named_shell _ _ _ Hs).
Qed.

Lemma wf_insert_before i s t k :
  well_formed (Dom t k) ->
  well_formed (Dom (insert_before i (NavigableString k s) t) (S k)).
Proof.
  intros [Hd Hf Hv]; simpl in *.
  assert (Hk : cnt k t = 0).
  { apply cnt_zero. intros H. apply Hf in H. lia. }
  assert (Hcnt : forall x, cnt x t <= 1) by now apply nodup_cnt.
  constructor; simpl.
  - apply nodup_cnt. intros x.
    rewrite cnt_insert_before by reflexivity. simpl.
    case_uid k x.
    + subst x. rewrite Hk. apply Hcnt.
    + rewrite Nat.add_0_r. apply Hcnt.
  - intros x Hx. apply cnt_pos in Hx.
    rewrite cnt_insert_before in Hx by reflexivity. simpl in Hx.
    case_uid k x; [lia|].
    rewrite Nat.add_0_r in Hx. apply cnt_pos, Hf in Hx. lia.
  - intros m Hm Hname.
    apply in_insert_before in Hm as [->|(m0 & H0 & Hs & Hc)];
      [reflexivity| |reflexivity].
    rewrite Hc, (Hv m0 H0); [reflexivity|].
    unfold void in *. now rewrite <- (named_shell _ _ _ Hs).
Qed.

Lemma wf_set_attrs i f t k :
  well_formed (Dom t k) -> well_formed (Dom (map (set_attrs i f) t) k).
Proof.
  intros [Hd Hf Hv]; simpl in *. constructor; simpl.
  - now rewrite uids_set_attrs.
  - now rewrite uids_set_attrs.
  - intros m Hm Hname. rewrite descendants_set_attrs in Hm.
    apply in_map_iff in Hm as (m0 & <- & H0).
    destruct m0 as [u nm a c| | |]; try reflexivity.
    pose proof (Hv _ H0 Hname) as Hc. simpl in Hc. subst c. reflexivity.
Qed.

Lemma nodup_uid_inj t m n :
  NoDup (uids t) -> In m (descendants t) -> In n (descendants t) ->
  uid m = uid n -> m = n.
Proof.
  unfold uids. induction (descendants t) as [|x l IH]; simpl; [tauto|].
  intros Hd Hm Hn E. inversion Hd as [|? ? Hx Hl]; subst.
  destruct Hm as [->|Hm], Hn as [->|Hn]; auto.
  - exfalso. apply Hx. rewrite E. now apply in_map.
  - exfalso. apply Hx. rewrite <- E. now apply in_map.
Qed.

Lemma nodup_find_all p t : NoDup (uids t) -> NoDup (find_all p t).
Proof.
  unfold uids, find_all. induction (descendants t) as [|x l IH]; simpl;
    [constructor|].
  intros Hd. inversion Hd as [|? ? Hx Hl]; subst.
  destruct (p x); [|now apply IH]. simpl. constructor; [|now apply IH].
  intros H. apply Hx. apply in_map_iff in H as (y & Hy & H).
  apply filter_In in H as [H _]. rewrite <- Hy. now apply in_map.
Qed.

Lemma in_find_all p t i :
  In i (find_all p t) <->
  exists n, In n (descendants t) /\ uid n = i /\ p n = true.
Proof.
  unfold find_all. rewrite in_map_iff. split.
  - intros (n & Hu & H). apply filter_In in H as [H1 H2]. now exists n.
  - intros (n & H1 & Hu & H2). exists n. split; [exact Hu|].
    apply filter_In. now split.
Qed.

Lemma find_node_some i t :
  In i (uids t) ->
  exists n, find_node i t = Some n /\ In n (descendants t) /\ uid n = i.
Proof.
  intros H. unfold find_node.
  destruct (find (fun n => Nat.eqb (uid n) i) (descendants t)) as [n|] eqn:E.
  - exists n. apply find_some in E as [E1 E2]. apply Nat.eqb_eq in E2. auto.
  - exfalso. apply in_map_iff in H as (n & Hu & Hn).
    apply (find_none _ _ E) in Hn. apply Nat.eqb_neq in Hn. contradiction.
Qed.

Lemma find_node_in i t n :
  find_node i t = Some n -> In n (descendants t) /\ uid n = i.
Proof.
  unfold find_node. intros E. apply find_some in E as [E1 E2].
  apply Nat.eqb_eq in E2. auto.
Qed.

(** *** Every tag of the new tree is a tag of the old one *)

Lemma refines_refl t : refines t t.
Proof. intros m Hm. right. now exists m. Qed.

Lemma refines_trans t1 t2 t3 : refines t1 t2 -> refines t2 t3 -> refines t1 t3.
Proof.
  intros H12 H23 m Hm. destruct (H12 m Hm) as [H|(m0 & H0 & Hs)]; [now left|].
  destruct (H23 m0 H0) as [H|(m1 & H1 & Hs1)].
  - left. now rewrite (is_tag_shell _ _ Hs).
  - right. exists m1. split; [exact H1|]. now rewrite Hs.
Qed.

Lemma refines_decompose i t : refines (decompose i t) t.
Proof.
  intros m Hm. apply in_decompose in Hm as [_ (m0 & H0 & Hs & _)].
  right. now exists m0.
Qed.

Lemma refines_insert_before i new t :
  is_tag new = false -> refines (insert_before i new t) t.
Proof.
  intros Hnew m Hm.
  apply in_insert_before in Hm as [->|(m0 & H0 & Hs & _)]; [now left| |exact Hnew].
  right. now exists m0.
Qed.

Lemma refines_decompose_all ids t : refines (decompose_all ids t) t.
Proof.
  revert t. induction ids as [|i ids IH]; intros t; simpl.
  - apply refines_refl.
  - eapply refines_trans; [apply IH|apply refines_decompose].
Qed.

Lemma wf_decompose_all ids t k :
  well_formed (Dom t k) -> well_formed (Dom (decompose_all ids t) k).
Proof.
  revert t. induction ids as [|i ids IH]; intros t H; simpl; [exact H|].
  now apply IH, wf_decompose.
Qed.

(** Once decomposed, an object does not come back. *)
Lemma in_decompose_all ids t m :
  In m (descendants (decompose_all ids t)) ->
  ~ In (uid m) ids /\ exists m0, In m0 (descendants t) /\ shell m = shell m0.
Proof.
  revert t. induction ids as [|i ids IH]; intros t Hm; simpl in *.
  - split; [tauto|]. now exists m.
  - destruct (IH _ Hm) as [Hn (m1 & H1 & Hs1)].
    apply in_decompose in H1 as [Hu (m0 & H0 & Hs0 & _)]. split.
    + intros [E|E]; [|contradiction].
      apply Hu. rewrite <- (uid_shell _ _ Hs1). now symmetry.
    + exists m0. split; [exact H0|]. now rewrite Hs1.
Qed.

(** After the loop over [find_all(names)], no tag has one of the names. *)
Lemma decompose_all_named names t m :
  In m (descendants (decompose_all (find_all (named names) t) t)) ->
  named names m = false.
Proof.
  intros Hm. apply in_decompose_all in Hm as [Hn (m0 & H0 & Hs)].
  destruct (named names m) eqn:E; [|reflexivity].
  exfalso. apply Hn. apply in_find_all. exists m0.
  split; [exact H0|]. split; [symmetry; now apply uid_shell|].
  now rewrite <- (named_shell _ _ _ Hs).
Qed.

Lemma refines_named names t' t :
  refines t' t ->
  (forall m, In m (descendants t) -> named names m = false) ->
  forall m, In m (descendants t') -> named names m = false.
Proof.
  intros Hr H m Hm. destruct (Hr m Hm) as [Ht|(m0 & H0 & Hs)].
  - now destruct m.
  - rewrite (named_shell _ _ _ Hs). now apply H.
Qed.

(** *** The loops that read attributes find their objects *)

Lemma void_shell m m0 : shell m = shell m0 -> void m = void m0.
Proof. apply named_shell. Qed.

Lemma attached_decompose i rest t k :
  well_formed (Dom t k) -> NoDup (i :: rest) ->
  attached_voids (i :: rest) t -> attached_voids rest (decompose i t).
Proof.
  intros Hwf Hnd Hatt j Hj.
  destruct (Hatt i (or_introl eq_refl)) as (ni & Hni & Hui & Hvi).
  destruct (Hatt j (or_intror Hj)) as (nj & Hnj & Huj & Hvj).
  assert (Hne : j <> i).
  { intros ->. inversion Hnd; contradiction. }
  assert (Hin : In j (uids (decompose i t))).
  { apply cnt_pos. rewrite cnt_decompose_leaf.
    - apply cnt_pos. rewrite <- Huj. now apply in_uids.
    - intros m Hm Hu.
      assert (m = ni).
      { apply (nodup_uid_inj t); [apply Hwf|exact Hm|exact Hni|congruence]. }
      subst m. now apply (wf_void _ Hwf).
    - exact Hne. }
  apply in_map_iff in Hin as (m & Hum & Hm).
  exists m. split; [exact Hm|]. split; [exact Hum|].
  apply in_decompose in Hm as [_ (m0 & H0 & Hs & _)].
  assert (m0 = nj).
  { apply (nodup_uid_inj t); [apply Hwf|exact H0|exact Hnj|].
    rewrite <- (uid_shell _ _ Hs). congruence. }
  subst m0. now rewrite (void_shell _ _ Hs).
Qed.

Lemma attached_insert_before i s ids t k :
  well_formed (Dom t k) ->
  attached_voids ids t ->
  attached_voids ids (insert_before i (NavigableString k s) t).
Proof.
  intros Hwf Hatt j Hj.
  destruct (Hatt j Hj) as (nj & Hnj & Huj & Hvj).
  assert (Hjt : In j (uids t)) by (rewrite <- Huj; now apply in_uids).
  assert (Hin : In j (uids (insert_before i (NavigableString k s) t))).
  { apply cnt_pos. rewrite cnt_insert_before by reflexivity.
    apply cnt_pos in Hjt. lia. }
  apply in_map_iff in Hin as (m & Hum & Hm).
  exists m. split; [exact Hm|]. split; [exact Hum|].
  apply in_insert_before in Hm as [->|(m0 & H0 & Hs & _)]; [|..|reflexivity].
  - simpl in Hum. subst j. apply (wf_fresh _ Hwf) in Hjt. simpl in Hjt. lia.
  - assert (m0 = nj).
    { apply (nodup_uid_inj t); [apply Hwf|exact H0|exact Hnj|].
      rewrite <- (uid_shell _ _ Hs). congruence. }
    subst m0. now rewrite (void_shell _ _ Hs).
Qed.

Lemma attached_find_all name t :
  In name [lit "link"; lit "input"] ->
  attached_voids (find_all (named [name]) t) t.
Proof.
  intros Hname i Hi. apply in_find_all in Hi as (n & Hn & Hu & Hp).
  exists n. split; [exact Hn|]. split; [exact Hu|].
  destruct n as [u nm a c| | |]; try discriminate.
  unfold void. simpl in *. rewrite orb_false_r in Hp.
  apply eqb_eq in Hp. subst nm.
  destruct Hname as [<-|[<-|[]]]; reflexivity.
Qed.

Lemma attached_present i ids t :
  attached_voids (i :: ids) t -> exists n, find_node i t = Some n.
Proof.
  intros Hatt. destruct (Hatt i (or_introl eq_refl)) as (n & Hn & Hu & _).
  destruct (find_node_some i t) as (n' & H & _).
  - rewrite <- Hu. now apply in_uids.
  - now exists n'.
Qed.

(** The loop over the links runs to its end. *)
Lemma drop_link_loop ids :
  forall t k,
    well_formed (Dom t k) -> NoDup ids -> attached_voids ids t ->
    exists t', for_each drop_link ids t = Some t'
               /\ well_formed (Dom t' k) /\ refines t' t.
Proof.
  induction ids as [|i rest IH]; intros t k Hwf Hnd Hatt.
  - exists t. repeat split; try assumption; try apply Hwf. apply refines_refl.
  - destruct (attached_present _ _ _ Hatt) as (link & Hlink).
    cbn [for_each]. unfold drop_link at 1. rewrite Hlink. cbn [bind].
    inversion Hnd as [|? ? Hi Hrest]; subst.
    match goal with |- context [if ?b then _ else _] => destruct b end;
      cbn [bind].
    + destruct (IH (decompose i t) k) as (t' & Ht' & Hwf' & Hr').
      * now apply wf_decompose.
      * exact Hrest.
      * now apply (attached_decompose _ _ _ _ Hwf Hnd).
      * exists t'. split; [exact Ht'|]. split; [exact Hwf'|].
        eapply refines_trans; [exact Hr'|apply refines_decompose].
    + destruct (IH t k Hwf Hrest) as (t' & Ht' & Hwf' & Hr').
      * intros j Hj. apply Hatt. now right.
      * exists t'. auto.
Qed.

Lemma get_shell m m0 k : shell m = shell m0 -> get m k = get m0 k.
Proof. destruct m, m0; simpl; intros H; now inversion H. Qed.

Lemma input_type_shell m m0 :
  shell m = shell m0 -> input_type m = input_type m0.
Proof.
  intros H. unfold input_type, get_or_empty. now rewrite (get_shell _ _ _ H).
Qed.

Lemma find_node_none i t : cnt i t = 0 -> find_node i t = None.
Proof.
  intros H. destruct (find_node i t) as [n|] eqn:E; [|reflexivity].
  apply find_node_in in E as [E1 E2]. apply cnt_zero in H.
  exfalso. apply H. rewrite <- E2. now apply in_uids.
Qed.

(** An identity in use does not come back once its object is gone. *)
Lemma cnt_flatten_step x i s t k :
  x <> k ->
  cnt x (decompose i (insert_before i (NavigableString k s) t)) <= cnt x t.
Proof.
  intros Hx.
  apply Nat.le_trans with (cnt x (insert_before i (NavigableString k s) t)).
  - apply cnt_decompose_le.
  - rewrite cnt_insert_before by reflexivity. simpl.
    apply Nat.neq_sym, Nat.eqb_neq in Hx. rewrite Hx. lia.
Qed.

(** The loop over the native inputs runs to its end, and none of the
    objects it went over is a checkbox or a radio button of the tree it
    leaves. *)
Lemma flatten_input_loop ids :
  forall d,
    well_formed d -> NoDup ids -> attached_voids ids (tree d) ->
    exists d', for_each flatten_input ids d = Some d'
               /\ well_formed d' /\ refines (tree d') (tree d)
               /\ next_uid d <= next_uid d'
               /\ (forall x, x < next_uid d ->
                    cnt x (tree d') <= cnt x (tree d))
               /\ (forall m, In m (descendants (tree d')) ->
                    In (uid m) ids -> is_choice (input_type m) = false).
Proof.
  induction ids as [|i rest IH]; intros [t k] Hwf Hnd Hatt; simpl in Hatt.
  - exists (Dom t k). split; [reflexivity|]. split; [exact Hwf|].
    split; [apply refines_refl|]. split; [apply Nat.le_refl|].
    split; [intros; apply Nat.le_refl|]. intros m _ [].
  - destruct (attached_present _ _ _ Hatt) as (inp & Hinp).
    cbn [for_each]. unfold flatten_input at 1. cbn [tree next_uid].
    rewrite Hinp. cbn [bind].
    apply find_node_in in Hinp as [Hinp Hui].
    assert (Hik : i < k).
    { apply (wf_fresh _ Hwf). cbn [tree]. rewrite <- Hui. now apply in_uids. }
    inversion Hnd as [|? ? Hi Hrest]; subst.
    destruct (is_choice (input_type inp)) eqn:Hchoice; cbn [bind].
    + set (new := NavigableString k _).
      destruct (IH (Dom (decompose (uid inp) (insert_before (uid inp) new t)) (S k)))
        as (d' & Hd' & Hwf' & Hr' & Hk' & Hcnt' & Hgone').
      * apply wf_decompose. now apply wf_insert_before.
      * exact Hrest.
      * cbn [tree].
        apply (attached_decompose (uid inp) rest _ (S k)).
        -- now apply wf_insert_before.
        -- exact Hnd.
        -- now apply attached_insert_before.
      * cbn [tree next_uid] in *.
        exists d'. split; [exact Hd'|]. split; [exact Hwf'|].
        split; [|split; [lia|split]].
        -- eapply refines_trans; [exact Hr'|].
           eapply refines_trans; [apply refines_decompose|].
           now apply refines_insert_before.
        -- intros x Hx.
           apply Nat.le_trans with (1 := Hcnt' x (Nat.lt_lt_succ_r _ _ Hx)).
           apply cnt_flatten_step. lia.
        -- intros m Hm [Hu|Hu]; [|now apply Hgone'].
           exfalso. apply in_uids in Hm. apply cnt_pos in Hm.
           rewrite <- Hu in Hm.
           pose proof (Hcnt' (uid inp) (Nat.lt_lt_succ_r _ _ Hik)) as Hle.
           rewrite cnt_decompose_self in Hle. lia.
    + destruct (IH (Dom t k) Hwf Hrest)
        as (d' & Hd' & Hwf' & Hr' & Hk' & Hcnt' & Hgone').
      * intros j Hj. apply Hatt. now right.
      * exists d'. do 5 (split; [assumption|]).
        intros m Hm [Hu|Hu]; [|now apply Hgone'].
        destruct (Hr' m Hm) as [Ht|(m0 & H0 & Hs)].
        -- now destruct m.
        -- cbn [tree] in H0.
           assert (m0 = inp).
           { apply (nodup_uid_inj t); [apply Hwf|exact H0|exact Hinp|].
             rewrite <- (uid_shell _ _ Hs). now symmetry. }
           subst m0. now rewrite (input_type_shell _ _ Hs).
Qed.

(** The loop over the marker spans. *)
Lemma flatten_marker_step d i :
  well_formed d ->
  well_formed (flatten_marker d i)
  /\ refines (tree (flatten_marker d i)) (tree d).
Proof.
  intros Hwf. unfold flatten_marker.
  destruct (find_node i (tree d)) as [marker|];
    [|split; [exact Hwf|apply refines_refl]].
  destruct (negb _); [split; [exact Hwf|apply refines_refl]|].
  destruct (find_next_sibling i (lit "div") (tree d)) as [text_div|];
    [|split; [exact Hwf|apply refines_refl]].
  destruct (get_text [] true (contents text_div));
    [split; [exact Hwf|apply refines_refl]|].
  destruct (is_checked_marker (tree d) marker) as [checked base_marker].
  destruct d as [t k]. cbn [tree next_uid] in *. split.
  - apply wf_decompose. now apply wf_insert_before.
  - eapply refines_trans; [apply refines_decompose|].
    now apply refines_insert_before.
Qed.

Lemma flatten_marker_loop ids :
  forall d,
    well_formed d ->
    well_formed (fold_left flatten_marker ids d)
    /\ refines (tree (fold_left flatten_marker ids d)) (tree d).
Proof.
  induction ids as [|i rest IH]; intros d Hwf; simpl.
  - split; [exact Hwf|apply refines_refl].
  - destruct (flatten_marker_step _ i Hwf) as [Hwf1 Hr1].
    destruct (IH _ Hwf1) as [Hwf2 Hr2]. split; [exact Hwf2|].
    eapply refines_trans; eassumption.
Qed.

Lemma flatten_total d :
  well_formed d ->
  exists d', flatten d = Some d' /\ well_formed d'
             /\ refines (tree d') (tree d).
Proof.
  intros Hwf. unfold flatten, flatten_markers.
  destruct (flatten_input_loop (find_all (named [lit "input"]) (tree d)) d)
    as (d1 & Hd1 & Hwf1 & Hr1 & _).
  - exact Hwf.
  - apply nodup_find_all, Hwf.
  - apply attached_find_all. simpl; auto.
  - rewrite Hd1. cbn [bind].
    destruct (flatten_marker_loop (find_all (named [lit "span"]) (tree d1)) d1 Hwf1)
      as [Hwf2 Hr2].
    eexists. split; [reflexivity|]. split; [exact Hwf2|].
    eapply refines_trans; eassumption.
Qed.

(** *** The event handlers *)

Lemma in_fold_del_attr ks :
  forall a kv,
    In kv (fold_left (fun a' k => del_attr k a') ks a)
    <-> In kv a /\ ~ In (fst kv) ks.
Proof.
  induction ks as [|k ks IH]; intros a kv; simpl.
  - tauto.
  - rewrite IH. unfold del_attr. rewrite filter_In, negb_true_iff. split.
    + intros [[H1 H2] H3]. split; [exact H1|]. intros [E|E]; [|contradiction].
      subst k. now rewrite eqb_refl in H2.
    + intros [H1 H2]. split; [split; [exact H1|]|tauto].
      destruct (eqb (fst kv) k) eqn:E; [|reflexivity].
      apply eqb_eq in E. subst k. tauto.
Qed.

Lemma handler_free_strip_handlers a : handler_free (strip_handlers a) = true.
Proof.
  unfold handler_free. apply forallb_forall. intros kv Hkv.
  unfold strip_handlers in Hkv. apply in_fold_del_attr in Hkv as [Hin Hno].
  apply negb_true_iff. destruct (starts_with_on (fst kv)) eqn:E; [|reflexivity].
  exfalso. apply Hno. unfold attrs_to_remove. apply filter_In. split.
  - now apply in_map.
  - now apply starts_with_on_lower.
Qed.

Lemma attrs_set_attrs i f n :
  attrs (set_attrs i f n)
  = if is_tag n && Nat.eqb (uid n) i then f (attrs n) else attrs n.
Proof. destruct n; reflexivity. Qed.

Lemma named_set_attrs names i f n :
  named names (set_attrs i f n) = named names n.
Proof. destruct n; reflexivity. Qed.

Lemma is_tag_set_attrs i f n : is_tag (set_attrs i f n) = is_tag n.
Proof. destruct n; reflexivity. Qed.

(** After the loop over [find_all(True)], a node has its name and, when it
    was in the list, no handler left. *)
Lemma in_strip_all_handlers ids :
  forall t m,
    In m (descendants (strip_all_handlers ids t)) ->
    exists m0, In m0 (descendants t) /\ uid m = uid m0
               /\ is_tag m = is_tag m0
               /\ (forall names, named names m = named names m0)
               /\ (handler_free (attrs m0) = true \/ In (uid m0) ids ->
                   handler_free (attrs m) = true).
Proof.
  induction ids as [|i rest IH]; intros t m Hm.
  - exists m. repeat split; auto. intros [H|[]]. exact H.
  - cbn [strip_all_handlers fold_left] in Hm.
    destruct (IH _ _ Hm) as (m1 & H1 & Hu & Ht & Hn & Hh).
    rewrite descendants_set_attrs in H1.
    apply in_map_iff in H1 as (m0 & <- & H0).
    exists m0. split; [exact H0|].
    rewrite uid_set_attrs in *. rewrite is_tag_set_attrs in Ht.
    split; [exact Hu|]. split; [exact Ht|]. split.
    + intros names. now rewrite Hn, named_set_attrs.
    + intros H. apply Hh. rewrite attrs_set_attrs.
      destruct (is_tag m0 && Nat.eqb (uid m0) i) eqn:E.
      * left. apply handler_free_strip_handlers.
      * destruct H as [H|[H|H]]; [now left| |now right].
        left. subst i. rewrite Nat.eqb_refl, andb_true_r in E.
        destruct m0; [discriminate|reflexivity..].
Qed.

Lemma wf_strip_all_handlers ids :
  forall t k, well_formed (Dom t k) ->
              well_formed (Dom (strip_all_handlers ids t) k).
Proof.
  induction ids as [|i rest IH]; intros t k H; [exact H|].
  cbn [strip_all_handlers fold_left]. now apply IH, wf_set_attrs.
Qed.

Lemma clean_node_leaf m : is_tag m = false -> clean_node m = true.
Proof. destruct m; [discriminate|reflexivity..]. Qed.

Lemma clean_node_shell m m0 : shell m = shell m0 -> clean_node m = clean_node m0.
Proof.
  intros Hs. unfold clean_node.
  now rewrite (named_shell _ _ _ Hs), (attrs_shell _ _ Hs).
Qed.

Lemma refines_clean t' t : refines t' t -> clean t -> clean t'.
Proof.
  intros Hr Hc. apply Forall_forall. intros m Hm.
  destruct (Hr m Hm) as [Ht|(m0 & H0 & Hs)].
  - now apply clean_node_leaf.
  - rewrite (clean_node_shell _ _ Hs).
    unfold clean in Hc. rewrite Forall_forall in Hc. now apply Hc.
Qed.

Lemma named_stripped_tags m :
  named STRIPPED_TAGS m
  = named [lit "script"; lit "style"] m
    || named [lit "iframe"; lit "embed"; lit "object"] m.
Proof.
  destruct m; try reflexivity. unfold named, STRIPPED_TAGS.
  change [lit "script"; lit "style"; lit "iframe"; lit "embed"; lit "object"]
    with ([lit "script"; lit "style"]
          ++ [lit "iframe"; lit "embed"; lit "object"]).
  apply existsb_app.
Qed.

(** The whole transform on the tree: it runs to its end on a well-formed
    tree, and the tree it leaves is clean. *)
Lemma strip_tree_clean keep_images flatten_inputs d :
  well_formed d ->
  exists d', strip_tree keep_images flatten_inputs d = Some d'
             /\ well_formed d' /\ clean (tree d').
Proof.
  intros Hwf. destruct d as [t k]. unfold strip_tree. cbn [tree next_uid].
  set (t1 := decompose_all (find_all (named [lit "script"; lit "style"]) t) t).
  assert (Hwf1 : well_formed (Dom t1 k)) by now apply wf_decompose_all.
  assert (Hn1 : forall m, In m (descendants t1) ->
                          named [lit "script"; lit "style"] m = false)
    by (intros m; apply decompose_all_named).
  destruct (drop_link_loop (find_all (named [lit "link"]) t1) t1 k Hwf1)
    as (t2 & Ht2 & Hwf2 & Hr2).
  { apply nodup_find_all, Hwf1. }
  { apply attached_find_all. simpl; auto. }
  rewrite Ht2. cbn [bind].
  set (t3 := decompose_all
               (find_all (named [lit "iframe"; lit "embed"; lit "object"]) t2)
               t2).
  assert (Hwf3 : well_formed (Dom t3 k)) by now apply wf_decompose_all.
  assert (Hn3 : forall m, In m (descendants t3) -> named STRIPPED_TAGS m = false).
  { intros m Hm. rewrite named_stripped_tags. apply orb_false_iff. split.
    - apply (refines_named _ t3 t1); [|exact Hn1|exact Hm].
      eapply refines_trans; [apply refines_decompose_all|exact Hr2].
    - now apply (decompose_all_named _ t2). }
  set (t4 := strip_all_handlers (find_all is_tag t3) t3).
  assert (Hwf4 : well_formed (Dom t4 k)) by now apply wf_strip_all_handlers.
  assert (Hc4 : clean t4).
  { apply Forall_forall. intros m Hm.
    apply in_strip_all_handlers in Hm as (m0 & H0 & Hu & Ht & Hn & Hh).
    unfold clean_node. rewrite Hn, (Hn3 _ H0). cbn [negb andb].
    destruct (is_tag m) eqn:E.
    - apply Hh. right. apply in_find_all. exists m0. rewrite <- Ht. auto.
    - destruct m; [discriminate|reflexivity..]. }
  set (t5 := if keep_images then t4
             else decompose_all (find_all (named [lit "img"]) t4) t4).
  assert (H5 : well_formed (Dom t5 k) /\ clean t5).
  { subst t5. destruct keep_images; [now split|]. split.
    - now apply wf_decompose_all.
    - eapply refines_clean; [apply refines_decompose_all|exact Hc4]. }
  destruct H5 as [Hwf5 Hc5].
  change (fold_left (fun t' i => extract i t') (find_all is_comment t5) t5)
    with (decompose_all (find_all is_comment t5) t5).
  set (t6 := decompose_all (find_all is_comment t5) t5).
  assert (Hwf6 : well_formed (Dom t6 k)) by now apply wf_decompose_all.
  assert (Hc6 : clean t6)
    by (eapply refines_clean; [apply refines_decompose_all|exact Hc5]).
  destruct flatten_inputs.
  - destruct (flatten_total _ Hwf6) as (d' & Hd' & Hwf' & Hr').
    exists d'. split; [exact Hd'|]. split; [exact Hwf'|].
    eapply refines_clean; [exact Hr'|exact Hc6].
  - exists (Dom t6 k). auto.
Qed.

(** *** The computed well-formedness is sound *)

Lemma nodupb_sound l : nodupb l = true -> NoDup l.
Proof.
  induction l as [|x l IH]; simpl; intros H; constructor.
  - apply andb_true_iff in H as [H _]. apply negb_true_iff in H.
    intros Hin. assert (existsb (Nat.eqb x) l = true); [|congruence].
    apply existsb_exists. exists x. split; [exact Hin|apply Nat.eqb_refl].
  - apply IH. now apply andb_true_iff in H as [_ H].
Qed.

Lemma well_formedb_sound d : well_formedb d = true -> well_formed d.
Proof.
  unfold well_formedb. intros H.
  apply andb_true_iff in H as [H H3]. apply andb_true_iff in H as [H1 H2].
  constructor.
  - now apply nodupb_sound.
  - intros i Hi. rewrite forallb_forall in H2. now apply Nat.ltb_lt, H2.
  - intros n Hn Hv. rewrite forallb_forall in H3. specialize (H3 n Hn).
    rewrite Hv in H3. simpl in H3. now destruct (contents n).
Qed.

(** ** The aggressive strip leaves no script and no handler *)

(** C1.  Whatever the HTML text and the two flags, [strip_nontext] comes to
    its end on the parsed document and what it returns is the minified
    serialisation of a tree in which no element is a [script], [style],
    [iframe], [embed] or [object] and no element has an attribute whose
    name starts with [on], in any case of the letters. *)
Theorem strip_nontext_clean
  (minify : str -> str) (BeautifulSoup : str -> dom)
  (to_str : list node -> str)
  (html : str) (keep_images flatten_inputs : bool) :
  well_formed (BeautifulSoup html) ->
  exists d',
    strip_tree keep_images flatten_inputs (BeautifulSoup html) = Some d'
    /\ strip_nontext minify BeautifulSoup to_str html keep_images
         flatten_inputs
       = Some (minify_only minify (to_str (tree d')))
    /\ forall n, In n (descendants (tree d')) ->
         named STRIPPED_TAGS n = false
         /\ forall k v, In (k, v) (attrs n) -> starts_with_on k = false.
Proof.
  intros Hwf.
  destruct (strip_tree_clean keep_images flatten_inputs _ Hwf)
    as (d' & Hd' & _ & Hclean).
  exists d'. split; [exact Hd'|]. split.
  - unfold strip_nontext. now rewrite Hd'.
  - intros n Hn. unfold clean in Hclean. rewrite Forall_forall in Hclean.
    specialize (Hclean n Hn). unfold clean_node in Hclean.
    apply andb_true_iff in Hclean as [H1 H2]. split.
    + now apply negb_true_iff.
    + intros k v Hkv. unfold handler_free in H2.
      rewrite forallb_forall in H2. specialize (H2 _ Hkv).
      now apply negb_true_iff in H2.
Qed.

Lemma strip_nontext_clean_witness :
  well_formed ((fun _ => sample_dom) sample_html)
  /\ exists d',
       strip_tree false true sample_dom = Some d'
       /\ strip_nontext (fun s => s) (fun _ => sample_dom) (fun _ => [])
            sample_html false true
          = Some (minify_only (fun s => s) ((fun _ => []) (tree d')))
       /\ forall n, In n (descendants (tree d')) ->
            named STRIPPED_TAGS n = false
            /\ forall k v, In (k, v) (attrs n) -> starts_with_on k = false.
Proof.
  split.
  - apply well_formedb_sound. reflexivity.
  - apply (strip_nontext_clean (fun s => s) (fun _ => sample_dom)
             (fun _ => []) sample_html false true).
    apply well_formedb_sound. reflexivity.
Defined.

(** ** Native checkboxes and radio buttons *)

Lemma decompose_app i l1 l2 :
  decompose i (l1 ++ l2) = decompose i l1 ++ decompose i l2.
Proof. apply flat_map_app. Qed.

(** Inserting before an object and then removing the object puts the new
    node where the object stood. *)
Lemma decompose_insert_before i new t :
  is_tag new = false -> uid new <> i ->
  decompose i (insert_before i new t) = map (replace_node i new) t.
Proof.
  intros Hnew Hu.
  assert (Hd : decompose i [new] = [new]).
  { rewrite decompose_leaf by exact Hnew.
    apply Nat.eqb_neq in Hu. now rewrite Hu. }
  forest_induction t.
  - reflexivity.
  - rewrite insert_before_tag, decompose_app, decompose_tag.
    cbn [map replace_node uid]. fold (map (replace_node i new)).
    rewrite IHc, IHl.
    destruct (Nat.eqb u i); [now rewrite Hd|reflexivity].
  - rewrite insert_before_leaf, decompose_app, decompose_leaf by exact Hn.
    cbn [map]. rewrite IHl.
    assert (Hr : replace_node i new n = if Nat.eqb (uid n) i then new else n)
      by (destruct n; [discriminate|reflexivity..]).
    rewrite Hr. destruct (Nat.eqb (uid n) i); [now rewrite Hd|reflexivity].
Qed.

Lemma native_checked_has_attr inp :
  native_checked inp = has_attr inp (lit "checked").
Proof.
  unfold native_checked, has_attr.
  destruct (get inp (lit "checked")) as [v|]; [|reflexivity].
  cbn [option_eqb andb]. now rewrite eqb_refl, orb_true_r.
Qed.

(** C2.  An input whose type is [checkbox] or [radio], in any case of the
    letters, counts as checked exactly when it has a [checked] attribute,
    whatever the value; its iteration of the loop puts one of the four
    marker texts where the input stood, and after the loop no such input is
    left in the tree. *)
Theorem native_inputs_flattened (d : dom) :
  well_formed d ->
  (forall i inp,
      find_node i (tree d) = Some inp ->
      is_choice (input_type inp) = true ->
      let checked := has_attr inp (lit "checked") in
      let marker :=
        if eqb (input_type inp) (lit "checkbox")
        then (if checked then lit "[x] " else lit "[ ] ")
        else (if checked then [40; 8226; 41; 32]%N else lit "( ) ") in
      native_checked inp = checked
      /\ flatten_input d i
         = Some (Dom (map (replace_node i (NavigableString (next_uid d) marker))
                        (tree d))
                     (S (next_uid d))))
  /\ exists d',
       for_each flatten_input (find_all (named [lit "input"]) (tree d)) d
       = Some d'
       /\ forall n, In n (descendants (tree d')) ->
            named [lit "input"] n = true ->
            is_choice (input_type n) = false.
Proof.
  intros Hwf. split.
  - intros i inp Hfind Hchoice checked marker.
    split; [apply native_checked_has_attr|].
    unfold flatten_input. rewrite Hfind. cbn [bind]. rewrite Hchoice.
    rewrite native_checked_has_attr.
    rewrite decompose_insert_before; [reflexivity|reflexivity|].
    apply find_node_in in Hfind as [Hin Hu]. cbn [uid].
    apply in_uids, (wf_fresh _ Hwf) in Hin. lia.
  - destruct (flatten_input_loop (find_all (named [lit "input"]) (tree d)) d)
      as (d' & Hd' & _ & Hr & _ & _ & Hgone).
    + exact Hwf.
    + apply nodup_find_all, Hwf.
    + apply attached_find_all. simpl; auto.
    + exists d'. split; [exact Hd'|]. intros n Hn Hname.
      apply (Hgone n Hn). apply in_find_all.
      destruct (Hr n Hn) as [Ht|(m0 & H0 & Hs)]; [now destruct n|].
      exists m0. split; [exact H0|]. split; [symmetry; now apply uid_shell|].
      now rewrite <- (named_shell _ _ _ Hs).
Qed.

Lemma native_inputs_flattened_witness :
  well_formed sample_dom
  /\ native_checked (Tag 4 (lit "input")
                       [(lit "type", lit "checkbox"); (lit "checked", lit "")]
                       [])
     = true
  /\ flatten_input sample_dom 4
     = Some (Dom [Tag 0 (lit "html") []
                    [Tag 1 (lit "body") [(lit "onload", lit "x()")]
                       [Tag 2 (lit "script") []
                          [NavigableString 3 (lit "alert(1)")];
                        NavigableString 7 (lit "[x] ");
                        Tag 5 (lit "p") [] [NavigableString 6 (lit "Hi")]]]]
                 8).
Proof.
  split; [apply well_formedb_sound; reflexivity|].
  exact (proj1 (native_inputs_flattened sample_dom
                  (well_formedb_sound sample_dom eq_refl))
           4 _ eq_refl eq_refl).
Defined.

(** ** The custom markers *)

Lemma startswith_prefix p s :
  startswith p s = true <-> exists after, s = p ++ after.
Proof.
  revert s. induction p as [|x p IH]; intros s.
  - split; [intros _; now exists s | reflexivity].
  - destruct s as [|y s]; cbn [startswith].
    + split; [discriminate | intros [after H]; discriminate].
    + rewrite andb_true_iff, N.eqb_eq, IH. split.
      * intros [-> [after ->]]. now exists after.
      * intros [after H]. injection H as -> ->. split; [reflexivity|].
        now exists after.
Qed.

(** [p in s] holds exactly when [p] occurs in [s]. *)
Lemma contains_occurs p s : contains p s = true <-> occurs p s.
Proof.
  split.
  - induction s as [|c s IH]; cbn [contains]; rewrite orb_true_iff.
    + intros [H|H]; [|discriminate].
      apply startswith_prefix in H as [after H]. now exists [], after.
    + intros [H|H].
      * apply startswith_prefix in H as [after H]. now exists [], after.
      * destruct (IH H) as (before & after & ->).
        now exists (c :: before), after.
  - intros (before & after & ->).
    induction before as [|c before IH].
    + assert (H : startswith p (p ++ after) = true)
        by (apply startswith_prefix; now exists after).
      cbn [app]. destruct (p ++ after); cbn [contains]; now rewrite H.
    + cbn [app contains]. rewrite IH. apply orb_true_r.
Qed.

Lemma contains_not_occurs p s : contains p s = false <-> ~ occurs p s.
Proof.
  rewrite <- contains_occurs. now destruct (contains p s).
Qed.

Lemma has_class_of_class cls n :
  has_class cls n = true <-> of_class cls n.
Proof.
  unfold has_class, of_class. rewrite andb_true_iff, existsb_exists.
  split.
  - intros [H (x & Hx & E)]. apply eqb_eq in E. now subst x.
  - intros [H Hin]. split; [exact H|]. exists cls. split; [exact Hin|].
    apply eqb_refl.
Qed.

Lemma find_first_such {A : Type} (f : A -> bool) (P : A -> Prop) l x :
  (forall y, f y = true <-> P y) ->
  find f l = Some x <-> first_such P l x.
Proof.
  intros HP. split.
  - induction l as [|y l IH]; [discriminate|]. cbn [find].
    destruct (f y) eqn:E.
    + intros H. injection H as ->. exists [], l.
      split; [reflexivity|]. split; [now apply HP|]. intros y [].
    + intros H. destruct (IH H) as (before & after & -> & Hx & Hb).
      exists (y :: before), after. split; [reflexivity|].
      split; [exact Hx|]. intros z [<-|Hz]; [|now apply Hb].
      intros Hy. apply HP in Hy. congruence.
  - intros (before & after & -> & Hx & Hb).
    induction before as [|y before IH]; cbn [app find].
    + apply HP in Hx. now rewrite Hx.
    + destruct (f y) eqn:E.
      * exfalso. apply (Hb y); [now left | now apply HP].
      * apply IH. intros z Hz. apply Hb. now right.
Qed.

Lemma find_none_such {A : Type} (f : A -> bool) (P : A -> Prop) l :
  (forall y, f y = true <-> P y) ->
  find f l = None <-> forall y, In y l -> ~ P y.
Proof.
  intros HP. split.
  - intros H y Hy Py. apply HP in Py.
    now rewrite (find_none f l H y Hy) in Py.
  - induction l as [|y l IH]; [reflexivity|]. intros H. cbn [find].
    destruct (f y) eqn:E.
    + exfalso. apply (H y); [now left | now apply HP].
    + apply IH. intros z Hz. apply H. now right.
Qed.

Lemma select_one_first cls marker inner :
  select_one cls marker = Some inner <-> first_of_class cls marker inner.
Proof.
  apply find_first_such. intros y. apply has_class_of_class.
Qed.

Lemma select_one_none cls marker :
  select_one cls marker = None <-> none_of_class cls marker.
Proof.
  apply find_none_such. intros y. apply has_class_of_class.
Qed.

Lemma first_some_indicator marker inner :
  first_some (fun sel => select_one sel marker)
    [lit "fa"; lit "uu-coursekit-result-state-background";
     lit "uu-coursekit-wrong-state-background"] = Some inner
  <-> inner_indicator marker inner.
Proof.
  unfold inner_indicator. cbn [first_some].
  rewrite <- !select_one_first, <- !select_one_none.
  destruct (select_one (lit "fa") marker) as [a|].
  { split; [now left|].
    intros [H|[[H _]|[H _]]]; [exact H|discriminate|discriminate]. }
  destruct (select_one (lit "uu-coursekit-result-state-background") marker)
    as [b|].
  { split; [intros H; right; left; now split|].
    intros [H|[[_ H]|[_ [H _]]]]; [discriminate|exact H|discriminate]. }
  destruct (select_one (lit "uu-coursekit-wrong-state-background") marker)
    as [c|].
  { split; [intros H; right; right; now repeat split|].
    intros [H|[[_ H]|[_ [_ H]]]]; [discriminate|discriminate|exact H]. }
  split; [discriminate|].
  intros [H|[[_ H]|[_ [_ H]]]]; discriminate.
Qed.

Lemma first_some_no_indicator marker :
  first_some (fun sel => select_one sel marker)
    [lit "fa"; lit "uu-coursekit-result-state-background";
     lit "uu-coursekit-wrong-state-background"] = None
  <-> no_inner_indicator marker.
Proof.
  unfold no_inner_indicator. cbn [first_some].
  rewrite <- !select_one_none.
  destruct (select_one (lit "fa") marker) as [a|];
    [split; [discriminate | intros [H _]; discriminate]|].
  destruct (select_one (lit "uu-coursekit-result-state-background") marker)
    as [b|];
    [split; [discriminate | intros [_ [H _]]; discriminate]|].
  destruct (select_one (lit "uu-coursekit-wrong-state-background") marker)
    as [c|];
    [split; [discriminate | intros [_ [_ H]]; discriminate]|].
  split; [intros H; now repeat split | reflexivity].
Qed.

(** The shape that [is_checked_marker] returns. *)
Lemma is_checked_marker_shape t marker_span :
  is_radio_text (snd (is_checked_marker t marker_span))
  = spec_is_radio marker_span
  /\ is_checkbox_text (snd (is_checked_marker t marker_span))
     = negb (spec_is_radio marker_span).
Proof.
  unfold is_checked_marker, spec_is_radio.
  set (style := lower (get_or_empty marker_span (lit "style"))).
  destruct (contains (lit "border-radius: 100%") style
            || contains (lit "border-radius:100%") style
            || contains (lit "width: 32px") style);
    (destruct (contains (lit "result-state") _); [now split|]);
    (destruct (first_some _ _); [now split|]);
    (destruct (find_next_sibling _ _ _); [|now split]);
    destruct (contains (lit "opacity: 0.6") _ || contains (lit "opacity:.6") _);
    now split.
Qed.

(** The state that [is_checked_marker] returns. *)
Lemma is_checked_marker_state t marker_span :
  fst (is_checked_marker t marker_span)
  = if contains (lit "result-state")
         (lower (join (lit " ") (get_list marker_span (lit "class"))))
    then true
    else match first_some (fun sel => select_one sel marker_span)
                 [lit "fa"; lit "uu-coursekit-result-state-background";
                  lit "uu-coursekit-wrong-state-background"] with
         | Some inner =>
           negb (contains (lit "visibility: hidden")
                   (lower (get_or_empty inner (lit "style"))))
         | None => false
         end.
Proof.
  unfold is_checked_marker.
  destruct (contains (lit "result-state") _); [reflexivity|].
  destruct (first_some _ _); [reflexivity|].
  destruct (find_next_sibling _ _ _); [|reflexivity].
  now destruct (contains (lit "opacity: 0.6") _ || contains (lit "opacity:.6") _).
Qed.

Lemma lower_app a b : lower (a ++ b) = lower a ++ lower b.
Proof. unfold lower. apply flat_map_app. Qed.

Lemma occurs_lower p s : occurs p s -> occurs (lower p) (lower s).
Proof.
  intros (before & after & ->). exists (lower before), (lower after).
  now rewrite !lower_app.
Qed.

Lemma occurs_join sep tok l : In tok l -> occurs tok (join sep l).
Proof.
  induction l as [|x [|y rest] IH]; intros H; [destruct H|..].
  - destruct H as [->|[]]. exists [], []. cbn [join app].
    now rewrite app_nil_r.
  - change (join sep (x :: y :: rest))
      with (x ++ sep ++ join sep (y :: rest)).
    destruct H as [->|H].
    + exists [], (sep ++ join sep (y :: rest)). reflexivity.
    + destruct (IH H) as (before & after & E). rewrite E.
      exists (x ++ sep ++ before), after. now rewrite <- !app_assoc.
Qed.

(** C3.  [is_checked_marker] follows this precedence, for every marker and
    tree.  The shape is radio exactly when the lower-cased inline style
    holds the text [border-radius: 100%], [border-radius:100%] or
    [width: 32px]; otherwise it is checkbox.  The marker is checked when
    the text [result-state] occurs anywhere in its lower-cased class list
    joined by blanks, and so whenever one of its classes, lower-cased, is
    [result-state]; otherwise, with an inner indicator, it is unchecked
    exactly when the lower-cased style of the indicator holds
    [visibility: hidden]; otherwise it is unchecked, whatever the
    sibling div.  Either there is an inner indicator or there is none. *)
Theorem is_checked_marker_precedence (t : list node) (marker_span : node) :
  let style := lower (get_or_empty marker_span (lit "style")) in
  let classes :=
    lower (join (lit " ") (get_list marker_span (lit "class"))) in
  let checked := fst (is_checked_marker t marker_span) in
  let base_marker := snd (is_checked_marker t marker_span) in
  (is_radio_text base_marker = true <->
   occurs (lit "border-radius: 100%") style
   \/ occurs (lit "border-radius:100%") style
   \/ occurs (lit "width: 32px") style)
  /\ is_checkbox_text base_marker = negb (is_radio_text base_marker)
  /\ (occurs (lit "result-state") classes -> checked = true)
  /\ (forall class,
        In class (get_list marker_span (lit "class")) ->
        lower class = lit "result-state" -> checked = true)
  /\ (~ occurs (lit "result-state") classes ->
      forall inner,
        inner_indicator marker_span inner ->
        (checked = false <->
         occurs (lit "visibility: hidden")
           (lower (get_or_empty inner (lit "style")))))
  /\ (~ occurs (lit "result-state") classes ->
      no_inner_indicator marker_span -> checked = false)
  /\ ((exists inner, inner_indicator marker_span inner)
      \/ no_inner_indicator marker_span).
Proof.
  intros style classes checked base_marker.
  destruct (is_checked_marker_shape t marker_span) as [Hradio Hbox].
  pose proof (is_checked_marker_state t marker_span) as Hstate.
  fold checked in Hstate. fold base_marker in Hradio, Hbox.
  fold classes in Hstate.
  assert (Hclass : occurs (lit "result-state") classes -> checked = true).
  { intros H. apply contains_occurs in H. now rewrite H in Hstate. }
  split.
  { rewrite Hradio. unfold spec_is_radio. fold style.
    rewrite !orb_true_iff, !contains_occurs. tauto. }
  split; [now rewrite Hbox, Hradio|].
  split; [exact Hclass|].
  split.
  { intros class Hin Hlow. apply Hclass. unfold classes.
    rewrite <- Hlow. apply occurs_lower. now apply occurs_join. }
  split.
  { intros Hno inner Hin. apply contains_not_occurs in Hno.
    rewrite Hno in Hstate. apply first_some_indicator in Hin.
    rewrite Hin in Hstate. rewrite Hstate, negb_false_iff.
    apply contains_occurs. }
  split.
  { intros Hno Hnone. apply contains_not_occurs in Hno.
    rewrite Hno in Hstate. apply first_some_no_indicator in Hnone.
    now rewrite Hnone in Hstate. }
  destruct (first_some (fun sel => select_one sel marker_span)
              [lit "fa"; lit "uu-coursekit-result-state-background";
               lit "uu-coursekit-wrong-state-background"])
    as [inner|] eqn:E.
  - left. exists inner. now apply first_some_indicator.
  - right. now apply first_some_no_indicator.
Qed.

(** C3 as the specification words it, with the class list holding the
    class [result-state], fails for a marker of class
    [uu-coursekit-result-state] with a hidden icon: none of its classes
    is [result-state] and its inner indicator is hidden, which makes it
    unchecked, while [is_checked_marker] finds the text [result-state] in
    the class and returns checked. *)
Lemma result_state_token_counterexample :
  ~ (forall t marker_span,
        fst (is_checked_marker t marker_span)
        = claim_is_checked t marker_span).
Proof.
  intros H.
  specialize (H (tree result_state_dom)
                (Tag 2 (lit "span")
                   [(lit "class", lit "uu-coursekit-result-state")]
                   [Tag 3 (lit "i")
                      [(lit "class", lit "fa");
                       (lit "style", lit "visibility: hidden")] []])).
  vm_compute in H. discriminate.
Qed.

(** C4.  Whatever path the classification takes, the text emitted for a
    marker span is one of the four literals of the native inputs: the
    checked glyph of its shape when checked, and exactly [[ ] ] or [( ) ]
    when unchecked. *)
Theorem marker_text_literals (t : list node) (marker_span : node) :
  marker_text (fst (is_checked_marker t marker_span))
    (snd (is_checked_marker t marker_span))
  = if spec_is_radio marker_span
    then (if fst (is_checked_marker t marker_span)
          then [40; 8226; 41; 32]%N else lit "( ) ")
    else (if fst (is_checked_marker t marker_span)
          then lit "[x] " else lit "[ ] ").
Proof.
  unfold is_checked_marker, spec_is_radio.
  set (style := lower (get_or_empty marker_span (lit "style"))).
  destruct (contains (lit "border-radius: 100%") style
            || contains (lit "border-radius:100%") style
            || contains (lit "width: 32px") style);
    (destruct (contains (lit "result-state") _); [reflexivity|]);
    (destruct (first_some _ _);
      [cbn [fst snd]; destruct (negb _); reflexivity|]);
    (destruct (find_next_sibling _ _ _); [|reflexivity]);
    destruct (contains (lit "opacity: 0.6") _ || contains (lit "opacity:.6") _);
    reflexivity.
Qed.

(** ** The analyzer *)

Lemma fold_left_add {A : Type} (g : A -> Z) (l : list A) (acc : Z) :
  fold_left (fun a x => (a + g x)%Z) l acc = (acc + sum_Z (map g l))%Z.
Proof.
  revert acc. induction l as [|x l IH]; intros acc; simpl.
  - lia.
  - rewrite IH. lia.
Qed.

Lemma count_data_uri_sum s acc :
  count_data_uri s acc = (acc + uri_bytes s)%Z.
Proof.
  unfold count_data_uri, uri_bytes. destruct s as [|c s].
  - simpl. lia.
  - apply fold_left_add.
Qed.

Lemma sum_Z_cons x l : sum_Z (x :: l) = (x + sum_Z l)%Z.
Proof. reflexivity. Qed.

Lemma sum_Z_app l1 l2 : sum_Z (l1 ++ l2) = (sum_Z l1 + sum_Z l2)%Z.
Proof. induction l1 as [|x l1 IH]; simpl; lia. Qed.

Lemma count_image_step c img :
  count_image c img
  = if is_data_image img
    then Counters (c_data_uri_bytes c + uri_bytes (resolved_src img))
                  (c_images_count c + 1)
    else c.
Proof.
  unfold count_image, is_data_image, resolved_src.
  destruct (get_or img (lit "src") (lit "srcset")) as [[|x src]|];
    try reflexivity.
  destruct (startswith (lit "data:") (x :: src)); [|reflexivity].
  now rewrite count_data_uri_sum.
Qed.

Lemma fold_left_count_image (l : list node) :
  forall c,
    fold_left count_image l c
    = Counters
        (c_data_uri_bytes c
         + sum_Z (map (fun img => uri_bytes (resolved_src img))
                    (filter is_data_image l)))
        (c_images_count c + len_list (filter is_data_image l)).
Proof.
  induction l as [|img l IH]; intros [b n].
  - cbn [fold_left filter map c_data_uri_bytes c_images_count].
    unfold len_list. cbn [length]. change (sum_Z []) with 0%Z. f_equal; lia.
  - cbn [fold_left filter]. rewrite IH, count_image_step.
    destruct (is_data_image img);
      cbn [c_data_uri_bytes c_images_count map]; [|reflexivity].
    rewrite sum_Z_cons. unfold len_list. cbn [length]. f_equal; lia.
Qed.

Lemma fold_left_count_style (l : list node) :
  forall c,
    fold_left count_style l c
    = Counters
        (c_data_uri_bytes c
         + sum_Z (map (fun el => uri_bytes (get_or_empty el (lit "style"))) l))
        (c_images_count c).
Proof.
  induction l as [|el l IH]; intros [b n];
    cbn [fold_left map c_data_uri_bytes c_images_count].
  - change (sum_Z []) with 0%Z. f_equal; lia.
  - rewrite IH, sum_Z_cons. unfold count_style, get_or_empty.
    destruct (get el (lit "style")) as [[|x v]|];
      cbn [c_data_uri_bytes c_images_count];
      rewrite ?count_data_uri_sum; change (uri_bytes []) with 0%Z;
      f_equal; lia.
Qed.

(** C6, as the code has it.  [data_uri_bytes] is the sum of the payload
    sizes of the data URIs found in the source of every [img] or [source]
    whose source ([src], or [srcset] when [src] is missing or empty) starts
    with [data:], and in the style attribute of every element;
    [images_count] is the number of those images. *)
Theorem data_uri_metrics
  (minify : str -> str) (BeautifulSoup : str -> dom) (html : str) :
  data_uri_bytes (analyze_html minify BeautifulSoup html)
  = scanned_data_uri_bytes (tree (BeautifulSoup html))
  /\ images_count (analyze_html minify BeautifulSoup html)
     = data_images_count (tree (BeautifulSoup html)).
Proof.
  unfold analyze_html, count_data_uris. cbn [data_uri_bytes images_count].
  rewrite fold_left_count_style, fold_left_count_image.
  cbn [c_data_uri_bytes c_images_count].
  unfold scanned_data_uri_bytes, data_images_count, style_uri_bytes, images.
  split; lia.
Qed.

(** C6, as the specification words it, fails on an image whose address
    holds a data URI further on: the analyzer counts 0 bytes, the sum over
    every data URI found in the [src] is 3. *)
Lemma data_uri_metrics_counterexample :
  data_uri_bytes
    (analyze_html (fun s => s) (fun _ => linked_image_dom) linked_image_html)
  <> claimed_data_uri_bytes (tree linked_image_dom).
Proof. vm_compute. discriminate. Qed.

Lemma Qfloor_three_quarters (n : Z) :
  Qfloor (Qmult (inject_Z n) (Qmake 3 4)) = (3 * n / 4)%Z.
Proof.
  unfold Qfloor, Qmult, inject_Z. cbn [Qnum Qden Pos.mul].
  now rewrite Z.mul_comm.
Qed.

(** C7.  A payload that the base64 decoder rejects does not stop the
    count: it adds exactly the integer part of three quarters of its
    length, and the payloads around it are counted as usual. *)
Theorem malformed_payload_estimate
  (s : str) (data_uri_bytes0 : Z) (before after : list str) (b64 : str) :
  finditer s = before ++ b64 :: after ->
  b64decode b64 = None ->
  payload_bytes b64 = (3 * len b64 / 4)%Z
  /\ count_data_uri s data_uri_bytes0
     = (data_uri_bytes0 + sum_Z (map payload_bytes before)
        + 3 * len b64 / 4 + sum_Z (map payload_bytes after))%Z.
Proof.
  intros Hs Hfail.
  assert (Hp : payload_bytes b64 = (3 * len b64 / 4)%Z).
  { unfold payload_bytes. rewrite Hfail. apply Qfloor_three_quarters. }
  split; [exact Hp|].
  rewrite count_data_uri_sum. unfold uri_bytes.
  rewrite Hs, map_app, sum_Z_app. cbn [map]. rewrite sum_Z_cons, Hp. lia.
Qed.

Lemma malformed_payload_estimate_witness :
  finditer (lit "data:image/png;base64,QUJ") = [] ++ lit "QUJ" :: []
  /\ b64decode (lit "QUJ") = None
  /\ payload_bytes (lit "QUJ") = 2%Z
  /\ count_data_uri (lit "data:image/png;base64,QUJ") 10 = 12%Z.
Proof.
  split; [reflexivity|]. split; [reflexivity|].
  exact (malformed_payload_estimate (lit "data:image/png;base64,QUJ") 10
           [] [] (lit "QUJ") eq_refl eq_refl).
Defined.

(** C8, with the numbers the code gives.  On the example document the
    comment [c] is 1 byte, the style value [color:red] is 9 bytes, the
    visible text [Hi] is 2 characters and there is no script. *)
Theorem example_report
  (minify : str -> str) (BeautifulSoup : str -> dom) :
  BeautifulSoup example_html = example_dom ->
  comments_bytes (analyze_html minify BeautifulSoup example_html) = 1%Z
  /\ inline_style_attr_bytes (analyze_html minify BeautifulSoup example_html)
     = 9%Z
  /\ text_chars (analyze_html minify BeautifulSoup example_html) = 2%Z
  /\ scripts_bytes (analyze_html minify BeautifulSoup example_html) = 0%Z.
Proof.
  intros H. unfold analyze_html. rewrite H.
  cbn [comments_bytes inline_style_attr_bytes text_chars scripts_bytes].
  repeat split; reflexivity.
Qed.

Lemma example_report_witness :
  (fun _ : str => example_dom) example_html = example_dom
  /\ comments_bytes
       (analyze_html (fun s => s) (fun _ => example_dom) example_html) = 1%Z.
Proof.
  split; [reflexivity|].
  exact (proj1 (example_report (fun s => s) (fun _ => example_dom) eq_refl)).
Defined.

(** C8, with the numbers of the specification, fails: the report has 1 and
    9 where the specification has 3 and 10. *)
Lemma example_report_counterexample :
  ~ (comments_bytes
       (analyze_html (fun s => s) (fun _ => example_dom) example_html) = 3%Z
     /\ inline_style_attr_bytes
          (analyze_html (fun s => s) (fun _ => example_dom) example_html)
        = 10%Z
     /\ text_chars
          (analyze_html (fun s => s) (fun _ => example_dom) example_html)
        = 2%Z
     /\ scripts_bytes
          (analyze_html (fun s => s) (fun _ => example_dom) example_html)
        = 0%Z).
Proof. intros [H _]. vm_compute in H. discriminate. Qed.

(** ** The sizes in the report *)

Lemma len_bytes_cons c s : _len_bytes (c :: s) = (utf8_width c + _len_bytes s)%Z.
Proof. reflexivity. Qed.

Lemma utf8_width_range c : (0 <= utf8_width c <= 4)%Z.
Proof.
  unfold utf8_width.
  repeat match goal with |- context [if ?b then _ else _] => destruct b end;
    lia.
Qed.

Lemma len_bytes_nonneg s : (0 <= _len_bytes s)%Z.
Proof.
  induction s as [|c s IH]; [simpl; lia|].
  rewrite len_bytes_cons. pose proof (utf8_width_range c). lia.
Qed.

Lemma len_cons {A : Type} (x : A) (l : list A) :
  Z.of_nat (length (x :: l)) = (1 + Z.of_nat (length l))%Z.
Proof. cbn [length]. lia. Qed.

Ltac to_prop :=
  repeat match goal with
  | H : (_ && _)%bool = true |- _ => apply andb_true_iff in H as [? ?]
  | H : (_ <? _)%N = true |- _ => apply N.ltb_lt in H
  | H : (_ <? _)%N = false |- _ => apply N.ltb_ge in H
  | H : (_ <=? _)%N = true |- _ => apply N.leb_le in H
  | H : (_ <=? _)%N = false |- _ => apply N.leb_gt in H
  | H : (_ =? _)%N = true |- _ => apply N.eqb_eq in H
  | H : (_ =? _)%N = false |- _ => apply N.eqb_neq in H
  end.

Ltac split_ifs :=
  repeat match goal with
  | |- context [if ?b then _ else _] =>
    let E := fresh "E" in destruct b eqn:E
  end.

Lemma width_one b0 : (b0 <? 128)%N = true -> utf8_width b0 = 1%Z.
Proof. intros H. unfold utf8_width. now rewrite H. Qed.

Lemma width_two b0 b1 :
  (b0 <? 194)%N = false -> (b0 <? 224)%N = true -> is_continuation b1 = true ->
  utf8_width ((b0 - 192) * 64 + (b1 - 128)) = 2%Z.
Proof.
  unfold is_continuation, utf8_width. intros H0 H1 H2. to_prop.
  split_ifs; to_prop; try reflexivity; lia.
Qed.

Lemma width_three b0 b1 b2 :
  (b0 <? 224)%N = false -> (b0 <? 240)%N = true ->
  second_of_three b0 b1 = true -> is_continuation b2 = true ->
  utf8_width ((b0 - 224) * 4096 + (b1 - 128) * 64 + (b2 - 128)) = 3%Z.
Proof.
  unfold second_of_three, is_continuation, utf8_width. intros H0 H1 H2 H3.
  destruct (b0 =? 224)%N eqn:E1; [|destruct (b0 =? 237)%N eqn:E2];
    to_prop; split_ifs; to_prop; try reflexivity; lia.
Qed.

Lemma width_four b0 b1 b2 b3 :
  (b0 <? 240)%N = false -> (b0 <? 245)%N = true ->
  second_of_four b0 b1 = true -> is_continuation b2 = true ->
  is_continuation b3 = true ->
  utf8_width ((b0 - 240) * 262144 + (b1 - 128) * 4096 + (b2 - 128) * 64
              + (b3 - 128)) = 4%Z.
Proof.
  unfold second_of_four, is_continuation, utf8_width. intros H0 H1 H2 H3 H4.
  destruct (b0 =? 240)%N eqn:E1; [|destruct (b0 =? 244)%N eqn:E2];
    to_prop; split_ifs; to_prop; try reflexivity; lia.
Qed.

Ltac lengths := unfold len in *; cbn [length] in *; lia.

Ltac leaf_error IH r :=
  let s := fresh "s" in
  let Hs := fresh "Hs" in
  let Hle := fresh "Hle" in
  destruct (IH r ltac:(cbn [length] in *; lia)) as (s & Hs & Hle & _ & _);
  exists s; unfold decoded; cbn [on_error];
  split; [exact Hs|];
  split; [lengths|];
  split; [intros _; lengths|intros ? ?; discriminate].

Ltac leaf_end :=
  exists (@nil N); unfold decoded; cbn [on_error];
  split; [reflexivity|];
  split; [cbn [_len_bytes fold_right]; lengths|];
  split; [intros _; cbn [_len_bytes fold_right]; lengths
         |intros ? ?; discriminate].

Ltac leaf_emit IH r c Hw :=
  let s := fresh "s" in
  let Hs := fresh "Hs" in
  let Hle := fresh "Hle" in
  let Hstrict := fresh "Hstrict" in
  let Hvalid := fresh "Hvalid" in
  destruct (IH r ltac:(cbn [length] in *; lia))
    as (s & Hs & Hle & Hstrict & Hvalid);
  exists (c :: s); unfold decoded; rewrite Hs; cbn [emit];
  rewrite len_bytes_cons, Hw;
  split; [reflexivity|];
  split; [lengths|];
  split;
  [ intros H; destruct (utf8_decode true r); [discriminate|];
    specialize (Hstrict eq_refl); lengths
  | intros s' H; destruct (utf8_decode true r) as [s''|]; [|discriminate];
    cbn [emit] in H; injection H as <-;
    destruct (Hvalid s'' eq_refl) as [-> Heq];
    split; [reflexivity|lengths] ].

Lemma decoded_nil : decoded [] [].
Proof.
  unfold decoded. cbn [utf8_decode].
  split; [reflexivity|]. split; [cbn; lia|].
  split; [discriminate|]. intros s' H. injection H as <-. now split.
Qed.

Lemma utf8_decode_decoded (n : nat) :
  forall bs, length bs <= n -> exists s, decoded bs s.
Proof.
  induction n as [|n IH]; intros bs Hn.
  - destruct bs; [|cbn [length] in Hn; lia].
    exists []. apply decoded_nil.
  - destruct bs as [|b0 r0]; [exists []; apply decoded_nil|].
    unfold decoded. cbn [utf8_decode]. fold (decoded (b0 :: r0)).
    destruct (b0 <? 128)%N eqn:E0.
    { leaf_emit IH r0 b0 (width_one b0 E0). }
    destruct (b0 <? 194)%N eqn:E1.
    { leaf_error IH r0. }
    destruct (b0 <? 224)%N eqn:E2.
    { destruct r0 as [|b1 r1]; [leaf_end|].
      destruct (is_continuation b1) eqn:K1.
      - leaf_emit IH r1 ((b0 - 192) * 64 + (b1 - 128))%N
          (width_two b0 b1 E1 E2 K1).
      - leaf_error IH (b1 :: r1). }
    destruct (b0 <? 240)%N eqn:E3.
    { destruct r0 as [|b1 r1]; [leaf_end|].
      destruct (second_of_three b0 b1) eqn:K1; [|leaf_error IH (b1 :: r1)].
      destruct r1 as [|b2 r2]; [leaf_end|].
      destruct (is_continuation b2) eqn:K2.
      - leaf_emit IH r2 ((b0 - 224) * 4096 + (b1 - 128) * 64 + (b2 - 128))%N
          (width_three b0 b1 b2 E2 E3 K1 K2).
      - leaf_error IH (b2 :: r2). }
    destruct (b0 <? 245)%N eqn:E4; [|leaf_error IH r0].
    destruct r0 as [|b1 r1]; [leaf_end|].
    destruct (second_of_four b0 b1) eqn:K1; [|leaf_error IH (b1 :: r1)].
    destruct r1 as [|b2 r2]; [leaf_end|].
    destruct (is_continuation b2) eqn:K2; [|leaf_error IH (b2 :: r2)].
    destruct r2 as [|b3 r3]; [leaf_end|].
    destruct (is_continuation b3) eqn:K3; [|leaf_error IH (b3 :: r3)].
    leaf_emit IH r3 ((b0 - 240) * 262144 + (b1 - 128) * 4096
                     + (b2 - 128) * 64 + (b3 - 128))%N
      (width_four b0 b1 b2 b3 E3 E4 K1 K2 K3).
Qed.

Lemma decode_ignore_decoded bs : decoded bs (decode_ignore bs).
Proof.
  destruct (utf8_decode_decoded (length bs) bs (Nat.le_refl _)) as (s & Hs).
  unfold decode_ignore. destruct Hs as (Hs & Hrest). rewrite Hs.
  split; [exact Hs|exact Hrest].
Qed.

Lemma universal_newlines_bound (n : nat) :
  forall s, length s <= n ->
            (_len_bytes (universal_newlines s) <= _len_bytes s)%Z.
Proof.
  induction n as [|n IH]; intros s Hn.
  - destruct s; [cbn; lia|cbn [length] in Hn; lia].
  - destruct s as [|c s']; [cbn; lia|].
    cbn [universal_newlines]. destruct (c =? 13)%N eqn:E.
    + apply N.eqb_eq in E. subst c. rewrite !len_bytes_cons.
      change (utf8_width 13) with 1%Z. change (utf8_width 10) with 1%Z.
      destruct s' as [|c' s'']; [lia|].
      destruct (c' =? 10)%N.
      * pose proof (IH s'' ltac:(cbn [length] in Hn; lia)).
        rewrite len_bytes_cons. pose proof (utf8_width_range c'). lia.
      * pose proof (IH (c' :: s'') ltac:(cbn [length] in *; lia)). lia.
    + rewrite !len_bytes_cons.
      pose proof (IH s' ltac:(cbn [length] in Hn; lia)). lia.
Qed.

Lemma read_text_size bs :
  (_len_bytes (read_text bs) <= len bs)%Z
  /\ (utf8_decode true bs = None -> (_len_bytes (read_text bs) < len bs)%Z).
Proof.
  destruct (decode_ignore_decoded bs) as (_ & Hle & Hstrict & _).
  pose proof (universal_newlines_bound (length (decode_ignore bs))
                (decode_ignore bs) (Nat.le_refl _)) as Hnl.
  unfold read_text. split; [lia|]. intros H. specialize (Hstrict H). lia.
Qed.

Lemma read_file_write_file fs p bs : read_file (write_file fs p bs) p = Some bs.
Proof. unfold write_file. cbn [read_file]. now rewrite eqb_refl. Qed.

Lemma process_file_report minify BeautifulSoup to_str fs path mode output
  keep_images flatten_inputs bs report in_path out_path fs' :
  read_file fs path = Some bs ->
  process_file minify BeautifulSoup to_str fs path mode output keep_images
    flatten_inputs = Some (report, in_path, out_path, fs') ->
  report = analyze_html minify BeautifulSoup (read_text bs)
  /\ forall p, out_path = Some p ->
       exists out_html out_bytes,
         utf8_encode out_html = Some out_bytes
         /\ fs' = write_file fs p out_bytes.
Proof.
  intros Hread H. unfold process_file in H. rewrite Hread in H.
  cbn [bind] in H.
  destruct (eqb mode (lit "analyze")).
  - injection H as <- _ <- _. split; [reflexivity|]. intros p Hp. discriminate.
  - match type of H with
    | bind ?m _ = _ => destruct m as [out_html|]; [|discriminate]
    end.
    cbn [bind] in H.
    destruct (utf8_encode out_html) as [out_bytes|] eqn:Henc; [|discriminate].
    cbn [bind] in H. injection H as <- _ <- <-.
    split; [reflexivity|]. intros p Hp. injection Hp as <-.
    exists out_html, out_bytes. now split.
Qed.

Lemma process_file_paths minify BeautifulSoup to_str fs path mode output
  keep_images flatten_inputs report in_path out_path fs' :
  process_file minify BeautifulSoup to_str fs path mode output keep_images
    flatten_inputs = Some (report, in_path, out_path, fs') ->
  in_path = path /\ (out_path = None -> mode = lit "analyze").
Proof.
  intros H. unfold process_file in H.
  destruct (read_file fs path) as [bs|]; [|discriminate].
  cbn [bind] in H.
  destruct (eqb mode (lit "analyze")) eqn:E.
  - injection H as _ <- _ _. split; [reflexivity|].
    intros _. now apply eqb_eq.
  - match type of H with
    | bind ?m _ = _ => destruct m as [out_html|]; [|discriminate]
    end.
    cbn [bind] in H.
    destruct (utf8_encode out_html) as [out_bytes|]; [|discriminate].
    cbn [bind] in H. injection H as _ <- <- _.
    split; [reflexivity|discriminate].
Qed.

(** C10.  Whenever [main] returns for a file holding the bytes [bs], in
    any mode, the reported file size is the UTF-8 length of the text read
    from the file, with the undecodable bytes dropped, and not the size on
    disk: it never exceeds the size on disk and is smaller for a file with
    undecodable bytes.  In [analyze] mode, and only then, there is no
    output block.  Otherwise the block names the file that [process_file]
    wrote, its new size is the size of that file on disk, the saved bytes
    are the reported file size less that size, the percentage is their
    quotient as a double times 100 (the [int] 0 for an empty input), and
    for a file with undecodable bytes the saved bytes are fewer than the
    bytes saved on disk. *)
Theorem reported_savings
  (minify : str -> str) (BeautifulSoup : str -> dom)
  (to_str : list node -> str)
  (fs : filesystem) (input mode : str) (output : option str)
  (keep_images flatten_inputs : bool)
  (bs : list N) (report : SizeReport) (block : option output_block) :
  read_file fs input = Some bs ->
  main minify BeautifulSoup to_str fs input mode output keep_images
    flatten_inputs = Some (report, block) ->
  file_size report = _len_bytes (universal_newlines (decode_ignore bs))
  /\ (file_size report <= len bs)%Z
  /\ (utf8_decode true bs = None -> (file_size report < len bs)%Z)
  /\ exists out_path fs',
       process_file minify BeautifulSoup to_str fs input mode output
         keep_images flatten_inputs = Some (report, input, out_path, fs')
       /\ match block with
          | None => out_path = None /\ mode = lit "analyze"
          | Some b =>
            exists written,
              out_path = Some (wrote b)
              /\ fs' = write_file fs (wrote b) written
              /\ read_file fs' (wrote b) = Some written
              /\ new_size b = len written
              /\ savings b = (file_size report - len written)%Z
              /\ (file_size report = 0%Z -> pct b = Int 0)
              /\ (file_size report <> 0%Z ->
                  exists q,
                    truediv (file_size report - len written)
                      (file_size report) = Some q
                    /\ pct b = Float (times_100 q))
              /\ (utf8_decode true bs = None ->
                  (savings b < len bs - len written)%Z)
          end.
Proof.
  intros Hread Hmain. unfold main in Hmain. rewrite Hread in Hmain.
  cbn [bind] in Hmain.
  destruct (process_file minify BeautifulSoup to_str fs input mode output
              keep_images flatten_inputs)
    as [[[[report' in_path] out_path] fs']|] eqn:Hp; [|discriminate].
  cbn [bind] in Hmain.
  destruct (process_file_report _ _ _ _ _ _ _ _ _ _ _ _ _ _ Hread Hp)
    as (Hreport & Hout).
  destruct (process_file_paths _ _ _ _ _ _ _ _ _ _ _ _ _ Hp)
    as (Hpath & Hnone).
  subst in_path.
  destruct (read_text_size bs) as [Hle Hlt]. unfold read_text in Hle, Hlt.
  assert (Hsize : file_size report'
                  = _len_bytes (universal_newlines (decode_ignore bs))).
  { rewrite Hreport. reflexivity. }
  destruct out_path as [p|].
  - destruct (Hout p eq_refl) as (out_html & out_bytes & Henc & Hfs).
    subst fs'. rewrite read_file_write_file in Hmain. cbn [bind] in Hmain.
    destruct (file_size report' =? 0)%Z eqn:Hzero.
    + cbn [bind] in Hmain. injection Hmain as <- <-.
      apply Z.eqb_eq in Hzero.
      split; [exact Hsize|]. split; [lia|]. split; [intros Hbad; specialize (Hlt Hbad); lia|].
      exists (Some p), (write_file fs p out_bytes). split; [reflexivity|].
      exists out_bytes. cbn [wrote new_size savings pct].
      split; [reflexivity|]. split; [reflexivity|].
      split; [apply read_file_write_file|].
      split; [reflexivity|]. split; [reflexivity|].
      split; [reflexivity|]. split; [intros Hne; contradiction|].
      intros Hbad. specialize (Hlt Hbad). lia.
    + destruct (truediv (file_size report' - len out_bytes) (file_size report'))
        as [q|] eqn:Hq; [|discriminate].
      cbn [bind] in Hmain. injection Hmain as <- <-.
      apply Z.eqb_neq in Hzero.
      split; [exact Hsize|]. split; [lia|]. split; [intros Hbad; specialize (Hlt Hbad); lia|].
      exists (Some p), (write_file fs p out_bytes). split; [reflexivity|].
      exists out_bytes. cbn [wrote new_size savings pct].
      split; [reflexivity|]. split; [reflexivity|].
      split; [apply read_file_write_file|].
      split; [reflexivity|]. split; [reflexivity|].
      split; [intros Hz; contradiction|].
      split; [intros _; exists q; now split|].
      intros Hbad. specialize (Hlt Hbad). lia.
  - injection Hmain as <- <-.
    split; [exact Hsize|]. split; [lia|]. split; [intros Hbad; specialize (Hlt Hbad); lia|].
    exists None, fs'. split; [reflexivity|]. split; [reflexivity|].
    now apply Hnone.
Qed.

Lemma reported_savings_witness :
  read_file [(lit "in.html", [60; 112; 62; 255; 10]%N)] (lit "in.html")
  = Some [60; 112; 62; 255; 10]%N
  /\ utf8_decode true [60; 112; 62; 255; 10]%N = None
  /\ exists report b,
       main (fun _ => lit "<p>") (fun _ => Dom [] 0) (fun _ => [])
         [(lit "in.html", [60; 112; 62; 255; 10]%N)] (lit "in.html")
         (lit "minify") None false false
       = Some (report, Some b)
       /\ file_size report = 4%Z
       /\ new_size b = 3%Z
       /\ savings b = 1%Z
       /\ pct b = Float (SpecFloat.S754_finite false 7036874417766400 (-48))
       /\ (savings b < len [60; 112; 62; 255; 10]%N - new_size b)%Z.
Proof.
  split; [reflexivity|]. split; [reflexivity|].
  eexists. eexists. split; [vm_compute; reflexivity|].
  destruct (reported_savings (fun _ => lit "<p>") (fun _ => Dom [] 0)
              (fun _ => []) [(lit "in.html", [60; 112; 62; 255; 10]%N)]
              (lit "in.html") (lit "minify") None false false
              [60; 112; 62; 255; 10]%N _ _ eq_refl eq_refl)
    as (Hsize & _ & _ & out_path & fs' & _ & written & _ & _ & _ & Hnew & _
        & _ & _ & Hless).
  split; [reflexivity|]. split; [reflexivity|]. split; [reflexivity|].
  split; [reflexivity|].
  pose proof (Hless eq_refl) as Hgoal. rewrite <- Hnew in Hgoal.
  exact Hgoal.
Defined.

(** ** The frame of one marker iteration *)

Lemma insert_before_app i new l1 l2 :
  insert_before i new (l1 ++ l2)
  = insert_before i new l1 ++ insert_before i new l2.
Proof. apply flat_map_app. Qed.

Lemma decompose_absent i t : cnt i t = 0 -> decompose i t = t.
Proof.
  forest_induction t; intros H.
  - reflexivity.
  - rewrite cnt_tag in H. rewrite decompose_tag.
    case_uid u i; [lia|]. cbn [app]. rewrite IHc, IHl by lia. reflexivity.
  - rewrite cnt_leaf in H by exact Hn. rewrite decompose_leaf by exact Hn.
    case_uid (uid n) i; [lia|]. cbn [app]. now rewrite IHl by lia.
Qed.

Lemma insert_before_absent i new t : cnt i t = 0 -> insert_before i new t = t.
Proof.
  forest_induction t; intros H.
  - reflexivity.
  - rewrite cnt_tag in H. rewrite insert_before_tag.
    case_uid u i; [lia|]. cbn [app]. rewrite IHc, IHl by lia. reflexivity.
  - rewrite cnt_leaf in H by exact Hn. rewrite insert_before_leaf by exact Hn.
    case_uid (uid n) i; [lia|]. cbn [app]. now rewrite IHl by lia.
Qed.

Lemma cnt_single x n :
  cnt x [n] = (if Nat.eqb (uid n) x then 1 else 0) + cnt x (contents n).
Proof.
  destruct n as [u nm a c| | |].
  - rewrite cnt_tag, cnt_nil. cbn [uid contents]. lia.
  - rewrite cnt_leaf by reflexivity. now rewrite cnt_nil.
  - rewrite cnt_leaf by reflexivity. now rewrite cnt_nil.
  - rewrite cnt_leaf by reflexivity. now rewrite cnt_nil.
Qed.

Lemma cnt_cons x n l : cnt x (n :: l) = cnt x [n] + cnt x l.
Proof. change (n :: l) with ([n] ++ l). apply cnt_app. Qed.

Lemma cnt_in_list x n l : In n l -> cnt x [n] <= cnt x l.
Proof.
  intros H. apply in_split in H as (l1 & l2 & ->).
  rewrite cnt_app, (cnt_cons x n l2). lia.
Qed.

Lemma in_descendants_top n t : In n t -> In n (descendants t).
Proof.
  intros H. apply in_split in H as (l1 & l2 & ->).
  rewrite descendants_app. apply in_or_app. right.
  destruct n; simpl; auto.
Qed.

Lemma in_descendants_child t :
  forall n x, In n (descendants t) -> In x (contents n) ->
              In x (descendants t).
Proof.
  forest_induction t; intros m x Hm Hx.
  - contradiction.
  - rewrite descendants_tag in *. destruct Hm as [<-|Hm].
    + right. apply in_or_app. left. now apply in_descendants_top.
    + right. apply in_app_or in Hm as [Hm|Hm]; apply in_or_app.
      * left. now apply (IHc m).
      * right. now apply (IHl m).
  - rewrite descendants_leaf in * by exact Hn. destruct Hm as [<-|Hm].
    + rewrite (contents_leaf _ Hn) in Hx. contradiction.
    + right. now apply (IHl m).
Qed.

Lemma cnt_descendant t :
  forall n x, In n (descendants t) -> cnt x [n] <= cnt x t.
Proof.
  forest_induction t; intros m x Hm.
  - contradiction.
  - rewrite descendants_tag in Hm. rewrite (cnt_tag x u nm a c l).
    destruct Hm as [<-|Hm].
    + rewrite cnt_tag, cnt_nil. lia.
    + apply in_app_or in Hm as [Hm|Hm].
      * specialize (IHc m x Hm). lia.
      * specialize (IHl m x Hm). lia.
  - rewrite descendants_leaf in Hm by exact Hn. rewrite (cnt_leaf x n l Hn).
    destruct Hm as [<-|Hm].
    + rewrite cnt_leaf, cnt_nil by exact Hn. lia.
    + specialize (IHl m x Hm). lia.
Qed.

Lemma sibling_list_sub t L :
  In L (sibling_lists t) ->
  (forall x, cnt x L <= cnt x t)
  /\ (forall n, In n L -> In n (descendants t)).
Proof.
  intros [<-|H].
  - split; [intros; apply Nat.le_refl|intros n; apply in_descendants_top].
  - apply in_map_iff in H as (p & <- & Hp). split.
    + intros x. pose proof (cnt_descendant t p x Hp) as H.
      rewrite cnt_single in H. lia.
    + intros n Hn. now apply (in_descendants_child t p).
Qed.

Lemma siblings_after_split i L s :
  siblings_after i L = Some s ->
  exists pre m, L = pre ++ m :: s /\ uid m = i.
Proof.
  revert s. induction L as [|n L IH]; intros s H; [discriminate|].
  cbn [siblings_after] in H. case_uid (uid n) i.
  - injection H as <-. now exists [], n.
  - destruct (IH s H) as (pre & m & -> & Hm). now exists (n :: pre), m.
Qed.

Lemma next_siblings_below_tag i u nm a c :
  next_siblings_below i (Tag u nm a c) = next_siblings i c.
Proof. reflexivity. Qed.

Lemma first_some_below i t :
  forall s, first_some (next_siblings_below i) t = Some s ->
            exists L, In L (map contents (descendants t))
                      /\ siblings_after i L = Some s.
Proof.
  forest_induction t; intros s H.
  - discriminate.
  - cbn [first_some] in H. rewrite next_siblings_below_tag in H.
    rewrite descendants_tag. cbn [map contents]. rewrite map_app.
    unfold next_siblings in H.
    destruct (siblings_after i c) as [s0|] eqn:Ec.
    + injection H as <-. exists c. split; [now left|exact Ec].
    + fold (first_some (next_siblings_below i)) in *.
      destruct (first_some (next_siblings_below i) c) as [s0|] eqn:Eb.
      * injection H as <-. destruct (IHc _ eq_refl) as (L & HL & Hs).
        exists L. split; [|exact Hs]. right. apply in_or_app. now left.
      * destruct (IHl _ H) as (L & HL & Hs).
        exists L. split; [|exact Hs]. right. apply in_or_app. now right.
  - cbn [first_some] in H.
    assert (Hb : next_siblings_below i n = None) by now destruct n.
    rewrite Hb in H. fold (first_some (next_siblings_below i)) in H.
    destruct (IHl _ H) as (L & HL & Hs).
    exists L. split; [|exact Hs].
    rewrite descendants_leaf by exact Hn. now right.
Qed.

Lemma next_siblings_list i t s :
  next_siblings i t = Some s ->
  exists L, In L (sibling_lists t) /\ siblings_after i L = Some s.
Proof.
  unfold next_siblings, sibling_lists. intros H.
  destruct (siblings_after i t) as [s0|] eqn:E.
  - injection H as <-. exists t. split; [now left|exact E].
  - destruct (first_some_below i t s H) as (L & HL & Hs).
    exists L. split; [now right|exact Hs].
Qed.

(** A following sibling shares no object with the node it follows. *)
Lemma sibling_disjoint t i marker s n :
  NoDup (uids t) -> find_node i t = Some marker ->
  next_siblings i t = Some s -> In n s ->
  In n (descendants t) /\ cnt i [n] = 0 /\ cnt (uid n) [marker] = 0.
Proof.
  intros Hnd Hfind Hs Hn.
  apply next_siblings_list in Hs as (L & HL & Hs).
  apply siblings_after_split in Hs as (pre & m & -> & Hm).
  destruct (sibling_list_sub t _ HL) as [Hcnt Hin].
  assert (Hmt : In m (descendants t)).
  { apply Hin. apply in_or_app. right. now left. }
  assert (Hnt : In n (descendants t)).
  { apply Hin. apply in_or_app. right. now right. }
  apply find_node_in in Hfind as [Hmarker Hu].
  assert (m = marker).
  { apply (nodup_uid_inj t); try assumption. congruence. }
  subst m. rewrite nodup_cnt in Hnd.
  assert (Hsum : forall x, cnt x [marker] + cnt x [n] <= 1).
  { intros x. specialize (Hcnt x). specialize (Hnd x).
    rewrite cnt_app, (cnt_cons x marker s) in Hcnt.
    pose proof (cnt_in_list x n s Hn). lia. }
  split; [exact Hnt|]. split.
  - specialize (Hsum i). rewrite (cnt_single i marker) in Hsum.
    rewrite Hu, Nat.eqb_refl in Hsum. lia.
  - specialize (Hsum (uid n)). rewrite (cnt_single (uid n) n) in Hsum.
    rewrite Nat.eqb_refl in Hsum. lia.
Qed.

(** A node without the object in its contents is kept as it is by an
    insertion before the object. *)
Lemma kept_by_insert_before j new t :
  forall n, In n (descendants t) -> cnt j (contents n) = 0 ->
            In n (descendants (insert_before j new t)).
Proof.
  forest_induction t; intros m Hm Hc.
  - contradiction.
  - rewrite insert_before_tag, descendants_app. apply in_or_app. right.
    rewrite descendants_tag in *. destruct Hm as [<-|Hm].
    + left. cbn [contents] in Hc. now rewrite insert_before_absent.
    + right. apply in_app_or in Hm as [Hm|Hm]; apply in_or_app.
      * left. now apply IHc.
      * right. now apply IHl.
  - rewrite insert_before_leaf, descendants_app by exact Hn.
    apply in_or_app. right.
    rewrite descendants_leaf in * by exact Hn. destruct Hm as [<-|Hm].
    + now left.
    + right. now apply IHl.
Qed.

(** A node that neither holds the object nor lies below it is kept as it is
    when the object is decomposed. *)
Lemma kept_by_decompose i t :
  forall n, In n (descendants t) -> cnt i [n] = 0 ->
            (forall a, In a (descendants t) -> uid a = i ->
                       ~ In n (descendants (contents a))) ->
            In n (descendants (decompose i t)).
Proof.
  forest_induction t; intros m Hm Hc Hout.
  - contradiction.
  - rewrite decompose_tag, descendants_app.
    rewrite descendants_tag in *. destruct Hm as [<-|Hm].
    + rewrite cnt_tag, cnt_nil in Hc.
      case_uid u i; [lia|]. apply in_or_app. left.
      rewrite decompose_absent by lia. now left.
    + apply in_app_or in Hm as [Hm|Hm]; apply in_or_app.
      * case_uid u i.
        -- exfalso. apply (Hout (Tag u nm a c)); [now left|exact E|exact Hm].
        -- left. rewrite descendants_tag. right. apply in_or_app. left.
           apply IHc; [exact Hm|exact Hc|].
           intros x Hx. apply Hout. right. apply in_or_app. now left.
      * right. apply IHl; [exact Hm|exact Hc|].
        intros x Hx. apply Hout. right. apply in_or_app. now right.
  - rewrite decompose_leaf, descendants_app by exact Hn.
    rewrite descendants_leaf in * by exact Hn. apply in_or_app.
    destruct Hm as [<-|Hm].
    + rewrite cnt_leaf, cnt_nil in Hc by exact Hn.
      case_uid (uid n) i; [lia|]. left.
      rewrite descendants_leaf by exact Hn. now left.
    + right. apply IHl; [exact Hm|exact Hc|].
      intros x Hx. apply Hout. now right.
Qed.

(** Decomposing one object and inserting before another can be done in
    either order. *)
Lemma decompose_insert_before_comm i j new t :
  is_tag new = false -> uid new <> i -> i <> j ->
  decompose i (insert_before j new t)
  = insert_before j new (decompose i t).
Proof.
  intros Hnew Hu Hij.
  assert (Hd : decompose i [new] = [new]).
  { rewrite decompose_leaf by exact Hnew.
    apply Nat.eqb_neq in Hu. now rewrite Hu. }
  forest_induction t.
  - reflexivity.
  - rewrite insert_before_tag, decompose_app, !decompose_tag,
      insert_before_app, IHc, IHl.
    case_uid u i.
    + subst u. apply Nat.eqb_neq in Hij. rewrite Hij. reflexivity.
    + rewrite insert_before_tag. cbn [insert_before flat_map app].
      destruct (Nat.eqb u j); [rewrite Hd|]; reflexivity.
  - rewrite insert_before_leaf, decompose_app, !decompose_leaf,
      insert_before_app, IHl by exact Hn.
    case_uid (uid n) i.
    + rewrite E. apply Nat.eqb_neq in Hij. rewrite Hij. reflexivity.
    + rewrite insert_before_leaf by exact Hn. cbn [insert_before flat_map app].
      destruct (Nat.eqb (uid n) j); [rewrite Hd|]; reflexivity.
Qed.

(** After the insertion the new node is the sibling just before the
    object. *)
Lemma adjacent_after_insert j new t :
  forall n, In n (descendants t) -> uid n = j -> cnt j (contents n) = 0 ->
    (exists pre post, insert_before j new t = pre ++ new :: n :: post)
    \/ (exists L pre post,
          In L (map contents (descendants (insert_before j new t)))
          /\ L = pre ++ new :: n :: post).
Proof.
  forest_induction t; intros m Hm Hu Hc.
  - contradiction.
  - rewrite insert_before_tag. rewrite descendants_tag in Hm.
    destruct Hm as [<-|Hm].
    + left. cbn [uid contents] in Hu, Hc. subst u.
      rewrite Nat.eqb_refl, insert_before_absent by exact Hc.
      now exists [], (insert_before j new l).
    + apply in_app_or in Hm as [Hm|Hm].
      * right. destruct (IHc m Hm Hu Hc)
          as [(pre & post & Heq)|(L & pre & post & HL & Heq)].
        -- exists (insert_before j new c), pre, post. split; [|exact Heq].
           rewrite descendants_app, map_app. apply in_or_app. right.
           rewrite descendants_tag. now left.
        -- exists L, pre, post. split; [|exact Heq].
           rewrite descendants_app, map_app. apply in_or_app. right.
           rewrite descendants_tag. cbn [map]. right.
           rewrite map_app. apply in_or_app. now left.
      * destruct (IHl m Hm Hu Hc)
          as [(pre & post & Heq)|(L & pre & post & HL & Heq)].
        -- left. rewrite Heq.
           exists ((if Nat.eqb u j then [new] else [])
                   ++ Tag u nm a (insert_before j new c) :: pre), post.
           now rewrite <- app_assoc.
        -- right. exists L, pre, post. split; [|exact Heq].
           rewrite descendants_app, map_app. apply in_or_app. right.
           rewrite descendants_tag. cbn [map]. right.
           rewrite map_app. apply in_or_app. now right.
  - rewrite insert_before_leaf by exact Hn.
    rewrite descendants_leaf in Hm by exact Hn.
    destruct Hm as [<-|Hm].
    + left. rewrite Hu, Nat.eqb_refl.
      now exists [], (insert_before j new l).
    + destruct (IHl m Hm Hu Hc)
        as [(pre & post & Heq)|(L & pre & post & HL & Heq)].
      * left. rewrite Heq.
        exists ((if Nat.eqb (uid n) j then [new] else []) ++ n :: pre), post.
        now rewrite <- app_assoc.
      * right. exists L, pre, post. split; [|exact Heq].
        rewrite descendants_app, map_app. apply in_or_app. right.
        rewrite descendants_leaf by exact Hn. now right.
Qed.

Lemma flatten_marker_skip_absent d i :
  find_node i (tree d) = None -> flatten_marker d i = d.
Proof. intros H. unfold flatten_marker. now rewrite H. Qed.

Lemma flatten_marker_skip_other d i span :
  find_node i (tree d) = Some span -> is_candidate span = false ->
  flatten_marker d i = d.
Proof.
  intros H Hc. unfold flatten_marker. rewrite H.
  unfold is_candidate in Hc. now rewrite Hc.
Qed.

Lemma flatten_marker_skip_alone d i span :
  find_node i (tree d) = Some span -> text_div i (tree d) = None ->
  flatten_marker d i = d.
Proof.
  intros H Ht. unfold flatten_marker. rewrite H.
  destruct (negb _); [reflexivity|]. unfold text_div in Ht.
  destruct (find_next_sibling i (lit "div") (tree d)) as [div|];
    [|reflexivity].
  destruct (get_text [] true (contents div)); [reflexivity|discriminate].
Qed.

Lemma flatten_marker_flattens d i span div :
  find_node i (tree d) = Some span -> is_candidate span = true ->
  text_div i (tree d) = Some div ->
  flatten_marker d i
  = Dom (decompose i
           (insert_before (uid div)
              (NavigableString (next_uid d)
                 (marker_text (fst (is_checked_marker (tree d) span))
                    (snd (is_checked_marker (tree d) span))))
              (tree d)))
        (S (next_uid d)).
Proof.
  intros H Hc Ht. unfold flatten_marker. rewrite H.
  unfold is_candidate in Hc. rewrite Hc. cbn [negb].
  unfold text_div in Ht.
  destruct (find_next_sibling i (lit "div") (tree d)) as [div'|];
    [|discriminate].
  destruct (get_text [] true (contents div')); [discriminate|].
  injection Ht as ->.
  now destruct (is_checked_marker (tree d) span).
Qed.

Lemma text_div_sibling i t div :
  text_div i t = Some div ->
  exists s, next_siblings i t = Some s /\ In div s.
Proof.
  unfold text_div, find_next_sibling. intros H.
  destruct (next_siblings i t) as [s|]; [|discriminate].
  destruct (find (named [lit "div"]) s) as [div'|] eqn:E; [|discriminate].
  destruct (get_text [] true (contents div')); [discriminate|].
  injection H as ->. exists s. split; [reflexivity|].
  now apply find_some in E as [E _].
Qed.

Lemma in_descendants_cnt n t : In n (descendants t) -> 0 < cnt (uid n) t.
Proof. intros H. now apply cnt_pos, in_uids. Qed.

(** One iteration of the loop over the spans.  The iteration of a span
    that is no longer in the tree, that is not a candidate or that has no
    sibling [div] with text leaves the whole tree as it is.  The iteration
    of a candidate with such a [div] removes the span, leaves the [div] and
    all it holds as they are, puts the marker text just before the [div],
    and keeps every node outside the span that holds neither the span nor
    the [div]. *)
Lemma flatten_marker_iteration (d : dom) (i : nat) :
  well_formed d ->
  (find_node i (tree d) = None -> flatten_marker d i = d)
  /\ forall span,
       find_node i (tree d) = Some span ->
       (is_candidate span = false -> flatten_marker d i = d)
       /\ (text_div i (tree d) = None -> flatten_marker d i = d)
       /\ forall div,
            is_candidate span = true -> text_div i (tree d) = Some div ->
            let text :=
              NavigableString (next_uid d)
                (marker_text (fst (is_checked_marker (tree d) span))
                   (snd (is_checked_marker (tree d) span))) in
            let t' := tree (flatten_marker d i) in
            find_node i t' = None
            /\ find_node (uid div) t' = Some div
            /\ (exists L pre post,
                  In L (sibling_lists t') /\ L = pre ++ text :: div :: post)
            /\ forall n,
                 In n (descendants (tree d)) ->
                 ~ In n (descendants [span]) ->
                 cnt i [n] = 0 -> cnt (uid div) (contents n) = 0 ->
                 In n (descendants t').
Proof.
  intros Hwf. split; [apply flatten_marker_skip_absent|].
  intros span Hfind.
  split; [now apply flatten_marker_skip_other|].
  split; [now apply (flatten_marker_skip_alone d i span)|].
  intros div Hcand Hdiv text t'.
  assert (Hwf' : well_formed (flatten_marker d i))
    by apply (flatten_marker_step d i Hwf).
  subst t'. rewrite (flatten_marker_flattens d i span div Hfind Hcand Hdiv) in *.
  fold text in Hwf' |- *. cbn [tree] in *.
  destruct d as [t k]. cbn [tree next_uid] in *.
  destruct (text_div_sibling i t div Hdiv) as (s & Hs & Hin).
  destruct (sibling_disjoint t i span s div (wf_nodup _ Hwf) Hfind Hs Hin)
    as (Hdt & Hi_div & Hj_span).
  pose proof (find_node_in i t span Hfind) as [Hspan Hui].
  pose proof (proj1 (nodup_cnt t) (wf_nodup _ Hwf)) as Hone.
  assert (Hij : i <> uid div).
  { intros E. rewrite (cnt_single i div) in Hi_div.
    rewrite <- E, Nat.eqb_refl in Hi_div. lia. }
  assert (Hj_div : cnt (uid div) (contents div) = 0).
  { pose proof (cnt_descendant t div (uid div) Hdt) as H.
    rewrite cnt_single, Nat.eqb_refl in H. specialize (Hone (uid div)). lia. }
  assert (Hik : k <> i).
  { pose proof (wf_fresh _ Hwf i) as H. cbn [tree next_uid] in H.
    rewrite <- Hui in *. specialize (H (in_uids span t Hspan)). lia. }
  assert (Hkeep : forall n,
             In n (descendants t) -> ~ In n (descendants [span]) ->
             cnt i [n] = 0 -> cnt (uid div) (contents n) = 0 ->
             In n (descendants (decompose i (insert_before (uid div) text t)))).
  { intros n Hn Hout Hci Hcj.
    rewrite decompose_insert_before_comm; [|reflexivity|exact Hik|exact Hij].
    apply kept_by_insert_before; [|exact Hcj].
    apply kept_by_decompose; [exact Hn|exact Hci|].
    intros a Ha Hua Hna. apply Hout.
    assert (a = span).
    { apply (nodup_uid_inj t); try assumption; [apply Hwf|congruence]. }
    subst a. destruct span; cbn [contents] in Hna; try contradiction.
    rewrite descendants_tag. right. apply in_or_app. now left. }
  assert (Hdiv_out : ~ In div (descendants [span])).
  { intros H. apply in_descendants_cnt in H. lia. }
  assert (Hdiv' : In div
            (descendants (decompose i (insert_before (uid div) text t))))
    by now apply Hkeep.
  split; [apply find_node_none, cnt_decompose_self|].
  split.
  { destruct (find_node_some (uid div)
                (decompose i (insert_before (uid div) text t)))
      as (n' & Hn' & Hin' & Hu').
    - now apply in_uids.
    - rewrite Hn'. f_equal.
      apply (nodup_uid_inj _ n' div (wf_nodup _ Hwf') Hin' Hdiv' Hu'). }
  split; [|exact Hkeep].
  rewrite decompose_insert_before_comm; [|reflexivity|exact Hik|exact Hij].
  assert (Hdec : In div (descendants (decompose i t))).
  { apply kept_by_decompose; [exact Hdt|exact Hi_div|].
    intros a Ha Hua Hna.
    assert (a = span).
    { apply (nodup_uid_inj t); try assumption; [apply Hwf|congruence]. }
    subst a. apply Hdiv_out.
    destruct span; cbn [contents] in Hna; try contradiction.
    rewrite descendants_tag. right. apply in_or_app. now left. }
  destruct (adjacent_after_insert (uid div) text (decompose i t) div Hdec
              eq_refl Hj_div)
    as [(pre & post & Heq)|(L & pre & post & HL & Heq)].
  - exists (insert_before (uid div) text (decompose i t)), pre, post.
    split; [now left|exact Heq].
  - exists L, pre, post. split; [now right|exact Heq].
Qed.

Lemma in_descendants_trans t :
  forall a n, In a (descendants t) -> In n (descendants [a]) ->
              In n (descendants t).
Proof.
  forest_induction t; intros a0 x Ha Hx.
  - contradiction.
  - rewrite descendants_tag in Ha |- *. destruct Ha as [<-|Ha].
    + rewrite descendants_tag in Hx. cbn [descendants flat_map] in Hx.
      rewrite app_nil_r in Hx. destruct Hx as [Hx|Hx]; [now left|].
      right. apply in_or_app. now left.
    + right. apply in_or_app. apply in_app_or in Ha as [Ha|Ha].
      * left. now apply (IHc a0).
      * right. now apply (IHl a0).
  - rewrite descendants_leaf in Ha |- * by exact Hn. destruct Ha as [<-|Ha].
    + rewrite descendants_leaf in Hx by exact Hn.
      destruct Hx as [Hx|[]]. now left.
    + right. now apply (IHl a0).
Qed.

(** A node of the tree keeps its name and attributes through [decompose],
    unless it is the object that leaves or lies in it. *)
Lemma kept_or_pruned i t :
  forall n, In n (descendants t) ->
  (exists n', In n' (descendants (decompose i t)) /\ shell n' = shell n)
  \/ (exists a, In a (descendants t) /\ uid a = i /\ In n (descendants [a])).
Proof.
  forest_induction t; intros x Hx.
  - contradiction.
  - rewrite decompose_tag. rewrite descendants_tag in Hx |- *.
    case_uid u i; cbn [app].
    + destruct Hx as [<-|Hx].
      * right. exists (Tag u nm a c). split; [now left|].
        split; [exact E|]. rewrite descendants_tag. now left.
      * apply in_app_or in Hx as [Hx|Hx].
        -- right. exists (Tag u nm a c). split; [now left|].
           split; [exact E|]. rewrite descendants_tag. right.
           apply in_or_app. now left.
        -- destruct (IHl x Hx) as [(n' & Hn' & Hs)|(a0 & Ha0 & Hu & Hin)].
           ++ left. now exists n'.
           ++ right. exists a0. split; [|now split].
              right. apply in_or_app. now right.
    + rewrite descendants_tag. destruct Hx as [<-|Hx].
      * left. exists (Tag u nm a (decompose i c)). split; [now left|reflexivity].
      * apply in_app_or in Hx as [Hx|Hx].
        -- destruct (IHc x Hx) as [(n' & Hn' & Hs)|(a0 & Ha0 & Hu & Hin)].
           ++ left. exists n'. split; [|exact Hs].
              right. apply in_or_app. now left.
           ++ right. exists a0. split; [|now split].
              right. apply in_or_app. now left.
        -- destruct (IHl x Hx) as [(n' & Hn' & Hs)|(a0 & Ha0 & Hu & Hin)].
           ++ left. exists n'. split; [|exact Hs].
              right. apply in_or_app. now right.
           ++ right. exists a0. split; [|now split].
              right. apply in_or_app. now right.
  - rewrite decompose_leaf by exact Hn.
    rewrite descendants_leaf in Hx |- * by exact Hn.
    case_uid (uid n) i; cbn [app].
    + destruct Hx as [<-|Hx].
      * right. exists n. split; [now left|]. split; [exact E|].
        rewrite descendants_leaf by exact Hn. now left.
      * destruct (IHl x Hx) as [(n' & Hn' & Hs)|(a0 & Ha0 & Hu & Hin)].
        -- left. now exists n'.
        -- right. exists a0. split; [now right|now split].
    + rewrite descendants_leaf by exact Hn. destruct Hx as [<-|Hx].
      * left. exists n. split; [now left|reflexivity].
      * destruct (IHl x Hx) as [(n' & Hn' & Hs)|(a0 & Ha0 & Hu & Hin)].
        -- left. exists n'. split; [now right|exact Hs].
        -- right. exists a0. split; [now right|now split].
Qed.

(** Every node of the tree keeps its name and attributes through
    [insert_before]. *)
Lemma kept_shell_insert_before j new t :
  forall n, In n (descendants t) ->
  exists n', In n' (descendants (insert_before j new t))
             /\ shell n' = shell n.
Proof.
  forest_induction t; intros x Hx.
  - contradiction.
  - rewrite insert_before_tag, descendants_app, descendants_tag.
    rewrite descendants_tag in Hx. destruct Hx as [<-|Hx].
    + exists (Tag u nm a (insert_before j new c)). split; [|reflexivity].
      apply in_or_app. right. now left.
    + apply in_app_or in Hx as [Hx|Hx].
      * destruct (IHc x Hx) as (n' & Hn' & Hs). exists n'. split; [|exact Hs].
        apply in_or_app. right. right. apply in_or_app. now left.
      * destruct (IHl x Hx) as (n' & Hn' & Hs). exists n'. split; [|exact Hs].
        apply in_or_app. right. right. apply in_or_app. now right.
  - rewrite insert_before_leaf, descendants_app, descendants_leaf by exact Hn.
    rewrite descendants_leaf in Hx by exact Hn. destruct Hx as [<-|Hx].
    + exists n. split; [|reflexivity]. apply in_or_app. right. now left.
    + destruct (IHl x Hx) as (n' & Hn' & Hs). exists n'. split; [|exact Hs].
      apply in_or_app. right. now right.
Qed.

(** What an object held is no longer in the tree once the object has
    left. *)
Lemma cnt_decompose_inside i t :
  forall a x, In a (descendants t) -> uid a = i ->
              cnt x (decompose i t) + cnt x [a] <= cnt x t.
Proof.
  forest_induction t; intros a0 x Ha Hu.
  - contradiction.
  - rewrite decompose_tag, cnt_app, cnt_tag. rewrite descendants_tag in Ha.
    pose proof (cnt_decompose_le x i l) as Hl.
    pose proof (cnt_decompose_le x i c) as Hc.
    destruct Ha as [<-|Ha].
    + cbn [uid] in Hu. rewrite Hu, Nat.eqb_refl, cnt_nil.
      rewrite (cnt_single x (Tag i nm a c)). cbn [uid contents]. lia.
    + case_uid u i.
      * rewrite cnt_nil. apply in_app_or in Ha as [Ha|Ha].
        -- pose proof (cnt_descendant c a0 x Ha). lia.
        -- pose proof (IHl a0 x Ha Hu). lia.
      * rewrite (cnt_single x (Tag u nm a (decompose i c))).
        cbn [uid contents]. apply in_app_or in Ha as [Ha|Ha].
        -- pose proof (IHc a0 x Ha Hu). lia.
        -- pose proof (IHl a0 x Ha Hu). lia.
  - rewrite decompose_leaf, cnt_app by exact Hn.
    rewrite (cnt_leaf x n l Hn). rewrite descendants_leaf in Ha by exact Hn.
    pose proof (cnt_decompose_le x i l) as Hl.
    destruct Ha as [<-|Ha].
    + subst i. rewrite Nat.eqb_refl, cnt_nil.
      rewrite (cnt_single x n), (contents_leaf n Hn), cnt_nil. lia.
    + pose proof (IHl a0 x Ha Hu). case_uid (uid n) i.
      * rewrite cnt_nil. lia.
      * rewrite (cnt_single x n), (contents_leaf n Hn), cnt_nil. lia.
Qed.

Lemma is_candidate_shell m m0 :
  shell m = shell m0 -> is_candidate m = is_candidate m0.
Proof.
  intros H. unfold is_candidate, get_list. now rewrite (get_shell _ _ _ H).
Qed.

Lemma in_uids_inv x t :
  In x (uids t) -> exists n, In n (descendants t) /\ uid n = x.
Proof.
  unfold uids. intros H. apply in_map_iff in H as (n & Hu & Hn).
  now exists n.
Qed.

(** The two outcomes of an iteration. *)
Lemma flatten_marker_cases d i :
  flatten_marker d i = d
  \/ exists span div,
       find_node i (tree d) = Some span
       /\ is_candidate span = true
       /\ text_div i (tree d) = Some div
       /\ flatten_marker d i
          = Dom (decompose i
                   (insert_before (uid div)
                      (NavigableString (next_uid d)
                         (marker_text
                            (fst (is_checked_marker (tree d) span))
                            (snd (is_checked_marker (tree d) span))))
                      (tree d)))
                (S (next_uid d)).
Proof.
  destruct (find_node i (tree d)) as [span|] eqn:Hf;
    [|left; now apply flatten_marker_skip_absent].
  destruct (is_candidate span) eqn:Hc;
    [|left; now apply (flatten_marker_skip_other d i span)].
  destruct (text_div i (tree d)) as [div|] eqn:Ht;
    [|left; now apply (flatten_marker_skip_alone d i span)].
  right. exists span, div. split; [reflexivity|]. split; [exact Hc|].
  split; [reflexivity|]. now apply flatten_marker_flattens.
Qed.

Lemma flattened_distinct d i span div :
  well_formed d ->
  find_node i (tree d) = Some span ->
  text_div i (tree d) = Some div ->
  In span (descendants (tree d)) /\ uid span = i
  /\ i <> uid div /\ next_uid d <> i.
Proof.
  intros Hwf Hfind Hdiv.
  destruct (text_div_sibling i (tree d) div Hdiv) as (s & Hs & Hin).
  destruct (sibling_disjoint (tree d) i span s div (wf_nodup _ Hwf)
              Hfind Hs Hin) as (Hdt & Hi_div & Hj_span).
  pose proof (find_node_in i (tree d) span Hfind) as [Hspan Hui].
  split; [exact Hspan|]. split; [exact Hui|]. split.
  - intros E. rewrite (cnt_single i div) in Hi_div.
    rewrite <- E, Nat.eqb_refl in Hi_div. lia.
  - pose proof (wf_fresh _ Hwf i) as H. rewrite <- Hui in *.
    specialize (H (in_uids span (tree d) Hspan)). lia.
Qed.

(** All that a flattened span holds has left the tree with it. *)
Lemma flattened_gone d i span div s :
  well_formed d ->
  find_node i (tree d) = Some span ->
  text_div i (tree d) = Some div ->
  forall n, In n (descendants [span]) ->
  cnt (uid n)
    (decompose i
       (insert_before (uid div) (NavigableString (next_uid d) s) (tree d)))
  = 0.
Proof.
  intros Hwf Hf Ht n Hn.
  destruct (flattened_distinct d i span div Hwf Hf Ht)
    as (Hspan & Hu & Hij & Hik).
  rewrite decompose_insert_before_comm; [|reflexivity|exact Hik|exact Hij].
  rewrite cnt_insert_before by reflexivity. cbn [uid].
  assert (Hlt : uid n < next_uid d).
  { apply (wf_fresh _ Hwf). apply in_uids.
    now apply (in_descendants_trans (tree d) span). }
  replace (Nat.eqb (next_uid d) (uid n)) with false
    by (symmetry; apply Nat.eqb_neq; lia).
  pose proof (cnt_decompose_inside i (tree d) span (uid n) Hspan Hu).
  pose proof (in_descendants_cnt n [span] Hn).
  pose proof (proj1 (nodup_cnt _) (wf_nodup _ Hwf) (uid n)). lia.
Qed.

(** No object comes back: an iteration adds one new object only. *)
Lemma cnt_flatten_marker d i x :
  x < next_uid d ->
  cnt x (tree (flatten_marker d i)) <= cnt x (tree d)
  /\ next_uid d <= next_uid (flatten_marker d i).
Proof.
  intros Hx.
  destruct (flatten_marker_cases d i) as [->|(span & div & _ & _ & _ & ->)];
    [lia|].
  cbn [tree next_uid]. split; [|lia].
  etransitivity; [apply cnt_decompose_le|].
  rewrite cnt_insert_before by reflexivity. cbn [uid].
  replace (Nat.eqb (next_uid d) x) with false
    by (symmetry; apply Nat.eqb_neq; lia).
  lia.
Qed.

Lemma cnt_flatten_markers ids :
  forall d x, x < next_uid d ->
  cnt x (tree (fold_left flatten_marker ids d)) <= cnt x (tree d).
Proof.
  induction ids as [|i rest IH]; intros d x Hx; cbn [fold_left]; [lia|].
  destruct (cnt_flatten_marker d i x Hx) as [H1 H2].
  etransitivity; [apply IH; lia|exact H1].
Qed.

Lemma marker_loop_inv_refl d : well_formed d -> marker_loop_inv d d.
Proof.
  intros Hwf. constructor.
  - exact Hwf.
  - lia.
  - intros m Hm _. exists m. split; [exact Hm|]. split; [reflexivity|lia].
  - intros n Hn. left. now exists n.
Qed.

Lemma marker_loop_inv_step d0 dk i :
  well_formed d0 ->
  marker_loop_inv d0 dk ->
  In i (find_all (named [lit "span"]) (tree d0)) ->
  marker_loop_inv d0 (flatten_marker dk i).
Proof.
  intros Hwf0 [Hwf Hnext Hold Hkept] Hi.
  pose proof (proj1 (flatten_marker_step dk i Hwf)) as Hwf'.
  destruct (flatten_marker_cases dk i)
    as [->|(span & div & Hf & Hc & Ht & E)]; [now constructor|].
  destruct (flattened_distinct dk i span div Hwf Hf Ht)
    as (Hspan & Hu & Hij & Hik).
  rewrite E in *. clear E.
  set (text := NavigableString (next_uid dk)
                 (marker_text (fst (is_checked_marker (tree dk) span))
                    (snd (is_checked_marker (tree dk) span)))) in *.
  constructor; cbn [tree next_uid].
  - exact Hwf'.
  - lia.
  - intros m Hm Hlt.
    apply in_decompose in Hm as (Hne & m1 & Hm1 & Hs1 & Hc1).
    apply in_insert_before in Hm1 as [->|(m2 & Hm2 & Hs2 & Hc2)];
      [| |reflexivity].
    + exfalso. rewrite (uid_shell _ _ Hs1) in Hlt. cbn [uid text] in Hlt. lia.
    + assert (Hu2 : uid m = uid m2)
        by (rewrite (uid_shell _ _ Hs1); apply (uid_shell _ _ Hs2)).
      destruct (Hold m2 Hm2) as (m0 & Hm0 & Hs0 & Hcnt0); [lia|].
      exists m0. split; [exact Hm0|]. split; [congruence|].
      intros x Hx. specialize (Hcnt0 x Hx).
      rewrite (cnt_single x m2) in Hcnt0. rewrite (cnt_single x m), Hu2, Hc1.
      pose proof (cnt_decompose_le x i (contents m1)) as Hle.
      rewrite Hc2 in Hle |- *.
      rewrite cnt_insert_before in Hle by reflexivity. cbn [uid text] in Hle.
      replace (Nat.eqb (next_uid dk) x) with false in Hle
        by (symmetry; apply Nat.eqb_neq; lia).
      lia.
  - intros n Hn.
    destruct (Hkept n Hn) as [(n' & Hn' & Hs)|Hin]; [|now right].
    destruct (kept_or_pruned i (tree dk) n' Hn')
      as [(n2 & Hn2 & Hs2)|(a & Ha & Hua & Hna)].
    + left.
      rewrite decompose_insert_before_comm; [|reflexivity|exact Hik|exact Hij].
      destruct (kept_shell_insert_before (uid div) text _ n2 Hn2)
        as (n3 & Hn3 & Hs3).
      exists n3. split; [exact Hn3|congruence].
    + right.
      assert (a = span).
      { apply (nodup_uid_inj (tree dk)); try assumption;
          [apply Hwf|congruence]. }
      subst a.
      apply in_find_all in Hi as (s0 & Hs0 & Hus0 & Hnamed).
      assert (HiK : i < next_uid d0).
      { rewrite <- Hus0. apply (wf_fresh _ Hwf0). now apply in_uids. }
      destruct (Hold span Hspan) as (span0 & Hsp0 & Hsh & Hcnt); [lia|].
      assert (span0 = s0).
      { apply (nodup_uid_inj (tree d0)); try assumption; [apply Hwf0|].
        rewrite <- (uid_shell _ _ Hsh). congruence. }
      subst s0.
      exists span0. split; [exact Hsp0|]. split; [exact Hnamed|].
      split; [now rewrite <- (is_candidate_shell _ _ Hsh)|].
      assert (Hun : uid n' = uid n) by apply (uid_shell _ _ Hs).
      pose proof (in_descendants_cnt n' [span] Hna) as Hpos.
      assert (HnK : uid n < next_uid d0)
        by (apply (wf_fresh _ Hwf0); now apply in_uids).
      specialize (Hcnt (uid n) HnK). rewrite Hun in Hpos.
      assert (Hin0 : In (uid n) (uids [span0])) by (apply cnt_pos; lia).
      apply in_uids_inv in Hin0 as (n0 & Hn0 & Hun0).
      assert (n0 = n).
      { apply (nodup_uid_inj (tree d0)); try assumption; [apply Hwf0|].
        now apply (in_descendants_trans (tree d0) span0). }
      now subst n0.
Qed.

Lemma marker_loop_inv_loop d ids :
  well_formed d ->
  (forall i, In i ids -> In i (find_all (named [lit "span"]) (tree d))) ->
  marker_loop_inv d (fold_left flatten_marker ids d).
Proof.
  intros Hwf. induction ids as [|i ids IH] using rev_ind; intros Hids.
  - now apply marker_loop_inv_refl.
  - rewrite fold_left_app. cbn [fold_left].
    apply marker_loop_inv_step; [exact Hwf| |].
    + apply IH. intros j Hj. apply Hids. apply in_or_app. now left.
    + apply Hids. apply in_or_app. right. now left.
Qed.

(** C5.  The loop over the spans, for every parsed tree.  It visits the
    [span] elements of the tree, each once, and nothing else.  The iteration of a span
    that is no longer in the tree, whose class list does not hold the
    vendor prefix or that has no sibling [div] with text changes nothing.
    The iteration of any other span removes the span, leaves the [div] and
    all it holds as they are, puts the marker text just before the [div],
    keeps every node outside the span that holds neither the span nor the
    [div], and nothing the span held is in the tree when the loop ends.
    Over the whole loop every node of the parsed tree keeps its name and
    attributes, unless it is a span with the vendor prefix in its class
    list or lies in one. *)
Theorem marker_loop_frame (d : dom) :
  well_formed d ->
  let spans := find_all (named [lit "span"]) (tree d) in
  let out := flatten_markers d in
  NoDup spans
  /\ (forall i,
        In i spans <->
        exists span, In span (descendants (tree d)) /\ uid span = i
                     /\ named [lit "span"] span = true)
  /\ (forall before i after,
        spans = before ++ i :: after ->
        let dk := fold_left flatten_marker before d in
        let dk' := flatten_marker dk i in
        (find_node i (tree dk) = None -> dk' = dk)
        /\ forall span,
             find_node i (tree dk) = Some span ->
             named [lit "span"] span = true
             /\ (is_candidate span = false -> dk' = dk)
             /\ (text_div i (tree dk) = None -> dk' = dk)
             /\ forall div,
                  is_candidate span = true ->
                  text_div i (tree dk) = Some div ->
                  let text :=
                    NavigableString (next_uid dk)
                      (marker_text
                         (fst (is_checked_marker (tree dk) span))
                         (snd (is_checked_marker (tree dk) span))) in
                  find_node i (tree dk') = None
                  /\ find_node (uid div) (tree dk') = Some div
                  /\ (exists L pre post,
                        In L (sibling_lists (tree dk'))
                        /\ L = pre ++ text :: div :: post)
                  /\ (forall n,
                        In n (descendants (tree dk)) ->
                        ~ In n (descendants [span]) ->
                        cnt i [n] = 0 -> cnt (uid div) (contents n) = 0 ->
                        In n (descendants (tree dk')))
                  /\ forall n,
                       In n (descendants [span]) ->
                       find_node (uid n) (tree out) = None)
  /\ (forall n,
        In n (descendants (tree d)) ->
        (exists n', In n' (descendants (tree out)) /\ shell n' = shell n)
        \/ exists span,
             In span (descendants (tree d))
             /\ named [lit "span"] span = true
             /\ is_candidate span = true
             /\ In n (descendants [span])).
Proof.
  intros Hwf spans out.
  split; [apply nodup_find_all, Hwf|].
  split; [intros i; apply in_find_all|].
  split.
  - intros before i after E dk dk'.
    assert (Hinv : marker_loop_inv d dk).
    { apply marker_loop_inv_loop; [exact Hwf|]. intros j Hj.
      fold spans. rewrite E. apply in_or_app. now left. }
    destruct Hinv as [Hwfk Hnext Hold _].
    destruct (flatten_marker_iteration dk i Hwfk) as [Habs Hpres].
    split; [exact Habs|]. intros span Hf.
    destruct (Hpres span Hf) as (Hother & Halone & Hflat).
    pose proof (find_node_in i (tree dk) span Hf) as [Hspan Hui].
    assert (Hi : In i spans) by (rewrite E; apply in_or_app; right; now left).
    split.
    { apply in_find_all in Hi as (s0 & Hs0 & Hus0 & Hnamed).
      destruct (Hold span Hspan) as (span0 & Hsp0 & Hsh & _).
      { rewrite Hui, <- Hus0. apply (wf_fresh _ Hwf). now apply in_uids. }
      assert (span0 = s0).
      { apply (nodup_uid_inj (tree d)); try assumption; [apply Hwf|].
        rewrite <- (uid_shell _ _ Hsh). congruence. }
      subst s0. now rewrite (named_shell _ _ _ Hsh). }
    split; [exact Hother|]. split; [exact Halone|].
    intros div Hc Ht text.
    destruct (Hflat div Hc Ht) as (H1 & H2 & H3 & H4).
    split; [exact H1|]. split; [exact H2|]. split; [exact H3|].
    split; [exact H4|].
    intros n Hn. apply find_node_none.
    assert (Hout : out = fold_left flatten_marker after dk').
    { unfold out, flatten_markers. fold spans.
      rewrite E, fold_left_app. reflexivity. }
    rewrite Hout.
    assert (Hlt : uid n < next_uid dk).
    { apply (wf_fresh _ Hwfk). apply in_uids.
      now apply (in_descendants_trans (tree dk) span). }
    destruct (cnt_flatten_marker dk i (uid n) Hlt) as [_ Hnext'].
    fold dk' in Hnext'.
    pose proof (cnt_flatten_markers after dk' (uid n) ltac:(lia)) as Hle.
    assert (Hzero : cnt (uid n) (tree dk') = 0).
    { unfold dk'. rewrite (flatten_marker_flattens dk i span div Hf Hc Ht).
      cbn [tree]. now apply (flattened_gone dk i span div). }
    lia.
  - intros n Hn.
    assert (Hinv : marker_loop_inv d out).
    { unfold out, flatten_markers.
      apply marker_loop_inv_loop; [exact Hwf|]. now intros j Hj. }
    exact (inv_kept _ _ Hinv n Hn).
Qed.

Lemma marker_loop_frame_witness :
  well_formed nested_markers_dom
  /\ find_node 3 (tree (flatten_markers nested_markers_dom)) = None.
Proof.
  split; [apply well_formedb_sound; reflexivity|].
  destruct (marker_loop_frame nested_markers_dom
              (well_formedb_sound nested_markers_dom eq_refl))
    as (_ & _ & Hiter & _).
  destruct (Hiter [] 2 [3] eq_refl) as (_ & Hspan).
  destruct (Hspan _ eq_refl) as (_ & _ & _ & Hflat).
  destruct (Hflat _ eq_refl eq_refl) as (_ & _ & _ & _ & Hgone).
  exact (Hgone (Tag 3 (lit "span") [(lit "class", lit "uu-coursekit-b")] [])
           (or_intror (or_introl eq_refl))).
Defined.

(** C5, over the whole loop, fails for a candidate span inside a marker
    span: it has no sibling [div], and it leaves the tree with the marker
    that holds it. *)
Lemma untouched_span_counterexample :
  ~ (forall d d' i span,
        well_formed d ->
        find_node i (tree d) = Some span ->
        named [lit "span"] span = true ->
        is_candidate span = true ->
        text_div i (tree d) = None ->
        flatten d = Some d' ->
        find_node i (tree d') = Some span).
Proof.
  intros H.
  specialize (H nested_markers_dom _ 3 _
                (well_formedb_sound nested_markers_dom eq_refl)
                eq_refl eq_refl eq_refl eq_refl eq_refl).
  vm_compute in H. discriminate.
Qed.

(** ** The handler loop, attribute by attribute *)

Lemma fold_del_attr_filter ks :
  forall a,
    fold_left (fun a' k => del_attr k a') ks a
    = filter (fun kv => negb (existsb (eqb (fst kv)) ks)) a.
Proof.
  induction ks as [|k ks IH]; intros a; cbn [fold_left existsb].
  - induction a as [|kv a IHa]; [reflexivity|]. cbn. now f_equal.
  - rewrite IH. unfold del_attr. clear IH.
    induction a as [|kv a IHa]; [reflexivity|]. cbn [filter].
    destruct (eqb (fst kv) k) eqn:E; cbn [negb orb].
    + exact IHa.
    + cbn [filter]. destruct (negb (existsb (eqb (fst kv)) ks));
        now rewrite IHa.
Qed.

Lemma strip_handlers_filter a : strip_handlers a = without_handlers a.
Proof.
  unfold strip_handlers, without_handlers. rewrite fold_del_attr_filter.
  apply filter_ext_in. intros kv Hkv. f_equal.
  unfold attrs_to_remove. fold is_handler.
  destruct (is_handler (fst kv)) eqn:E.
  - apply existsb_exists. exists (fst kv). split; [|apply eqb_refl].
    apply filter_In. split; [now apply in_map|exact E].
  - destruct (existsb _ _) eqn:E'; [|reflexivity].
    apply existsb_exists in E' as (k & Hk & Heq).
    apply eqb_eq in Heq. subst k. apply filter_In in Hk as [_ Hk].
    congruence.
Qed.

Lemma without_handlers_idem a :
  without_handlers (without_handlers a) = without_handlers a.
Proof.
  unfold without_handlers. induction a as [|kv a IH]; [reflexivity|].
  cbn [filter]. destruct (negb (is_handler (fst kv))) eqn:E; [|exact IH].
  cbn [filter]. now rewrite E, IH.
Qed.

Lemma strip_where_none l : map (strip_where (fun _ => false)) l = l.
Proof.
  forest_induction l.
  - reflexivity.
  - cbn [map strip_where]. fold (map (strip_where (fun _ => false))).
    now rewrite IHc, IHl.
  - cbn [map]. rewrite IHl. now destruct n.
Qed.

Lemma strip_where_step i rest l :
  map (fun n => strip_where (fun u => existsb (Nat.eqb u) rest)
                  (set_attrs i strip_handlers n)) l
  = map (strip_where (fun u => existsb (Nat.eqb u) (i :: rest))) l.
Proof.
  forest_induction l.
  - reflexivity.
  - cbn [map set_attrs strip_where existsb].
    fold (map (set_attrs i strip_handlers)).
    fold (map (strip_where (fun u => existsb (Nat.eqb u) rest))).
    fold (map (strip_where (fun u => Nat.eqb u i || existsb (Nat.eqb u) rest))).
    rewrite map_map. f_equal; [|exact IHl]. f_equal; [|exact IHc].
    rewrite strip_handlers_filter.
    destruct (Nat.eqb u i), (existsb (Nat.eqb u) rest); cbn [orb];
      try reflexivity.
    apply without_handlers_idem.
  - cbn [map]. rewrite IHl. now destruct n.
Qed.

Lemma strip_all_handlers_where ids :
  forall t,
    strip_all_handlers ids t
    = map (strip_where (fun u => existsb (Nat.eqb u) ids)) t.
Proof.
  induction ids as [|i rest IH]; intros t.
  - cbn [strip_all_handlers fold_left existsb]. now rewrite strip_where_none.
  - cbn [strip_all_handlers fold_left].
    change (fold_left _ rest ?x) with (strip_all_handlers rest x).
    rewrite IH, map_map. apply strip_where_step.
Qed.

Lemma strip_where_all p l :
  (forall n, In n (descendants l) -> is_tag n = true -> p (uid n) = true) ->
  map (strip_where p) l = map strip_node l.
Proof.
  forest_induction l; intros H.
  - reflexivity.
  - cbn [map strip_where strip_node].
    fold (map (strip_where p)). fold (map strip_node).
    rewrite descendants_tag in H.
    assert (Hu : p u = true) by (apply (H (Tag u nm a c)); [now left|reflexivity]).
    rewrite Hu, IHc, IHl; [reflexivity| |];
      intros x Hx; apply H; right; apply in_or_app; auto.
  - cbn [map]. rewrite descendants_leaf in H by exact Hn.
    rewrite IHl by (intros x Hx; apply H; now right). now destruct n.
Qed.

(** X1.  The loop that deletes the event handlers changes nothing but the
    attribute lists: the tree keeps its shape, and every tag keeps, in
    their order and with their values, exactly the attributes whose
    lower-cased name does not start with [on]. *)
Theorem handlers_loop_filters (t : list node) :
  strip_all_handlers (find_all is_tag t) t = map strip_node t.
Proof.
  rewrite strip_all_handlers_where. apply strip_where_all.
  intros n Hn Ht. apply existsb_exists. exists (uid n).
  split; [|apply Nat.eqb_refl].
  apply in_find_all. now exists n.
Qed.

(** ** What the strip keeps, adds and removes *)

Lemma residue_of_shell m m0 : shell m = shell m0 -> residue m = residue m0.
Proof. destruct m, m0; simpl; intros H; now inversion H. Qed.

Lemma keeps_refl fresh t : keeps fresh t t.
Proof. intros m Hm. right. now exists m. Qed.

Section Kept.

Variable fresh : node -> bool.
Hypothesis fresh_leaf : forall m, fresh m = true -> is_tag m = false.

Lemma fresh_shell m m0 : shell m = shell m0 -> fresh m0 = true -> fresh m = true.
Proof.
  intros Hs Hf. pose proof (fresh_leaf _ Hf) as Hl.
  assert (is_tag m = false) by now rewrite (is_tag_shell _ _ Hs).
  destruct m, m0; try discriminate; simpl in Hs; now rewrite Hs.
Qed.

Lemma keeps_trans t1 t2 t3 :
  keeps fresh t1 t2 -> keeps fresh t2 t3 -> keeps fresh t1 t3.
Proof.
  intros H12 H23 m Hm. destruct (H12 m Hm) as [H|(m2 & H2 & Hs)]; [now left|].
  destruct (H23 m2 H2) as [H|(m3 & H3 & Hs3)].
  - left. now apply (fresh_shell m m2).
  - right. exists m3. split; [exact H3|]. now rewrite Hs.
Qed.

Lemma keeps_decompose i t : keeps fresh (decompose i t) t.
Proof.
  intros m Hm. apply in_decompose in Hm as [_ (m0 & H0 & Hs & _)].
  right. now exists m0.
Qed.

Lemma keeps_decompose_all ids t : keeps fresh (decompose_all ids t) t.
Proof.
  revert t. induction ids as [|i ids IH]; intros t; simpl.
  - apply keeps_refl.
  - eapply keeps_trans; [apply IH|apply keeps_decompose].
Qed.

Lemma keeps_insert_before i new t :
  is_tag new = false -> fresh new = true ->
  keeps fresh (insert_before i new t) t.
Proof.
  intros Hnew Hf m Hm.
  apply in_insert_before in Hm as [->|(m0 & H0 & Hs & _)];
    [now left| |exact Hnew].
  right. now exists m0.
Qed.

Lemma keeps_drop_link ids :
  forall t t', for_each drop_link ids t = Some t' -> keeps fresh t' t.
Proof.
  induction ids as [|i rest IH]; intros t t' H; cbn [for_each] in H.
  - injection H as <-. apply keeps_refl.
  - unfold drop_link at 1 in H.
    destruct (find_node i t) as [link|]; [|discriminate]. cbn [bind] in H.
    match type of H with
    | context [if ?b then _ else _] => destruct b
    end; cbn [bind] in H.
    + eapply keeps_trans; [apply (IH _ _ H)|apply keeps_decompose].
    + apply (IH _ _ H).
Qed.

(** The handler loop leaves of every node what the strip leaves of it. *)
Lemma derives_strip_all_handlers t3 t :
  keeps fresh t3 t ->
  derives fresh (strip_all_handlers (find_all is_tag t3) t3) t.
Proof.
  intros Hk m Hm.
  rewrite strip_all_handlers_where, strip_where_all in Hm.
  2:{ intros n Hn Ht. apply existsb_exists. exists (uid n).
      split; [|apply Nat.eqb_refl]. apply in_find_all. now exists n. }
  assert (Hd : forall l, descendants (map strip_node l)
                         = map strip_node (descendants l)).
  { intros l. forest_induction l.
    - reflexivity.
    - cbn [map strip_node]. fold (map strip_node).
      rewrite !descendants_tag. cbn [map strip_node]. fold (map strip_node).
      now rewrite !map_app, IHc, IHl.
    - cbn [map]. rewrite !descendants_leaf; [|exact Hn|now destruct n].
      cbn [map]. now rewrite IHl. }
  rewrite Hd in Hm. apply in_map_iff in Hm as (m3 & <- & H3).
  assert (Hs : shell (strip_node m3) = residue m3) by now destruct m3.
  destruct (Hk m3 H3) as [Hf|(m0 & H0 & Hs0)].
  - left. pose proof (fresh_leaf _ Hf) as Hl.
    destruct m3; [discriminate|exact Hf..].
  - right. exists m0. split; [exact H0|].
    now rewrite Hs, (residue_of_shell _ _ Hs0).
Qed.

Lemma derives_keeps t' t4 t :
  keeps fresh t' t4 -> derives fresh t4 t -> derives fresh t' t.
Proof.
  intros Hk Hd m Hm. destruct (Hk m Hm) as [H|(m4 & H4 & Hs)]; [now left|].
  destruct (Hd m4 H4) as [H|(m0 & H0 & Hs0)].
  - left. now apply (fresh_shell m m4).
  - right. exists m0. split; [exact H0|]. now rewrite Hs.
Qed.

(** A property of nodes that no new node has and that only depends on what
    the strip leaves of a node stays false. *)
Lemma derives_false (P : node -> bool) t' t :
  derives fresh t' t ->
  (forall m, fresh m = true -> P m = false) ->
  (forall m m0, shell m = residue m0 -> P m = P m0) ->
  (forall m0, In m0 (descendants t) -> P m0 = false) ->
  forall m, In m (descendants t') -> P m = false.
Proof.
  intros Hd Hnew Hres H m Hm. destruct (Hd m Hm) as [Hf|(m0 & H0 & Hs)].
  - now apply Hnew.
  - rewrite (Hres m m0 Hs). now apply H.
Qed.

Lemma keeps_false (P : node -> bool) t' t :
  keeps fresh t' t ->
  (forall m, fresh m = true -> P m = false) ->
  (forall m m0, shell m = shell m0 -> P m = P m0) ->
  (forall m0, In m0 (descendants t) -> P m0 = false) ->
  forall m, In m (descendants t') -> P m = false.
Proof.
  intros Hd Hnew Hres H m Hm. destruct (Hd m Hm) as [Hf|(m0 & H0 & Hs)].
  - now apply Hnew.
  - rewrite (Hres m m0 Hs). now apply H.
Qed.

End Kept.

Lemma is_marker_node_leaf m : is_marker_node m = true -> is_tag m = false.
Proof. destruct m; [discriminate|reflexivity..]. Qed.

Lemma nothing_new_leaf m : nothing_new m = true -> is_tag m = false.
Proof. discriminate. Qed.

Lemma native_marker_is_marker k t checked :
  is_marker_node (NavigableString k (native_marker t checked)) = true.
Proof.
  unfold native_marker.
  destruct (eqb t (lit "checkbox")), checked; reflexivity.
Qed.

Lemma marker_text_is_marker k t marker_span :
  is_marker_node
    (NavigableString k
       (marker_text (fst (is_checked_marker t marker_span))
          (snd (is_checked_marker t marker_span)))) = true.
Proof.
  unfold is_checked_marker.
  set (style := lower (get_or_empty marker_span (lit "style"))).
  destruct (contains (lit "border-radius: 100%") style
            || contains (lit "border-radius:100%") style
            || contains (lit "width: 32px") style);
    (destruct (contains (lit "result-state") _); [reflexivity|]);
    (destruct (first_some _ _);
      [cbn [fst snd]; destruct (negb _); reflexivity|]);
    (destruct (find_next_sibling _ _ _); [|reflexivity]);
    destruct (contains (lit "opacity: 0.6") _ || contains (lit "opacity:.6") _);
    reflexivity.
Qed.

Lemma keeps_flatten_input ids :
  forall d d', for_each flatten_input ids d = Some d' ->
               keeps is_marker_node (tree d') (tree d).
Proof.
  induction ids as [|i rest IH]; intros d d' H; cbn [for_each] in H.
  - injection H as <-. apply keeps_refl.
  - unfold flatten_input at 1 in H.
    destruct (find_node i (tree d)) as [inp|]; [|discriminate].
    cbn [bind] in H.
    destruct (is_choice (input_type inp)); cbn [bind] in H.
    + eapply keeps_trans; [exact is_marker_node_leaf|apply (IH _ _ H)|].
      cbn [tree].
      eapply keeps_trans; [exact is_marker_node_leaf|apply keeps_decompose|].
      apply keeps_insert_before; [reflexivity|apply native_marker_is_marker].
    + apply (IH _ _ H).
Qed.

Lemma keeps_flatten_marker d i :
  keeps is_marker_node (tree (flatten_marker d i)) (tree d).
Proof.
  unfold flatten_marker.
  destruct (find_node i (tree d)) as [marker|]; [|apply keeps_refl].
  destruct (negb _); [apply keeps_refl|].
  destruct (find_next_sibling i (lit "div") (tree d)) as [text_div|];
    [|apply keeps_refl].
  destruct (get_text [] true (contents text_div)); [apply keeps_refl|].
  pose proof (marker_text_is_marker (next_uid d) (tree d) marker) as Hm.
  destruct (is_checked_marker (tree d) marker) as [checked base_marker].
  cbn [fst snd tree] in *.
  eapply keeps_trans; [exact is_marker_node_leaf|apply keeps_decompose|].
  apply keeps_insert_before; [reflexivity|exact Hm].
Qed.

Lemma keeps_flatten_markers ids :
  forall d, keeps is_marker_node (tree (fold_left flatten_marker ids d))
              (tree d).
Proof.
  induction ids as [|i rest IH]; intros d; cbn [fold_left].
  - apply keeps_refl.
  - eapply keeps_trans; [exact is_marker_node_leaf|apply IH|].
    apply keeps_flatten_marker.
Qed.

Lemma keeps_flatten d d' :
  flatten d = Some d' -> keeps is_marker_node (tree d') (tree d).
Proof.
  unfold flatten, flatten_markers. intros H.
  destruct (for_each flatten_input _ d) as [d1|] eqn:E; [|discriminate].
  cbn [bind] in H. injection H as <-.
  eapply keeps_trans; [exact is_marker_node_leaf|apply keeps_flatten_markers|].
  now apply (keeps_flatten_input _ _ _ E).
Qed.

Lemma decompose_all_gone (P : node -> bool) t :
  (forall m m0, shell m = shell m0 -> P m = P m0) ->
  forall m, In m (descendants (decompose_all (find_all P t) t)) ->
            P m = false.
Proof.
  intros HP m Hm. apply in_decompose_all in Hm as [Hn (m0 & H0 & Hs)].
  destruct (P m) eqn:E; [|reflexivity].
  exfalso. apply Hn. apply in_find_all. exists m0.
  split; [exact H0|]. split; [symmetry; now apply uid_shell|].
  now rewrite <- (HP _ _ Hs).
Qed.

Lemma named_residue names m m0 :
  shell m = residue m0 -> named names m = named names m0.
Proof. destruct m, m0; simpl; intros H; now inversion H. Qed.

Lemma is_comment_shell m m0 : shell m = shell m0 -> is_comment m = is_comment m0.
Proof. destruct m, m0; simpl; intros H; now inversion H. Qed.

Lemma is_comment_residue m m0 :
  shell m = residue m0 -> is_comment m = is_comment m0.
Proof. destruct m, m0; simpl; intros H; now inversion H. Qed.

Lemma assoc_without_handlers k a :
  is_handler k = false -> assoc k (without_handlers a) = assoc k a.
Proof.
  intros Hk. induction a as [|[k' v] a IH]; [reflexivity|].
  unfold without_handlers in *. cbn [filter fst assoc].
  destruct (is_handler k') eqn:E; cbn [negb].
  - rewrite IH. destruct (eqb k' k) eqn:E'; [|reflexivity].
    apply eqb_eq in E'. congruence.
  - cbn [assoc]. now rewrite IH.
Qed.

Lemma get_residue k m m0 :
  is_handler k = false -> shell m = residue m0 -> get m k = get m0 k.
Proof.
  intros Hk. destruct m, m0; simpl; intros H; inversion H; try reflexivity.
  now apply assoc_without_handlers.
Qed.

Lemma is_stripped_link_shell m m0 :
  shell m = shell m0 -> is_stripped_link m = is_stripped_link m0.
Proof.
  intros H. unfold is_stripped_link, has_stripped_rel, get_list.
  now rewrite (named_shell _ _ _ H), (get_shell _ _ _ H).
Qed.

Lemma is_stripped_link_residue m m0 :
  shell m = residue m0 -> is_stripped_link m = is_stripped_link m0.
Proof.
  intros H. unfold is_stripped_link, has_stripped_rel, get_list.
  now rewrite (named_residue _ _ _ H), (get_residue (lit "rel") _ _ eq_refl H).
Qed.

(** The loop over the links runs to its end, and none of the links it went
    over still names a stylesheet, a preload or a preconnect. *)
Lemma drop_link_loop_gone ids :
  forall t k,
    well_formed (Dom t k) -> NoDup ids -> attached_voids ids t ->
    exists t', for_each drop_link ids t = Some t'
               /\ well_formed (Dom t' k)
               /\ (forall x, cnt x t' <= cnt x t)
               /\ (forall m, In m (descendants t') -> In (uid m) ids ->
                             has_stripped_rel m = false).
Proof.
  induction ids as [|i rest IH]; intros t k Hwf Hnd Hatt.
  - exists t. split; [reflexivity|]. split; [exact Hwf|].
    split; [intros; apply Nat.le_refl|]. intros m _ [].
  - destruct (attached_present _ _ _ Hatt) as (link & Hlink).
    cbn [for_each]. unfold drop_link at 1. rewrite Hlink. cbn [bind].
    apply find_node_in in Hlink as [Hin Hu].
    inversion Hnd as [|? ? Hi Hrest]; subst.
    fold (has_stripped_rel link).
    destruct (has_stripped_rel link) eqn:Hrel; cbn [bind].
    + destruct (IH (decompose (uid link) t) k)
        as (t' & Ht' & Hwf' & Hcnt' & Hgone').
      * now apply wf_decompose.
      * exact Hrest.
      * now apply (attached_decompose _ _ _ _ Hwf Hnd).
      * exists t'. split; [exact Ht'|]. split; [exact Hwf'|]. split.
        -- intros x. apply Nat.le_trans with (1 := Hcnt' x).
           apply cnt_decompose_le.
        -- intros m Hm [Hum|Hum]; [|now apply Hgone'].
           exfalso. apply in_descendants_cnt in Hm. rewrite <- Hum in Hm.
           pose proof (Hcnt' (uid link)) as Hle.
           rewrite cnt_decompose_self in Hle. lia.
    + destruct (IH t k Hwf Hrest) as (t' & Ht' & Hwf' & Hcnt' & Hgone').
      * intros j Hj. apply Hatt. now right.
      * exists t'. split; [exact Ht'|]. split; [exact Hwf'|].
        split; [exact Hcnt'|].
        intros m Hm [Hum|Hum]; [|now apply Hgone'].
        destruct (keeps_drop_link nothing_new nothing_new_leaf _ _ _ Ht' m Hm)
          as [Hf|(m0 & H0 & Hs)]; [discriminate|].
        assert (m0 = link).
        { apply (nodup_uid_inj t); [apply Hwf|exact H0|exact Hin|].
          rewrite <- (uid_shell _ _ Hs). now symmetry. }
        subst m0. unfold has_stripped_rel, get_list in *.
        now rewrite (get_shell _ _ _ Hs).
Qed.

Lemma fresh_plain (flatten_inputs : bool) m :
  (if flatten_inputs then is_marker_node m else nothing_new m) = true ->
  exists u s, m = NavigableString u s.
Proof.
  destruct flatten_inputs; [|discriminate].
  destruct m; try discriminate. intros _. now eexists _, _.
Qed.

Lemma fresh_is_leaf (flatten_inputs : bool) m :
  (if flatten_inputs then is_marker_node m else nothing_new m) = true ->
  is_tag m = false.
Proof. intros H. apply fresh_plain in H as (u & s & ->). reflexivity. Qed.

(** The strip, step by step: what it keeps and what is gone afterwards. *)
Lemma strip_tree_spec keep_images flatten_inputs d :
  well_formed d ->
  exists d',
    strip_tree keep_images flatten_inputs d = Some d'
    /\ derives (fun m => if flatten_inputs then is_marker_node m
                         else nothing_new m) (tree d') (tree d)
    /\ (forall m, In m (descendants (tree d')) -> is_comment m = false)
    /\ (keep_images = false ->
        forall m, In m (descendants (tree d')) ->
                  named [lit "img"] m = false)
    /\ (forall m, In m (descendants (tree d')) -> is_stripped_link m = false).
Proof.
  intros Hwf. destruct d as [t k]. unfold strip_tree. cbn [tree next_uid].
  set (F := fun m => if flatten_inputs then is_marker_node m
                     else nothing_new m).
  assert (HF : forall m, F m = true -> is_tag m = false)
    by (intros m; apply fresh_is_leaf).
  set (t1 := decompose_all (find_all (named [lit "script"; lit "style"]) t) t).
  assert (Hwf1 : well_formed (Dom t1 k)) by now apply wf_decompose_all.
  assert (K1 : keeps F t1 t) by now apply keeps_decompose_all.
  destruct (drop_link_loop_gone (find_all (named [lit "link"]) t1) t1 k Hwf1)
    as (t2 & Ht2 & Hwf2 & _ & Hgone).
  { apply nodup_find_all, Hwf1. }
  { apply attached_find_all. simpl; auto. }
  rewrite Ht2. cbn [bind].
  assert (K2 : keeps F t2 t1) by now apply (keeps_drop_link F HF _ _ _ Ht2).
  assert (L2 : forall m, In m (descendants t2) -> is_stripped_link m = false).
  { intros m Hm. unfold is_stripped_link.
    destruct (named [lit "link"] m) eqn:Hname; [|reflexivity]. cbn [andb].
    apply (Hgone m Hm). apply in_find_all.
    destruct (keeps_drop_link nothing_new nothing_new_leaf _ _ _ Ht2 m Hm)
      as [Hf|(m0 & H0 & Hs)]; [discriminate|].
    exists m0. split; [exact H0|]. split; [symmetry; now apply uid_shell|].
    now rewrite <- (named_shell _ _ _ Hs). }
  set (t3 := decompose_all
               (find_all (named [lit "iframe"; lit "embed"; lit "object"]) t2)
               t2).
  assert (Hwf3 : well_formed (Dom t3 k)) by now apply wf_decompose_all.
  assert (K3 : keeps F t3 t2) by now apply keeps_decompose_all.
  set (t4 := strip_all_handlers (find_all is_tag t3) t3).
  assert (Hwf4 : well_formed (Dom t4 k)) by now apply wf_strip_all_handlers.
  assert (D4 : derives F t4 t).
  { apply derives_strip_all_handlers; [exact HF|].
    apply (keeps_trans F HF t3 t2 t); [exact K3|].
    now apply (keeps_trans F HF t2 t1 t). }
  assert (D42 : derives F t4 t2)
    by now apply derives_strip_all_handlers.
  set (t5 := if keep_images then t4
             else decompose_all (find_all (named [lit "img"]) t4) t4).
  assert (H5 : well_formed (Dom t5 k) /\ keeps F t5 t4
               /\ (keep_images = false ->
                   forall m, In m (descendants t5) ->
                             named [lit "img"] m = false)).
  { subst t5. destruct keep_images.
    - split; [exact Hwf4|]. split; [apply keeps_refl|discriminate].
    - split; [now apply wf_decompose_all|].
      split; [now apply keeps_decompose_all|].
      intros _. apply decompose_all_gone. apply named_shell. }
  destruct H5 as (Hwf5 & K5 & I5).
  change (fold_left (fun t' i => extract i t') (find_all is_comment t5) t5)
    with (decompose_all (find_all is_comment t5) t5).
  set (t6 := decompose_all (find_all is_comment t5) t5).
  assert (Hwf6 : well_formed (Dom t6 k)) by now apply wf_decompose_all.
  assert (K6 : keeps F t6 t5) by now apply keeps_decompose_all.
  assert (C6 : forall m, In m (descendants t6) -> is_comment m = false)
    by (apply decompose_all_gone; apply is_comment_shell).
  assert (Hfinal : exists d',
             (if flatten_inputs then flatten (Dom t6 k)
              else Some (Dom t6 k)) = Some d'
             /\ keeps F (tree d') t6).
  { subst F. destruct flatten_inputs.
    - destruct (flatten_total _ Hwf6) as (d' & Hd' & _).
      exists d'. split; [exact Hd'|]. now apply keeps_flatten in Hd'.
    - exists (Dom t6 k). split; [reflexivity|apply keeps_refl]. }
  destruct Hfinal as (d' & Hd' & K7).
  exists d'. split; [exact Hd'|].
  assert (K76 : keeps F (tree d') t5)
    by now apply (keeps_trans F HF _ t6 t5).
  assert (K74 : keeps F (tree d') t4)
    by now apply (keeps_trans F HF _ t5 t4).
  assert (Hplain : forall m, F m = true -> exists u s, m = NavigableString u s)
    by (intros m; apply fresh_plain).
  split; [now apply (derives_keeps F HF _ t4 t)|].
  split.
  { apply (keeps_false F is_comment _ t6 K7); [| |exact C6].
    - intros m Hm. apply Hplain in Hm as (u & s & ->). reflexivity.
    - apply is_comment_shell. }
  split.
  { intros Hk.
    apply (keeps_false F (named [lit "img"]) _ t5 K76); [| |now apply I5].
    - intros m Hm. apply Hplain in Hm as (u & s & ->). reflexivity.
    - apply named_shell. }
  apply (derives_false F is_stripped_link _ t2); [| | |exact L2].
  - now apply (derives_keeps F HF _ t4 t2).
  - intros m Hm. apply Hplain in Hm as (u & s & ->). reflexivity.
  - apply is_stripped_link_residue.
Qed.

(** X2.  The strip invents nothing but marker texts.  Every node of the
    tree it leaves is a string node of the parsed tree, or a tag of the
    parsed tree with its name and exactly its attributes that are no
    handlers, or, when the inputs are flattened, a text node holding one of
    the four marker texts. *)
Theorem strip_adds_only_markers (keep_images flatten_inputs : bool) (d : dom) :
  well_formed d ->
  exists d',
    strip_tree keep_images flatten_inputs d = Some d'
    /\ forall m, In m (descendants (tree d')) ->
         (flatten_inputs && is_marker_node m = true)
         \/ exists m0, In m0 (descendants (tree d))
                       /\ shell m = residue m0.
Proof.
  intros Hwf.
  destruct (strip_tree_spec keep_images flatten_inputs d Hwf)
    as (d' & Hd' & Hder & _).
  exists d'. split; [exact Hd'|]. intros m Hm.
  destruct (Hder m Hm) as [Hf|Hm0]; [left|now right].
  destruct flatten_inputs; [exact Hf|discriminate].
Qed.

Lemma strip_adds_only_markers_witness :
  well_formed styled_dom
  /\ exists d',
       strip_tree true true styled_dom = Some d'
       /\ forall m, In m (descendants (tree d')) ->
            (true && is_marker_node m = true)
            \/ exists m0, In m0 (descendants (tree styled_dom))
                          /\ shell m = residue m0.
Proof.
  split; [apply well_formedb_sound; reflexivity|].
  apply (strip_adds_only_markers true true styled_dom).
  apply well_formedb_sound. reflexivity.
Defined.

(** X3.  No comment is left in the tree the strip serialises. *)
Theorem strip_removes_comments (keep_images flatten_inputs : bool) (d : dom) :
  well_formed d ->
  exists d',
    strip_tree keep_images flatten_inputs d = Some d'
    /\ forall m, In m (descendants (tree d')) -> is_comment m = false.
Proof.
  intros Hwf.
  destruct (strip_tree_spec keep_images flatten_inputs d Hwf)
    as (d' & Hd' & _ & Hc & _).
  exists d'. split; [exact Hd'|exact Hc].
Qed.

Lemma strip_removes_comments_witness :
  well_formed styled_dom
  /\ exists d',
       strip_tree true false styled_dom = Some d'
       /\ forall m, In m (descendants (tree d')) -> is_comment m = false.
Proof.
  split; [apply well_formedb_sound; reflexivity|].
  apply (strip_removes_comments true false styled_dom).
  apply well_formedb_sound. reflexivity.
Defined.

(** X4.  Without [keep_images], no [img] element is left in the tree the
    strip serialises. *)
Theorem strip_removes_images (flatten_inputs : bool) (d : dom) :
  well_formed d ->
  exists d',
    strip_tree false flatten_inputs d = Some d'
    /\ forall m, In m (descendants (tree d')) -> named [lit "img"] m = false.
Proof.
  intros Hwf.
  destruct (strip_tree_spec false flatten_inputs d Hwf)
    as (d' & Hd' & _ & _ & Hi & _).
  exists d'. split; [exact Hd'|]. now apply Hi.
Qed.

Lemma strip_removes_images_witness :
  well_formed styled_dom
  /\ exists d',
       strip_tree false true styled_dom = Some d'
       /\ forall m, In m (descendants (tree d')) ->
                    named [lit "img"] m = false.
Proof.
  split; [apply well_formedb_sound; reflexivity|].
  apply (strip_removes_images true styled_dom).
  apply well_formedb_sound. reflexivity.
Defined.

(** X5.  No [link] whose [rel], lower-cased, names a stylesheet, a preload
    or a preconnect is left in the tree the strip serialises. *)
Theorem strip_removes_stylesheet_links
  (keep_images flatten_inputs : bool) (d : dom) :
  well_formed d ->
  exists d',
    strip_tree keep_images flatten_inputs d = Some d'
    /\ forall m, In m (descendants (tree d')) ->
                 named [lit "link"] m = true -> has_stripped_rel m = false.
Proof.
  intros Hwf.
  destruct (strip_tree_spec keep_images flatten_inputs d Hwf)
    as (d' & Hd' & _ & _ & _ & Hl).
  exists d'. split; [exact Hd'|]. intros m Hm Hname.
  specialize (Hl m Hm). unfold is_stripped_link in Hl.
  now rewrite Hname in Hl.
Qed.

Lemma strip_removes_stylesheet_links_witness :
  well_formed styled_dom
  /\ exists d',
       strip_tree true false styled_dom = Some d'
       /\ forall m, In m (descendants (tree d')) ->
                    named [lit "link"] m = true -> has_stripped_rel m = false.
Proof.
  split; [apply well_formedb_sound; reflexivity|].
  apply (strip_removes_stylesheet_links true false styled_dom).
  apply well_formedb_sound. reflexivity.
Defined.

(** ** The strip as one pass over the tree *)

Lemma flat_map_cons_app {A B : Type} (f : A -> list B) x l :
  flat_map f (x :: l) = f x ++ flat_map f l.
Proof. reflexivity. Qed.

Lemma prune_set_none l : flat_map (prune_set (fun _ => false)) l = l.
Proof.
  forest_induction l.
  - reflexivity.
  - rewrite flat_map_cons_app. cbn [prune_set app]. now rewrite IHc, IHl.
  - rewrite flat_map_cons_app, IHl. now destruct n.
Qed.

Lemma decompose_prune_set i l :
  decompose i l = flat_map (prune_set (fun u => Nat.eqb u i)) l.
Proof.
  forest_induction l.
  - reflexivity.
  - rewrite decompose_tag, flat_map_cons_app. cbn [prune_set uid].
    now rewrite IHc, IHl.
  - rewrite decompose_leaf, flat_map_cons_app, IHl by exact Hn.
    now destruct n.
Qed.

Lemma prune_set_comp p q l :
  flat_map (prune_set p) (flat_map (prune_set q) l)
  = flat_map (prune_set (fun u => q u || p u)) l.
Proof.
  forest_induction l.
  - reflexivity.
  - rewrite !flat_map_cons_app, flat_map_app, IHl. f_equal.
    cbn [prune_set uid]. destruct (q u); cbn [orb flat_map app];
      [reflexivity|].
    cbn [prune_set uid]. destruct (p u); [reflexivity|].
    cbn [app]. now rewrite IHc.
  - rewrite !flat_map_cons_app, flat_map_app, IHl. f_equal.
    destruct n; [discriminate|..]; cbn [prune_set uid];
      destruct (q u); cbn [orb flat_map app]; try reflexivity;
      cbn [prune_set uid]; now destruct (p u).
Qed.

Lemma decompose_all_prune_set ids :
  forall t,
    decompose_all ids t
    = flat_map (prune_set (fun u => existsb (Nat.eqb u) ids)) t.
Proof.
  induction ids as [|i ids IH]; intros t.
  - cbn [decompose_all fold_left existsb]. now rewrite prune_set_none.
  - cbn [decompose_all fold_left].
    change (fold_left _ ids ?x) with (decompose_all ids x).
    rewrite IH, decompose_prune_set, prune_set_comp. reflexivity.
Qed.

Lemma prune_set_by p P l :
  (forall n, In n (descendants l) -> p (uid n) = P n) ->
  flat_map (prune_set p) l = flat_map (prune_by P) l.
Proof.
  forest_induction l; intros H.
  - reflexivity.
  - rewrite !flat_map_cons_app. rewrite descendants_tag in H.
    cbn [prune_set prune_by].
    rewrite (H (Tag u nm a c)) by now left.
    rewrite IHc, IHl; [reflexivity| |];
      intros x Hx; apply H; right; apply in_or_app; auto.
  - rewrite !flat_map_cons_app. rewrite descendants_leaf in H by exact Hn.
    rewrite IHl by (intros x Hx; apply H; now right).
    f_equal. pose proof (H n (or_introl eq_refl)) as Hp.
    destruct n; [discriminate|..]; cbn [prune_set prune_by] in *;
      now rewrite Hp.
Qed.

(** A loop that decomposes all that [find_all] returned removes the nodes
    that match, with all they hold. *)
Lemma decompose_all_find_all P t :
  NoDup (uids t) ->
  decompose_all (find_all P t) t = flat_map (prune_by P) t.
Proof.
  intros Hnd. rewrite decompose_all_prune_set. apply prune_set_by.
  intros n Hn. destruct (P n) eqn:E.
  - apply existsb_exists. exists (uid n). split; [|apply Nat.eqb_refl].
    apply in_find_all. now exists n.
  - destruct (existsb _ _) eqn:E'; [|reflexivity].
    apply existsb_exists in E' as (i & Hi & Heq). apply Nat.eqb_eq in Heq.
    apply in_find_all in Hi as (n' & Hn' & Hu & HP).
    assert (n' = n) by (apply (nodup_uid_inj t); auto; congruence).
    congruence.
Qed.

Lemma prune_by_comp P Q l :
  shallow Q ->
  flat_map (prune_by Q) (flat_map (prune_by P) l)
  = flat_map (prune_by (fun n => P n || Q n)) l.
Proof.
  intros HQ. forest_induction l.
  - reflexivity.
  - rewrite !flat_map_cons_app, flat_map_app, IHl. f_equal.
    cbn [prune_by]. destruct (P (Tag u nm a c)); cbn [orb flat_map app];
      [reflexivity|].
    cbn [prune_by]. rewrite (HQ u nm a _ c).
    destruct (Q (Tag u nm a c)); [reflexivity|]. cbn [app]. now rewrite IHc.
  - rewrite !flat_map_cons_app, flat_map_app, IHl. f_equal.
    destruct n; [discriminate|..]; cbn [prune_by];
      match goal with |- context [P ?x] => destruct (P x) end;
      cbn [orb flat_map app]; try reflexivity; cbn [prune_by];
      match goal with |- context [Q ?x] => destruct (Q x) end; reflexivity.
Qed.

Lemma strip_node_prune_by P l :
  map strip_node (flat_map (prune_by P) l) = flat_map (strip_by P) l.
Proof.
  forest_induction l.
  - reflexivity.
  - rewrite !flat_map_cons_app, map_app, IHl. f_equal.
    cbn [prune_by strip_by]. destruct (P (Tag u nm a c)); [reflexivity|].
    cbn [map strip_node]. fold (map strip_node). now rewrite IHc.
  - rewrite !flat_map_cons_app, map_app, IHl. f_equal.
    destruct n; [discriminate|..]; cbn [prune_by strip_by];
      match goal with |- context [P ?x] => destruct (P x) end; reflexivity.
Qed.

Lemma prune_by_strip_by P Q l :
  handler_blind Q ->
  flat_map (prune_by Q) (flat_map (strip_by P) l)
  = flat_map (strip_by (fun n => P n || Q n)) l.
Proof.
  intros HQ. forest_induction l.
  - reflexivity.
  - rewrite !flat_map_cons_app, flat_map_app, IHl. f_equal.
    cbn [strip_by]. destruct (P (Tag u nm a c)); cbn [orb flat_map app];
      [reflexivity|].
    cbn [prune_by]. rewrite (HQ u nm a _ c).
    destruct (Q (Tag u nm a c)); [reflexivity|]. cbn [app]. now rewrite IHc.
  - rewrite !flat_map_cons_app, flat_map_app, IHl. f_equal.
    destruct n; [discriminate|..]; cbn [strip_by];
      match goal with |- context [P ?x] => destruct (P x) end;
      cbn [orb flat_map app]; try reflexivity; cbn [prune_by];
      match goal with |- context [Q ?x] => destruct (Q x) end; reflexivity.
Qed.

Lemma strip_by_ext P Q l :
  (forall n, P n = Q n) -> flat_map (strip_by P) l = flat_map (strip_by Q) l.
Proof.
  intros H. forest_induction l.
  - reflexivity.
  - rewrite !flat_map_cons_app, IHl. f_equal. cbn [strip_by].
    now rewrite H, IHc.
  - rewrite !flat_map_cons_app, IHl. f_equal.
    destruct n; [discriminate|..]; cbn [strip_by]; now rewrite H.
Qed.

Lemma stripped_ids_decompose i rest t k :
  well_formed (Dom t k) -> NoDup (i :: rest) ->
  attached_voids (i :: rest) t ->
  stripped_ids (decompose i t) rest = stripped_ids t rest.
Proof.
  intros Hwf Hnd Hatt. unfold stripped_ids. apply filter_ext_in.
  intros j Hj.
  pose proof (attached_decompose i rest t k Hwf Hnd Hatt j Hj)
    as (m & Hm & Hum & _).
  destruct (find_node_some j (decompose i t)) as (m' & Hfind' & Hin' & Hu').
  { rewrite <- Hum. now apply in_uids. }
  destruct (Hatt j (or_intror Hj)) as (nj & Hnj & Huj & _).
  destruct (find_node_some j t) as (n' & Hfind & Hin & Hu).
  { rewrite <- Huj. now apply in_uids. }
  rewrite Hfind', Hfind.
  apply in_decompose in Hin' as [_ (m0 & H0 & Hs & _)].
  assert (m0 = n').
  { apply (nodup_uid_inj t); [apply Hwf|exact H0|exact Hin|].
    rewrite <- (uid_shell _ _ Hs). congruence. }
  subst m0. unfold has_stripped_rel, get_list.
  now rewrite (get_shell _ _ _ Hs).
Qed.

(** The link loop decomposes the links that name a stylesheet, a preload
    or a preconnect, and only those. *)
Lemma drop_link_loop_exact ids :
  forall t k,
    well_formed (Dom t k) -> NoDup ids -> attached_voids ids t ->
    for_each drop_link ids t = Some (decompose_all (stripped_ids t ids) t).
Proof.
  induction ids as [|i rest IH]; intros t k Hwf Hnd Hatt.
  - reflexivity.
  - destruct (attached_present _ _ _ Hatt) as (link & Hlink).
    cbn [for_each]. unfold drop_link at 1. rewrite Hlink. cbn [bind].
    unfold stripped_ids. cbn [filter]. rewrite Hlink.
    fold (has_stripped_rel link). fold (stripped_ids t rest).
    inversion Hnd as [|? ? Hi Hrest]; subst.
    destruct (has_stripped_rel link); cbn [bind].
    + rewrite (IH (decompose i t) k).
      * now rewrite (stripped_ids_decompose i rest t k Hwf Hnd Hatt).
      * now apply wf_decompose.
      * exact Hrest.
      * now apply (attached_decompose _ _ _ _ Hwf Hnd).
    + apply (IH t k Hwf Hrest). intros j Hj. apply Hatt. now right.
Qed.

Lemma link_loop_prune t k :
  well_formed (Dom t k) ->
  for_each drop_link (find_all (named [lit "link"]) t) t
  = Some (flat_map (prune_by is_stripped_link) t).
Proof.
  intros Hwf.
  rewrite (drop_link_loop_exact _ t k Hwf).
  2:{ apply nodup_find_all, Hwf. }
  2:{ apply attached_find_all. simpl; auto. }
  f_equal. rewrite decompose_all_prune_set. apply prune_set_by.
  intros n Hn.
  assert (Hself : find_node (uid n) t = Some n).
  { destruct (find_node_some (uid n) t (in_uids n t Hn)) as (l & Hl & Hin & Hu).
    rewrite Hl. f_equal. apply (nodup_uid_inj t); auto. apply Hwf. }
  destruct (is_stripped_link n) eqn:E.
  - apply existsb_exists. exists (uid n). split; [|apply Nat.eqb_refl].
    unfold is_stripped_link in E. apply andb_true_iff in E as [E1 E2].
    apply filter_In. split.
    + apply in_find_all. now exists n.
    + now rewrite Hself.
  - destruct (existsb _ _) eqn:E'; [|reflexivity].
    apply existsb_exists in E' as (j & Hj & Heq). apply Nat.eqb_eq in Heq.
    subst j. apply filter_In in Hj as [Hj Hrel]. rewrite Hself in Hrel.
    apply in_find_all in Hj as (n' & Hn' & Hu' & Hname).
    assert (n' = n) by (apply (nodup_uid_inj t); auto; apply Hwf).
    subst n'. unfold is_stripped_link in E. now rewrite Hname, Hrel in E.
Qed.

Lemma shallow_named names : shallow (named names).
Proof. intros u nm a c c'. reflexivity. Qed.

Lemma shallow_is_stripped_link : shallow is_stripped_link.
Proof. intros u nm a c c'. reflexivity. Qed.

Lemma handler_blind_named names : handler_blind (named names).
Proof. intros u nm a c c'. reflexivity. Qed.

Lemma handler_blind_is_comment : handler_blind is_comment.
Proof. intros u nm a c c'. reflexivity. Qed.

Lemma handler_blind_is_stripped_link : handler_blind is_stripped_link.
Proof.
  intros u nm a c c'. unfold is_stripped_link, has_stripped_rel, get_list.
  cbn [named get]. now rewrite assoc_without_handlers.
Qed.

Lemma handler_blind_removed keep_images : handler_blind (removed keep_images).
Proof.
  intros u nm a c c'. unfold removed.
  now rewrite (handler_blind_is_stripped_link u nm a c c').
Qed.

Lemma handlers_loop_strip_node t :
  strip_all_handlers (find_all is_tag t) t = map strip_node t.
Proof.
  rewrite strip_all_handlers_where. apply strip_where_all.
  intros n Hn Ht. apply existsb_exists. exists (uid n).
  split; [|apply Nat.eqb_refl]. apply in_find_all. now exists n.
Qed.

Lemma strip_tree_one_pass keep_images t k :
  well_formed (Dom t k) ->
  strip_tree keep_images false (Dom t k)
  = Some (Dom (strip_spec keep_images t) k)
  /\ well_formed (Dom (strip_spec keep_images t) k).
Proof.
  intros Hwf. unfold strip_tree. cbn [tree next_uid].
  set (P1 := named [lit "script"; lit "style"]).
  set (P3 := named [lit "iframe"; lit "embed"; lit "object"]).
  assert (Hwf1 : well_formed
            (Dom (decompose_all (find_all P1 t) t) k))
    by now apply wf_decompose_all.
  rewrite (decompose_all_find_all P1 t (wf_nodup _ Hwf)) in *.
  set (t1 := flat_map (prune_by P1) t) in *.
  rewrite (link_loop_prune t1 k Hwf1). cbn [bind].
  assert (Hwf2 : well_formed (Dom (flat_map (prune_by is_stripped_link) t1) k)).
  { destruct (drop_link_loop (find_all (named [lit "link"]) t1) t1 k Hwf1)
      as (t2 & Ht2 & Hwf2 & _).
    - apply nodup_find_all, Hwf1.
    - apply attached_find_all. simpl; auto.
    - rewrite (link_loop_prune t1 k Hwf1) in Ht2. now injection Ht2 as <-. }
  clear Hwf1. subst t1.
  rewrite prune_by_comp in * by apply shallow_is_stripped_link.
  set (t2 := flat_map (prune_by (fun n => P1 n || is_stripped_link n)) t) in *.
  assert (Hwf3 : well_formed (Dom (decompose_all (find_all P3 t2) t2) k))
    by now apply wf_decompose_all.
  rewrite (decompose_all_find_all P3 t2 (wf_nodup _ Hwf2)) in *.
  clear Hwf2. subst t2. rewrite prune_by_comp in * by apply shallow_named.
  set (t3 := flat_map
               (prune_by (fun n => P1 n || is_stripped_link n || P3 n)) t)
    in *.
  assert (Hwf4 : well_formed
            (Dom (strip_all_handlers (find_all is_tag t3) t3) k))
    by now apply wf_strip_all_handlers.
  rewrite handlers_loop_strip_node in *.
  clear Hwf3. subst t3. rewrite strip_node_prune_by in *.
  set (t4 := flat_map
               (strip_by (fun n => P1 n || is_stripped_link n || P3 n)) t)
    in *.
  set (t5 := if keep_images then t4
             else decompose_all (find_all (named [lit "img"]) t4) t4).
  assert (H5 : well_formed (Dom t5 k)
               /\ t5 = flat_map
                         (strip_by
                            (fun n => P1 n || is_stripped_link n || P3 n
                                      || (negb keep_images
                                          && named [lit "img"] n))) t).
  { subst t5. destruct keep_images.
    - split; [exact Hwf4|]. subst t4. apply strip_by_ext.
      intros n. cbn [negb andb]. now rewrite orb_false_r.
    - split; [now apply wf_decompose_all|].
      rewrite (decompose_all_find_all _ t4 (wf_nodup _ Hwf4)).
      subst t4. rewrite prune_by_strip_by by apply handler_blind_named.
      reflexivity. }
  destruct H5 as [Hwf5 E5].
  change (fold_left (fun t' i => extract i t') (find_all is_comment t5) t5)
    with (decompose_all (find_all is_comment t5) t5).
  assert (Hwf6 : well_formed
            (Dom (decompose_all (find_all is_comment t5) t5) k))
    by now apply wf_decompose_all.
  rewrite (decompose_all_find_all _ t5 (wf_nodup _ Hwf5)) in *.
  rewrite E5 in *.
  rewrite prune_by_strip_by in * by apply handler_blind_is_comment.
  split; [reflexivity|exact Hwf6].
Qed.

(** X6.  When the inputs are not flattened, the loops of the strip amount
    to one pass over the parsed tree: every [script], [style], [iframe],
    [embed] and [object], every link to a stylesheet, preload or
    preconnect, every comment and, without [keep_images], every [img]
    leaves with all it holds; every tag that stays loses its handlers;
    nothing else changes, and no new object is made. *)
Theorem strip_is_one_pass (keep_images : bool) (d : dom) :
  well_formed d ->
  strip_tree keep_images false d
  = Some (Dom (strip_spec keep_images (tree d)) (next_uid d)).
Proof.
  intros Hwf. destruct d as [t k]. cbn [tree next_uid].
  now destruct (strip_tree_one_pass keep_images t k Hwf) as [H _].
Qed.

Lemma strip_is_one_pass_witness :
  well_formed styled_dom
  /\ strip_tree false false styled_dom
     = Some (Dom [Doctype 0 (lit "html");
                  Tag 1 (lit "html") []
                    [Tag 2 (lit "head") []
                       [Tag 4 (lit "link")
                          [(lit "rel", lit "icon"); (lit "href", lit "a.ico")]
                          []];
                     Tag 5 (lit "body") [(lit "id", lit "b")]
                       [Tag 8 (lit "input") [(lit "type", lit "radio")] [];
                        NavigableString 9 (lit "Hi")]]]
                 10).
Proof.
  split; [apply well_formedb_sound; reflexivity|].
  exact (strip_is_one_pass false styled_dom
           (well_formedb_sound styled_dom eq_refl)).
Defined.

Lemma strip_by_idem R l :
  handler_blind R ->
  flat_map (strip_by R) (flat_map (strip_by R) l) = flat_map (strip_by R) l.
Proof.
  intros HR. forest_induction l.
  - reflexivity.
  - rewrite !flat_map_cons_app, flat_map_app, IHl. f_equal.
    cbn [strip_by]. destruct (R (Tag u nm a c)) eqn:E; [reflexivity|].
    cbn [flat_map app strip_by]. rewrite (HR u nm a _ c), E.
    now rewrite without_handlers_idem, IHc.
  - rewrite !flat_map_cons_app, flat_map_app, IHl. f_equal.
    destruct n; [discriminate|..]; cbn [strip_by];
      match goal with |- context [R ?x] => destruct (R x) eqn:E end;
      cbn [flat_map app strip_by]; now rewrite ?E.
Qed.

(** X7.  Stripping a stripped tree changes nothing: when the inputs are
    not flattened, the strip of the tree that the strip leaves is that
    tree. *)
Theorem strip_twice (keep_images : bool) (d : dom) :
  well_formed d ->
  exists d',
    strip_tree keep_images false d = Some d'
    /\ strip_tree keep_images false d' = Some d'.
Proof.
  intros Hwf. destruct d as [t k].
  destruct (strip_tree_one_pass keep_images t k Hwf) as [H1 Hwf1].
  exists (Dom (strip_spec keep_images t) k). split; [exact H1|].
  destruct (strip_tree_one_pass keep_images _ k Hwf1) as [H2 _].
  rewrite H2. unfold strip_spec.
  now rewrite strip_by_idem by apply handler_blind_removed.
Qed.

Lemma strip_twice_witness :
  well_formed styled_dom
  /\ exists d',
       strip_tree true false styled_dom = Some d'
       /\ strip_tree true false d' = Some d'.
Proof.
  split; [apply well_formedb_sound; reflexivity|].
  apply (strip_twice true styled_dom).
  apply well_formedb_sound. reflexivity.
Defined.

(** ** More on the analyzer *)

Lemma a2b_base64_bound s :
  forall quad_pos leftchar pads out,
    quad_pos <= 3 ->
    a2b_base64 quad_pos leftchar pads s = Some out ->
    (4 * (len out + written quad_pos) <= 3 * (len s + Z.of_nat quad_pos))%Z.
Proof.
  induction s as [|c s IH]; intros q lc p out Hq H; cbn [a2b_base64] in H.
  - destruct q; [|discriminate]. injection H as <-. cbn. lia.
  - unfold len in *. rewrite len_cons.
    destruct (c =? BASE64_PAD)%N.
    + destruct (2 <=? q) eqn:E2.
      * apply Nat.leb_le in E2. destruct (4 <=? q + S p).
        -- injection H as <-. cbn [length].
           destruct q as [|[|[|[|q]]]]; cbn [written]; lia.
        -- specialize (IH _ _ _ _ Hq H). lia.
      * specialize (IH _ _ _ _ Hq H). lia.
    + destruct (b64_value c) as [this_ch|].
      * destruct q as [|[|[|[|q]]]]; [| | | |lia].
        -- specialize (IH 1 _ _ _ ltac:(lia) H). cbn [written] in *. lia.
        -- destruct (a2b_base64 2 _ 0 s) as [out'|] eqn:E; [|discriminate].
           cbn [bind] in H. injection H as <-.
           specialize (IH 2 _ _ _ ltac:(lia) E). rewrite len_cons.
           cbn [written] in *. lia.
        -- destruct (a2b_base64 3 _ 0 s) as [out'|] eqn:E; [|discriminate].
           cbn [bind] in H. injection H as <-.
           specialize (IH 3 _ _ _ ltac:(lia) E). rewrite len_cons.
           cbn [written] in *. lia.
        -- destruct (a2b_base64 0 0 0 s) as [out'|] eqn:E; [|discriminate].
           cbn [bind] in H. injection H as <-.
           specialize (IH 0 _ _ _ ltac:(lia) E). rewrite len_cons.
           cbn [written] in *. lia.
      * specialize (IH _ _ _ _ Hq H). lia.
Qed.

Lemma len_nonneg {A : Type} (l : list A) : (0 <= Z.of_nat (length l))%Z.
Proof. lia. Qed.

Lemma payload_bytes_bounds_aux b64 : (0 <= payload_bytes b64)%Z.
Proof.
  unfold payload_bytes. destruct (b64decode b64) as [bytes|].
  - unfold len. lia.
  - rewrite Qfloor_three_quarters. unfold len. apply Z.div_pos; lia.
Qed.

(** X8.  What one data URI adds to [data_uri_bytes] is never negative and
    never more than three quarters of the length of its payload: the
    estimate used when decoding fails is an upper bound of what decoding
    gives. *)
Theorem payload_bytes_bounds (b64 : str) :
  (0 <= payload_bytes b64 <= 3 * len b64 / 4)%Z.
Proof.
  unfold payload_bytes.
  destruct (b64decode b64) as [bytes|] eqn:E.
  - unfold b64decode in E.
    pose proof (a2b_base64_bound b64 0 0%N 0 bytes (Nat.le_0_l 3) E) as H.
    cbn [written] in H. unfold len in *. split; [lia|].
    apply Z.div_le_lower_bound; lia.
  - rewrite Qfloor_three_quarters. unfold len. split; [|lia].
    apply Z.div_pos; lia.
Qed.

Lemma startswith_contains p s : contains p s = false -> startswith p s = false.
Proof.
  destruct s; cbn [contains]; intros H; now apply orb_false_iff in H as [H _].
Qed.

Lemma finditer_go_nothing s :
  contains (lit "data:") s = false -> forall skip, finditer_go skip s = [].
Proof.
  induction s as [|c s IH]; intros H skip; [reflexivity|].
  pose proof (startswith_contains _ _ H) as Hs.
  cbn [contains] in H. apply orb_false_iff in H as [_ H].
  cbn [finditer_go]. destruct skip as [|skip]; [|now apply IH].
  unfold match_data_uri. rewrite Hs. now apply IH.
Qed.

Lemma count_data_uri_nothing s acc :
  contains (lit "data:") s = false -> count_data_uri s acc = acc.
Proof.
  intros H. unfold count_data_uri, finditer.
  rewrite (finditer_go_nothing s H). now destruct s.
Qed.

Lemma assoc_in k a v : assoc k a = Some v -> exists k', In (k', v) a.
Proof.
  induction a as [|[k0 v0] a IH]; [discriminate|]. cbn [assoc].
  destruct (eqb k0 k).
  - intros H. injection H as ->. exists k0. now left.
  - intros H. destruct (IH H) as (k' & Hk). exists k'. now right.
Qed.

Lemma get_in n k v : get n k = Some v -> exists k', In (k', v) (attrs n).
Proof. destruct n; [apply assoc_in|discriminate..]. Qed.

Lemma fold_left_fixed {A B : Type} (f : A -> B -> A) (l : list B) (a : A) :
  (forall x, In x l -> f a x = a) -> fold_left f l a = a.
Proof.
  induction l as [|x l IH]; intros H; [reflexivity|].
  cbn [fold_left]. rewrite (H x (or_introl eq_refl)).
  apply IH. intros y Hy. apply H. now right.
Qed.

(** X9.  A document in which no attribute value holds the text [data:]
    has no data URI bytes and no data images. *)
Theorem no_data_uri_no_bytes
  (minify : str -> str) (BeautifulSoup : str -> dom) (html : str) :
  (forall n k v, In n (descendants (tree (BeautifulSoup html))) ->
                 In (k, v) (attrs n) -> contains (lit "data:") v = false) ->
  data_uri_bytes (analyze_html minify BeautifulSoup html) = 0%Z
  /\ images_count (analyze_html minify BeautifulSoup html) = 0%Z.
Proof.
  intros H. unfold analyze_html. cbn [data_uri_bytes images_count].
  unfold count_data_uris.
  rewrite (fold_left_fixed count_image).
  - rewrite (fold_left_fixed count_style); [now split|].
    intros el Hel. apply filter_In in Hel as [Hel _].
    unfold count_style. destruct (get el (lit "style")) as [[|x v]|] eqn:E;
      try reflexivity.
    apply get_in in E as (k' & Hk).
    now rewrite (count_data_uri_nothing _ _ (H el k' _ Hel Hk)).
  - intros img Himg. apply filter_In in Himg as [Himg _].
    unfold count_image, get_or.
    destruct (get img (lit "src")) as [[|x v]|] eqn:E.
    + destruct (get img (lit "srcset")) as [[|y w]|] eqn:E'; try reflexivity.
      apply get_in in E' as (k' & Hk).
      now rewrite (startswith_contains _ _ (H img k' _ Himg Hk)).
    + apply get_in in E as (k' & Hk).
      now rewrite (startswith_contains _ _ (H img k' _ Himg Hk)).
    + destruct (get img (lit "srcset")) as [[|y w]|] eqn:E'; try reflexivity.
      apply get_in in E' as (k' & Hk).
      now rewrite (startswith_contains _ _ (H img k' _ Himg Hk)).
Qed.

Lemma no_data_uri_no_bytes_witness :
  (forall n k v, In n (descendants (tree ((fun _ => example_dom) example_html))) ->
                 In (k, v) (attrs n) -> contains (lit "data:") v = false)
  /\ data_uri_bytes
       (analyze_html (fun s => s) (fun _ => example_dom) example_html) = 0%Z.
Proof.
  assert (H : forall n k v,
             In n (descendants (tree ((fun _ : str => example_dom) example_html))) ->
             In (k, v) (attrs n) -> contains (lit "data:") v = false).
  { intros n k v Hn Hkv. cbn in Hn.
    repeat (destruct Hn as [<-|Hn]; [cbn in Hkv|]); try contradiction.
    destruct Hkv as [Hkv|[]]. injection Hkv as <- <-. reflexivity. }
  split; [exact H|].
  exact (proj1 (no_data_uri_no_bytes (fun s => s) (fun _ => example_dom)
                  example_html H)).
Defined.

Lemma sum_Z_nonneg l : (forall x, In x l -> (0 <= x)%Z) -> (0 <= sum_Z l)%Z.
Proof.
  induction l as [|x l IH]; intros H; [cbn; lia|].
  rewrite sum_Z_cons. pose proof (H x (or_introl eq_refl)).
  assert (0 <= sum_Z l)%Z by (apply IH; intros y Hy; apply H; now right).
  lia.
Qed.

Lemma uri_bytes_nonneg s : (0 <= uri_bytes s)%Z.
Proof.
  unfold uri_bytes. apply sum_Z_nonneg. intros x Hx.
  apply in_map_iff in Hx as (b64 & <- & _). apply payload_bytes_bounds_aux.
Qed.

Lemma fold_left_nonneg {B : Type} (f : Z -> B -> Z) (l : list B) :
  (forall acc x, (0 <= acc)%Z -> (0 <= f acc x)%Z) ->
  forall acc, (0 <= acc)%Z -> (0 <= fold_left f l acc)%Z.
Proof.
  intros Hf. induction l as [|x l IH]; intros acc Hacc; [exact Hacc|].
  cbn [fold_left]. apply IH. now apply Hf.
Qed.

(** X10.  No field of a report is negative. *)
Theorem report_nonneg
  (minify : str -> str) (BeautifulSoup : str -> dom) (html : str) :
  let r := analyze_html minify BeautifulSoup html in
  (0 <= file_size r)%Z /\ (0 <= minified_size r)%Z /\ (0 <= text_chars r)%Z
  /\ (0 <= comments_bytes r)%Z /\ (0 <= scripts_bytes r)%Z
  /\ (0 <= styles_bytes r)%Z /\ (0 <= inline_style_attr_bytes r)%Z
  /\ (0 <= data_uri_bytes r)%Z /\ (0 <= images_count r)%Z
  /\ (0 <= scripts_count r)%Z /\ (0 <= styles_count r)%Z.
Proof.
  intros r. subst r. unfold analyze_html.
  cbn [file_size minified_size text_chars comments_bytes scripts_bytes
       styles_bytes inline_style_attr_bytes data_uri_bytes images_count
       scripts_count styles_count].
  split; [apply len_bytes_nonneg|]. split; [apply len_bytes_nonneg|].
  split; [unfold len; lia|].
  split.
  { apply sum_Z_nonneg. intros x Hx. apply in_map_iff in Hx as (c & <- & _).
    apply len_bytes_nonneg. }
  split.
  { apply fold_left_nonneg; [|lia]. intros acc s Hacc. unfold count_script.
    pose proof (len_bytes_nonneg (element_text s)).
    destruct (get s (lit "src")) as [src|];
      [pose proof (len_bytes_nonneg src)|]; lia. }
  split.
  { apply sum_Z_nonneg. intros x Hx. apply in_map_iff in Hx as (c & <- & _).
    apply len_bytes_nonneg. }
  split.
  { apply fold_left_nonneg; [|lia]. intros acc el Hacc.
    destruct (get el (lit "style")) as [v|];
      [pose proof (len_bytes_nonneg v)|]; lia. }
  unfold count_data_uris.
  rewrite fold_left_count_style, fold_left_count_image.
  cbn [c_data_uri_bytes c_images_count].
  split.
  { assert (forall (g : node -> str) (l : list node),
               (0 <= sum_Z (map (fun n => uri_bytes (g n)) l))%Z) as Hsum.
    { intros g l. apply sum_Z_nonneg. intros x Hx.
      apply in_map_iff in Hx as (n & <- & _). apply uri_bytes_nonneg. }
    pose proof (Hsum resolved_src
                  (filter is_data_image
                     (select (named [lit "img"; lit "source"])
                        (tree (BeautifulSoup html))))).
    pose proof (Hsum (fun el => get_or_empty el (lit "style"))
                  (select is_tag (tree (BeautifulSoup html)))).
    lia. }
  unfold len_list. repeat split; lia.
Qed.

(** ** More on the files *)

Lemma take_while_all p s : forall c, In c (take_while p s) -> p c = true.
Proof.
  induction s as [|x s IH]; intros c H; [contradiction|].
  cbn [take_while] in H. destruct (p x) eqn:E; [|contradiction].
  destruct H as [<-|H]; [exact E|now apply IH].
Qed.

Lemma take_while_prefix p s :
  exists rest, s = take_while p s ++ rest
               /\ match rest with [] => True | c :: _ => p c = false end.
Proof.
  induction s as [|x s (rest & IH & Hrest)].
  - now exists [].
  - cbn [take_while]. destruct (p x) eqn:E.
    + exists rest. split; [cbn; now f_equal|exact Hrest].
    + now exists (x :: s).
Qed.

Lemma dots_app a b : dots (a ++ b) = dots a + dots b.
Proof. unfold dots. now rewrite filter_app, length_app. Qed.

Lemma dots_rev a : dots (rev a) = dots a.
Proof.
  induction a as [|c a IH]; [reflexivity|].
  cbn [rev]. rewrite dots_app, IH. unfold dots. cbn [filter].
  destruct (c =? 46)%N; cbn [length filter]; lia.
Qed.

Lemma dots_firstn_le n a : dots (firstn n a) <= dots a.
Proof.
  rewrite <- (firstn_skipn n a) at 2. rewrite dots_app. lia.
Qed.

(** What [splitext] splits off holds at most one dot. *)
Lemma splitext_base_ext path :
  exists ext, path = splitext_base path ++ ext /\ dots ext <= 1.
Proof.
  unfold splitext_base.
  set (name := take_while (fun c => negb (c =? 47)%N) (rev path)).
  set (ext := take_while (fun c => negb (c =? 46)%N) name).
  destruct (Nat.ltb (length ext) (length name) && _); [|exists []].
  2:{ split; [now rewrite app_nil_r|cbn; lia]. }
  exists (skipn (length path - S (length ext)) path).
  split; [now rewrite firstn_skipn|].
  rewrite <- dots_rev, <- firstn_rev.
  destruct (take_while_prefix (fun c => negb (c =? 47)%N) (rev path))
    as (r1 & E1 & _).
  destruct (take_while_prefix (fun c => negb (c =? 46)%N) name)
    as (r2 & E2 & _).
  fold name in E1. fold ext in E2.
  rewrite E1, E2, <- app_assoc.
  rewrite firstn_app. rewrite firstn_all2 by lia.
  replace (S (length ext) - length ext) with 1 by lia.
  rewrite dots_app.
  assert (dots ext = 0).
  { unfold dots. destruct (filter _ ext) as [|c l] eqn:E; [reflexivity|].
    assert (Hc : In c (filter (fun c => (c =? 46)%N) ext))
      by (rewrite E; now left).
    apply filter_In in Hc as [Hc1 Hc2].
    apply take_while_all in Hc1. now rewrite Hc2 in Hc1. }
  assert (dots (firstn 1 (r2 ++ r1)) <= 1).
  { unfold dots. etransitivity; [apply filter_length_le|].
    rewrite length_firstn. lia. }
  lia.
Qed.

(** X11.  The default output path is never the input path: whatever the
    path and the mode, the file written by default is another file. *)
Theorem default_output_path_differs (path mode : str) :
  _default_output_path path (lit "." ++ mode ++ lit ".html") <> path.
Proof.
  unfold _default_output_path. intros H.
  destruct (splitext_base_ext path) as (ext & Hp & Hd).
  rewrite Hp in H at 2. apply app_inv_head in H. subst ext.
  rewrite !dots_app in Hd. change (dots (lit ".")) with 1 in Hd.
  change (dots (lit ".html")) with 1 in Hd. lia.
Qed.

Lemma default_output_path_eqb path mode :
  eqb (_default_output_path path (lit "." ++ mode ++ lit ".html")) path
  = false.
Proof.
  destruct (eqb _ path) eqn:E; [|reflexivity]. exfalso.
  apply eqb_eq in E. unfold _default_output_path in E.
  destruct (splitext_base_ext path) as (ext & Hp & Hd).
  rewrite Hp in E at 2. apply app_inv_head in E. subst ext.
  rewrite !dots_app in Hd. change (dots (lit ".")) with 1 in Hd.
  change (dots (lit ".html")) with 1 in Hd. lia.
Qed.

(** X12.  Without an output path, [process_file] leaves the input file as
    it was, in every mode. *)
Theorem default_output_keeps_input
  (minify : str -> str) (BeautifulSoup : str -> dom)
  (to_str : list node -> str)
  (fs fs' : filesystem) (path mode in_path : str)
  (keep_images flatten_inputs : bool)
  (report : SizeReport) (out_path : option str) :
  process_file minify BeautifulSoup to_str fs path mode None keep_images
    flatten_inputs = Some (report, in_path, out_path, fs') ->
  read_file fs' path = read_file fs path.
Proof.
  unfold process_file. intros H.
  destruct (read_file fs path) as [bs|] eqn:Hread; [|discriminate].
  cbn [bind] in H.
  destruct (eqb mode (lit "analyze")).
  - injection H as _ _ _ <-. exact Hread.
  - match type of H with
    | bind ?m _ = _ => destruct m as [out_html|]; [|discriminate]
    end.
    cbn [bind] in H.
    destruct (utf8_encode out_html) as [out_bytes|]; [|discriminate].
    cbn [bind] in H. injection H as _ _ _ <-.
    unfold write_file. cbn [read_file].
    change (46%N :: mode ++ lit ".html")
      with (lit "." ++ mode ++ lit ".html").
    now rewrite default_output_path_eqb.
Qed.

Lemma default_output_keeps_input_witness :
  exists report out_path fs',
    process_file (fun s => s) (fun _ => Dom [] 0) (fun _ => [])
      [(lit "in.html", [60; 112; 62]%N)] (lit "in.html") (lit "minify") None
      false false
    = Some (report, lit "in.html", out_path, fs')
    /\ read_file fs' (lit "in.html") = Some [60; 112; 62]%N.
Proof.
  eexists. eexists. eexists. split; [reflexivity|].
  exact (default_output_keeps_input (fun s => s) (fun _ => Dom [] 0)
           (fun _ => []) [(lit "in.html", [60; 112; 62]%N)] _
           (lit "in.html") (lit "minify") (lit "in.html") false false
           _ _ eq_refl).
Defined.

Lemma encode_char_width c b :
  encode_char c = Some b -> Z.of_nat (length b) = utf8_width c.
Proof.
  unfold encode_char, utf8_width.
  destruct (c <? 128)%N; [intros H; now injection H as <-|].
  destruct (c <? 2048)%N; [intros H; now injection H as <-|].
  destruct ((55296 <=? c)%N && (c <=? 57343)%N); [discriminate|].
  destruct (c <? 65536)%N; intros H; now injection H as <-.
Qed.

Lemma utf8_encode_len s :
  forall bs, utf8_encode s = Some bs -> len bs = _len_bytes s.
Proof.
  induction s as [|c s IH]; intros bs H; cbn [utf8_encode] in H.
  - now injection H as <-.
  - destruct (encode_char c) as [b|] eqn:Ec; [|discriminate].
    cbn [bind] in H.
    destruct (utf8_encode s) as [rest|]; [|discriminate].
    cbn [bind] in H. injection H as <-.
    rewrite len_bytes_cons, <- (IH rest eq_refl),
      <- (encode_char_width c b Ec).
    unfold len. rewrite length_app. lia.
Qed.

(** X13.  In [minify] mode the size of the written file is the minified
    size of the report, so the saved bytes are the file size less the
    minified size. *)
Theorem minify_mode_sizes
  (minify : str -> str) (BeautifulSoup : str -> dom)
  (to_str : list node -> str)
  (fs : filesystem) (input : str) (output : option str)
  (keep_images flatten_inputs : bool)
  (report : SizeReport) (block : output_block) :
  main minify BeautifulSoup to_str fs input (lit "minify") output
    keep_images flatten_inputs = Some (report, Some block) ->
  new_size block = minified_size report
  /\ savings block = (file_size report - minified_size report)%Z.
Proof.
  unfold main, process_file. intros H.
  destruct (read_file fs input) as [bs|]; [|discriminate].
  cbn [bind] in H.
  change (eqb (lit "minify") (lit "analyze")) with false in H.
  change (eqb (lit "minify") (lit "minify")) with true in H.
  cbn [bind] in H. unfold minify_only in H.
  destruct (utf8_encode (minify (read_text bs))) as [out_bytes|] eqn:Henc;
    [|discriminate].
  cbn [bind] in H. rewrite read_file_write_file in H. cbn [bind] in H.
  match type of H with
  | bind ?m _ = _ => destruct m as [pct0|]; [|discriminate]
  end.
  cbn [bind] in H. injection H as <- <-. cbn [new_size savings].
  rewrite (utf8_encode_len _ _ Henc). split; reflexivity.
Qed.

Lemma minify_mode_sizes_witness :
  exists report block,
    main (fun s => s) (fun _ => Dom [] 0) (fun _ => [])
      [(lit "in.html", [60; 112; 62; 13; 10]%N)] (lit "in.html")
      (lit "minify") None false false
    = Some (report, Some block)
    /\ new_size block = minified_size report.
Proof.
  eexists. eexists. split; [reflexivity|].
  exact (proj1 (minify_mode_sizes (fun s => s) (fun _ => Dom [] 0)
                  (fun _ => []) [(lit "in.html", [60; 112; 62; 13; 10]%N)]
                  (lit "in.html") None false false _ _ eq_refl)).
Defined.

Lemma width_not_ascii c k :
  utf8_width c = k -> (c < 128)%N -> k = 1%Z.
Proof.
  intros <- H. apply N.ltb_lt in H. unfold utf8_width. now rewrite H.
Qed.

Ltac ascii_emit IH r Hw :=
  let s'' := fresh "s" in
  let Er := fresh "Er" in
  match goal with
  | H : emit _ (utf8_decode true r) = Some _ |- _ =>
    destruct (utf8_decode true r) as [s''|] eqn:Er; [|discriminate H];
    cbn [emit] in H; injection H as <-;
    intros c [<-|Hc] Hlt;
    [ try (now left);
      exfalso; pose proof (width_not_ascii _ _ Hw Hlt); discriminate
    | pose proof (IH r ltac:(cbn [length] in *; lia) s'' Er c Hc Hlt);
      cbn [In]; tauto ]
  end.

(** An ASCII character of a strictly decoded text is a byte of the file. *)
Lemma utf8_decode_ascii (n : nat) :
  forall bs, length bs <= n ->
  forall s, utf8_decode true bs = Some s ->
  forall c, In c s -> (c < 128)%N -> In c bs.
Proof.
  induction n as [|n IH]; intros bs Hn s H.
  - destruct bs; [|cbn [length] in Hn; lia].
    injection H as <-. intros c [].
  - destruct bs as [|b0 r0]; [injection H as <-; intros c []|].
    cbn [utf8_decode on_error] in H.
    destruct (b0 <? 128)%N eqn:E0.
    { ascii_emit IH r0 (width_one b0 E0). }
    destruct (b0 <? 194)%N eqn:E1; [discriminate|].
    destruct (b0 <? 224)%N eqn:E2.
    { destruct r0 as [|b1 r1]; [discriminate|].
      destruct (is_continuation b1) eqn:K1; [|discriminate].
      ascii_emit IH r1 (width_two b0 b1 E1 E2 K1). }
    destruct (b0 <? 240)%N eqn:E3.
    { destruct r0 as [|b1 r1]; [discriminate|].
      destruct (second_of_three b0 b1) eqn:K1; [|discriminate].
      destruct r1 as [|b2 r2]; [discriminate|].
      destruct (is_continuation b2) eqn:K2; [|discriminate].
      ascii_emit IH r2 (width_three b0 b1 b2 E2 E3 K1 K2). }
    destruct (b0 <? 245)%N eqn:E4; [|discriminate].
    destruct r0 as [|b1 r1]; [discriminate|].
    destruct (second_of_four b0 b1) eqn:K1; [|discriminate].
    destruct r1 as [|b2 r2]; [discriminate|].
    destruct (is_continuation b2) eqn:K2; [|discriminate].
    destruct r2 as [|b3 r3]; [discriminate|].
    destruct (is_continuation b3) eqn:K3; [|discriminate].
    ascii_emit IH r3 (width_four b0 b1 b2 b3 E3 E4 K1 K2 K3).
Qed.

Lemma universal_newlines_id s :
  ~ In 13%N s -> universal_newlines s = s.
Proof.
  induction s as [|c s IH]; intros H; [reflexivity|].
  cbn [universal_newlines]. destruct (c =? 13)%N eqn:E.
  - apply N.eqb_eq in E. exfalso. apply H. now left.
  - rewrite IH; [reflexivity|]. intros Hin. apply H. now right.
Qed.

(** X14.  For a file that is well-formed UTF-8 and holds no carriage
    return, the reported file size is the size on disk. *)
Theorem valid_file_size
  (minify : str -> str) (BeautifulSoup : str -> dom)
  (to_str : list node -> str)
  (fs fs' : filesystem) (path mode in_path : str) (output : option str)
  (keep_images flatten_inputs : bool)
  (bs : list N) (s : str) (report : SizeReport) (out_path : option str) :
  read_file fs path = Some bs ->
  utf8_decode true bs = Some s ->
  ~ In 13%N bs ->
  process_file minify BeautifulSoup to_str fs path mode output keep_images
    flatten_inputs = Some (report, in_path, out_path, fs') ->
  file_size report = len bs.
Proof.
  intros Hread Hvalid Hcr Hp.
  destruct (process_file_report _ _ _ _ _ _ _ _ _ _ _ _ _ _ Hread Hp)
    as [-> _].
  change (file_size (analyze_html minify BeautifulSoup (read_text bs)))
    with (_len_bytes (read_text bs)).
  destruct (decode_ignore_decoded bs) as (_ & _ & _ & Hsame).
  destruct (Hsame s Hvalid) as [-> Hlen].
  unfold read_text. rewrite universal_newlines_id; [exact Hlen|].
  intros Hin. apply Hcr.
  apply (utf8_decode_ascii (length bs) bs (Nat.le_refl _) _ Hvalid);
    [exact Hin|reflexivity].
Qed.

Lemma valid_file_size_witness :
  exists report out_path fs',
    process_file (fun s => s) (fun _ => Dom [] 0) (fun _ => [])
      [(lit "in.html", [60; 112; 62; 195; 169]%N)] (lit "in.html")
      (lit "analyze") None false false
    = Some (report, lit "in.html", out_path, fs')
    /\ file_size report = 5%Z.
Proof.
  eexists. eexists. eexists. split; [reflexivity|].
  refine (valid_file_size (fun s => s) (fun _ => Dom [] 0) (fun _ => [])
            [(lit "in.html", [60; 112; 62; 195; 169]%N)] _
            (lit "in.html") (lit "analyze") (lit "in.html") None false false
            [60; 112; 62; 195; 169]%N [60; 112; 62; 233]%N _ _
            eq_refl eq_refl _ eq_refl).
  cbn [In]. intros H. repeat (destruct H as [H|H]; [discriminate H|]).
  exact H.
Defined.

(** ** The strip with flattened inputs *)

Lemma strip_tree_then_flatten keep_images flatten_inputs d :
  strip_tree keep_images flatten_inputs d
  = d6 <- strip_tree keep_images false d ;;
    if flatten_inputs then flatten d6 else Some d6.
Proof.
  unfold strip_tree.
  destruct (for_each drop_link _ _) as [t2|]; [|reflexivity].
  cbn [bind]. reflexivity.
Qed.

Lemma is_choice_input_shell m m0 :
  shell m = shell m0 -> is_choice_input m = is_choice_input m0.
Proof.
  intros H. unfold is_choice_input.
  now rewrite (named_shell _ _ _ H), (input_type_shell _ _ H).
Qed.

(** X15.  With [flatten_inputs], no checkbox and no radio button is left
    in the tree the strip serialises, whatever the loop over the marker
    spans does after the loop over the inputs. *)
Theorem strip_flattens_inputs (keep_images : bool) (d : dom) :
  well_formed d ->
  exists d',
    strip_tree keep_images true d = Some d'
    /\ forall m, In m (descendants (tree d')) ->
                 named [lit "input"] m = true ->
                 is_choice (input_type m) = false.
Proof.
  intros Hwf. destruct d as [t k].
  destruct (strip_tree_one_pass keep_images t k Hwf) as [H6 Hwf6].
  rewrite strip_tree_then_flatten, H6. cbn [bind].
  set (d6 := Dom (strip_spec keep_images t) k) in *.
  destruct (flatten_input_loop (find_all (named [lit "input"]) (tree d6)) d6)
    as (d1 & Hd1 & Hwf1 & Hr1 & _ & _ & Hgone).
  { exact Hwf6. }
  { apply nodup_find_all, Hwf6. }
  { apply attached_find_all. simpl; auto. }
  unfold flatten, flatten_markers. rewrite Hd1. cbn [bind].
  eexists. split; [reflexivity|].
  assert (Hnone : forall m, In m (descendants (tree d1)) ->
                            is_choice_input m = false).
  { intros m Hm. unfold is_choice_input.
    destruct (named [lit "input"] m) eqn:Hname; [|reflexivity]. cbn [andb].
    apply (Hgone m Hm). apply in_find_all.
    destruct (Hr1 m Hm) as [Ht|(m0 & H0 & Hs)]; [now destruct m|].
    exists m0. split; [exact H0|]. split; [symmetry; now apply uid_shell|].
    now rewrite <- (named_shell _ _ _ Hs). }
  intros m Hm Hname.
  pose proof (keeps_false is_marker_node is_choice_input _ _
                (keeps_flatten_markers
                   (find_all (named [lit "span"]) (tree d1)) d1)) as Hk.
  assert (Hc : is_choice_input m = false).
  { apply Hk; [| |exact Hnone|exact Hm].
    - intros x Hx. destruct x; [discriminate|reflexivity..].
    - apply is_choice_input_shell. }
  unfold is_choice_input in Hc. now rewrite Hname in Hc.
Qed.

Lemma strip_flattens_inputs_witness :
  well_formed styled_dom
  /\ exists d',
       strip_tree true true styled_dom = Some d'
       /\ forall m, In m (descendants (tree d')) ->
                    named [lit "input"] m = true ->
                    is_choice (input_type m) = false.
Proof.
  split; [apply well_formedb_sound; reflexivity|].
  apply (strip_flattens_inputs true styled_dom).
  apply well_formedb_sound. reflexivity.
Defined.

(** ** The console report *)

Lemma commas_step a b c d rest :
  commas (a :: b :: c :: d :: rest)
  = a :: b :: c :: 44%N :: commas (d :: rest).
Proof. reflexivity. Qed.

(** Induction along the recursion of [commas]. *)
Lemma commas_induction (P : str -> str -> Prop) :
  (forall l, (length l <= 3)%nat -> P l l) ->
  (forall a b c d rest,
      P (d :: rest) (commas (d :: rest)) ->
      P (a :: b :: c :: d :: rest)
        (a :: b :: c :: 44%N :: commas (d :: rest))) ->
  forall l, P l (commas l).
Proof.
  intros Hsmall Hstep l.
  remember (length l) as k eqn:Hk. revert l Hk.
  induction k as [k IH] using lt_wf_ind. intros l ->.
  destruct l as [|a [|b [|c [|d rest]]]];
    try (match goal with |- P ?s _ => apply (Hsmall s) end;
         cbn [length]; lia).
  rewrite commas_step. apply Hstep.
  apply (IH (length (d :: rest))); [cbn [length]; lia | reflexivity].
Qed.

Lemma in_commas c l : In c (commas l) -> c = 44%N \/ In c l.
Proof.
  revert c.
  apply (commas_induction
           (fun l r => forall c, In c r -> c = 44%N \/ In c l)); clear l.
  - intros; now right.
  - intros a b c0 d rest IH c H.
    cbn [In] in H |- *.
    destruct H as [H|[H|[H|[H|H]]]]; auto.
    all: destruct (IH _ H) as [E|E]; auto.
    all: cbn [In] in E; destruct E; auto 6.
Qed.

Lemma in_group_thousands c s :
  In c (group_thousands s) -> c = 44%N \/ In c s.
Proof.
  unfold group_thousands. intros H. apply in_rev in H.
  apply in_commas in H. destruct H as [H|H]; [now left|].
  right. now apply in_rev.
Qed.

Lemma uint_chars_digits d c : In c (uint_chars d) -> is_digit c = true.
Proof.
  induction d; cbn [uint_chars In]; intros H;
    try (destruct H as [<-|H]; [reflexivity | auto]).
  destruct H.
Qed.

Lemma uint_chars_nil d : uint_chars d = [] -> d = Decimal.Nil.
Proof. destruct d; cbn [uint_chars]; intros H; now try discriminate. Qed.

Lemma chars_uint_chars d : chars_uint (uint_chars d) = Some d.
Proof.
  induction d; cbn [uint_chars chars_uint]; [reflexivity|..];
    rewrite IHd; reflexivity.
Qed.

Lemma to_int_nonnil n d :
  Z.to_int n = Decimal.Pos d \/ Z.to_int n = Decimal.Neg d ->
  d <> Decimal.Nil.
Proof.
  destruct n as [|p|p]; cbn [Z.to_int]; intros [H|H];
    try discriminate; injection H as <-;
    (discriminate || apply DecimalPos.Unsigned.to_uint_nonnil).
Qed.

Lemma filter_digits (f : N -> bool) s :
  (forall c, In c s -> f c = true) -> filter f s = s.
Proof.
  induction s as [|c s IH]; intros H; cbn [filter]; [reflexivity|].
  rewrite (H c (or_introl eq_refl)), IH; [reflexivity|].
  intros c' H'. apply H. now right.
Qed.

Lemma filter_commas l :
  filter (fun c => negb (c =? 44)%N) (commas l)
  = filter (fun c => negb (c =? 44)%N) l.
Proof.
  apply (commas_induction
           (fun l r => filter (fun c => negb (c =? 44)%N) r
                       = filter (fun c => negb (c =? 44)%N) l)); clear l.
  - reflexivity.
  - intros a b c d rest IH.
    cbn [filter] in *.
    destruct (negb (a =? 44)%N), (negb (b =? 44)%N), (negb (c =? 44)%N);
      change (negb (44 =? 44)%N) with false; cbv iota; now rewrite IH.
Qed.

Lemma filter_group_thousands d :
  filter (fun c => negb (c =? 44)%N) (group_thousands (uint_chars d))
  = uint_chars d.
Proof.
  unfold group_thousands.
  rewrite filter_rev, filter_commas, <- filter_rev, rev_involutive.
  apply filter_digits. intros c H.
  apply uint_chars_digits in H. unfold is_digit in H.
  apply andb_prop in H as [H1 H2].
  apply N.leb_le in H1. apply negb_true_iff, N.eqb_neq. lia.
Qed.

(** X16.  A number printed with thousands separators is the number
    printed without them once the commas are deleted, and [int] reads
    that back as the number itself. *)
Theorem thousands_read_back (n : Z) :
  filter (fun c => negb (c =? 44)%N) (format_thousands n) = format_int n
  /\ read_int (format_int n) = Some n.
Proof.
  split.
  - unfold format_thousands, format_int.
    destruct (Z.to_int n) as [d|d]; cbn [filter];
      try change (negb (45 =? 44)%N) with true; cbv iota;
      now rewrite filter_group_thousands.
  - unfold format_int. destruct (Z.to_int n) as [d|d] eqn:E.
    + assert (Hd : d <> Decimal.Nil) by (apply (to_int_nonnil n); now left).
      destruct (uint_chars d) as [|c s] eqn:Es;
        [now apply uint_chars_nil in Es|].
      assert (Hc : is_digit c = true)
        by (apply (uint_chars_digits d); rewrite Es; now left).
      unfold read_int.
      replace (c =? 45)%N with false.
      * rewrite <- Es, chars_uint_chars. cbn [bind].
        now rewrite <- E, DecimalZ.of_to.
      * symmetry. apply N.eqb_neq. unfold is_digit in Hc.
        apply andb_prop in Hc as [H1 H2]. apply N.leb_le in H1. lia.
    + assert (Hd : d <> Decimal.Nil) by (apply (to_int_nonnil n); now right).
      unfold read_int. change (45 =? 45)%N with true. cbv iota.
      destruct (uint_chars d) as [|c s] eqn:Es;
        [now apply uint_chars_nil in Es|].
      rewrite <- Es, chars_uint_chars. cbn [bind].
      now rewrite <- E, DecimalZ.of_to.
Qed.

Lemma join_cons sep x y rest :
  join sep (x :: y :: rest) = x ++ sep ++ join sep (y :: rest).
Proof. reflexivity. Qed.

Lemma join_concat sep x rest :
  join sep (x :: rest) = x ++ concat (map (fun g => sep ++ g) rest).
Proof.
  revert x. induction rest as [|y rest IH]; intros x.
  - cbn. now rewrite app_nil_r.
  - rewrite join_cons, IH. cbn [map concat]. now rewrite <- app_assoc.
Qed.

(** The groups of [commas], least significant first: full groups, each
    followed by a comma, and a last group that is not empty. *)
Lemma commas_groups l :
  l <> [] ->
  exists gs last,
    commas l = concat (map (fun g => g ++ [44%N]) gs) ++ last
    /\ l = concat gs ++ last
    /\ Forall (fun g => length g = 3%nat) gs
    /\ (1 <= length last <= 3)%nat.
Proof.
  apply (commas_induction
           (fun l r =>
              l <> [] ->
              exists gs last,
                r = concat (map (fun g => g ++ [44%N]) gs) ++ last
                /\ l = concat gs ++ last
                /\ Forall (fun g => length g = 3%nat) gs
                /\ (1 <= length last <= 3)%nat)); clear l.
  - intros s Hs Hne. exists [], s. cbn [map concat app].
    repeat split; auto. destruct s; [congruence | cbn [length]; lia].
  - intros a b c d rest IH _.
    destruct IH as (gs & last & E1 & E2 & F & L); [discriminate|].
    exists ([a; b; c] :: gs), last.
    cbn [map concat app]. rewrite E1. rewrite <- E2.
    split; [reflexivity|]. split; [reflexivity|].
    split; [constructor; [reflexivity | exact F] | exact L].
Qed.

Lemma rev_concat_commas gs :
  rev (concat (map (fun g => g ++ [44%N]) gs))
  = concat (map (fun g => [44%N] ++ g) (map (@rev N) (rev gs))).
Proof.
  induction gs as [|g gs IH]; [reflexivity|].
  cbn [map concat rev].
  rewrite rev_app_distr, IH, !map_app, concat_app, rev_app_distr.
  cbn [map concat rev app]. now rewrite app_nil_r.
Qed.

Lemma rev_concat_groups (gs : list str) :
  rev (concat gs) = concat (map (@rev N) (rev gs)).
Proof.
  induction gs as [|g gs IH]; [reflexivity|].
  cbn [map concat rev].
  rewrite rev_app_distr, IH, !map_app, concat_app.
  cbn [map concat]. now rewrite app_nil_r.
Qed.

Lemma group_thousands_groups s :
  s <> [] ->
  exists first rest,
    group_thousands s = join (lit ",") (first :: rest)
    /\ first ++ concat rest = s
    /\ (1 <= length first <= 3)%nat
    /\ Forall (fun g => length g = 3%nat) rest.
Proof.
  intros Hs. unfold group_thousands.
  destruct (commas_groups (rev s)) as (gs & last & E1 & E2 & F & L).
  { intros H. apply Hs. now rewrite <- (rev_involutive s), H. }
  exists (rev last), (map (@rev N) (rev gs)).
  split; [|split; [|split]].
  - rewrite E1, rev_app_distr, rev_concat_commas, join_concat. reflexivity.
  - rewrite <- (rev_involutive s), E2, rev_app_distr, rev_concat_groups.
    reflexivity.
  - now rewrite length_rev.
  - apply Forall_map, Forall_rev.
    eapply Forall_impl; [|exact F]. intros g Hg. now rewrite length_rev.
Qed.

(** X17.  The thousands separators stand between groups of three digits:
    after the sign the printed number is a first group of one to three
    characters and then groups of exactly three, joined by commas, and
    the groups put together are the number as [str] prints it. *)
Theorem thousands_groups (n : Z) :
  exists first rest,
    format_thousands n = sign n ++ join (lit ",") (first :: rest)
    /\ sign n ++ first ++ concat rest = format_int n
    /\ (1 <= length first <= 3)%nat
    /\ Forall (fun g => length g = 3%nat) rest.
Proof.
  unfold format_thousands, format_int, sign.
  destruct (Z.to_int n) as [d|d] eqn:E.
  - assert (Hd : uint_chars d <> []).
    { intros H. apply uint_chars_nil in H.
      now apply (to_int_nonnil n d (or_introl E)). }
    destruct (group_thousands_groups _ Hd) as (first & rest & E1 & E2 & L & F).
    exists first, rest.
    replace (n <? 0)%Z with false
      by (destruct n; [reflexivity | reflexivity | discriminate E]).
    cbn [app]. auto.
  - assert (Hd : uint_chars d <> []).
    { intros H. apply uint_chars_nil in H.
      now apply (to_int_nonnil n d (or_intror E)). }
    destruct (group_thousands_groups _ Hd) as (first & rest & E1 & E2 & L & F).
    exists first, rest.
    replace (n <? 0)%Z with true
      by (destruct n; [discriminate E | discriminate E | reflexivity]).
    cbn [lit list_ascii_of_string map app]. rewrite E1, E2.
    change (N_of_ascii "-") with 45%N. auto.
Qed.

Lemma split_on_line sep a :
  forallb (fun c => negb (c =? sep)%N) a = true -> split_on sep a = [a].
Proof.
  induction a as [|c a IH]; cbn [forallb split_on]; [reflexivity|].
  intros H. apply andb_prop in H as [H1 H2].
  apply negb_true_iff in H1. rewrite H1, (IH H2). reflexivity.
Qed.

Lemma split_on_app sep a b :
  forallb (fun c => negb (c =? sep)%N) a = true ->
  split_on sep (a ++ sep :: b) = a :: split_on sep b.
Proof.
  induction a as [|c a IH]; cbn [forallb split_on app]; intros H.
  - now rewrite N.eqb_refl.
  - apply andb_prop in H as [H1 H2].
    apply negb_true_iff in H1. rewrite H1, (IH H2). reflexivity.
Qed.

Lemma split_on_join sep l :
  l <> [] ->
  forallb (fun s => forallb (fun c => negb (c =? sep)%N) s) l = true ->
  split_on sep (join [sep] l) = l.
Proof.
  induction l as [|x [|y rest] IH]; intros Hne H; [congruence|..].
  - cbn [forallb] in H. apply andb_prop in H as [H _].
    cbn [join]. now apply split_on_line.
  - rewrite join_cons. cbn [app].
    cbn [forallb] in H. apply andb_prop in H as [H1 H2].
    rewrite (split_on_app _ _ _ H1). f_equal.
    apply IH; [discriminate | exact H2].
Qed.

Lemma one_line_digits d : one_line (uint_chars d) = true.
Proof.
  apply forallb_forall. intros c H. apply uint_chars_digits in H.
  unfold is_digit in H. apply andb_prop in H as [H1 H2].
  apply N.leb_le in H1. apply negb_true_iff, N.eqb_neq. lia.
Qed.

Lemma one_line_format_int n : one_line (format_int n) = true.
Proof.
  unfold format_int. destruct (Z.to_int n) as [d|d].
  - apply one_line_digits.
  - unfold one_line. cbn [forallb]. apply (one_line_digits d).
Qed.

Lemma one_line_group_thousands d :
  one_line (group_thousands (uint_chars d)) = true.
Proof.
  apply forallb_forall. intros c H.
  apply in_group_thousands in H as [->|H]; [reflexivity|].
  pose proof (one_line_digits d) as D.
  unfold one_line in D. rewrite forallb_forall in D. now apply D.
Qed.

Lemma one_line_format_thousands n : one_line (format_thousands n) = true.
Proof.
  unfold format_thousands. destruct (Z.to_int n) as [d|d].
  - apply one_line_group_thousands.
  - unfold one_line. cbn [forallb]. apply (one_line_group_thousands d).
Qed.

Lemma one_line_app a b :
  one_line a = true -> one_line b = true -> one_line (a ++ b) = true.
Proof.
  unfold one_line. intros Ha Hb. now rewrite forallb_app, Ha, Hb.
Qed.

(** X18.  The printed report has one line for each of its eight entries:
    splitting it at the line feeds gives back the lines it was joined
    from, because no number is printed with a line feed in it. *)
Theorem to_pretty_lines_back (r : SizeReport) :
  split_on 10 (to_pretty r) = to_pretty_lines r
  /\ length (to_pretty_lines r) = 8%nat.
Proof.
  split; [|reflexivity].
  unfold to_pretty. apply split_on_join; [discriminate|].
  unfold to_pretty_lines. cbn [forallb].
  repeat match goal with
         | |- (_ && _)%bool = true => apply andb_true_intro; split
         | |- forallb _ (_ ++ _) = true => apply one_line_app
         | |- one_line (_ ++ _) = true => apply one_line_app
         | |- one_line (format_int _) = true => apply one_line_format_int
         | |- one_line (format_thousands _) = true =>
           apply one_line_format_thousands
         | |- one_line (lit _) = true => reflexivity
         | |- true = true => reflexivity
         end.
Qed.
